(** * Dashboard Vendite: a shallow embedding of [streamlit_app.py]

    The dashboard loads a table of sales records (from [data.csv], or a
    generated sample when that file is missing), filters it by date range,
    category and region, computes four KPIs, and offers the filtered table
    as a CSV download.

    Conventions of the embedding:
    - a [float64] is Rocq's primitive binary64 [float]; an [int64] is a [Z]
      whose arithmetic is wrapped by [wrap64];
    - a [datetime64[ns]] timestamp is a [Z] (nanoseconds since 1970-01-01),
      a [datetime.date] is a [Z] (days since 1970-01-01);
    - a DataFrame is the list of its rows in order, each with its index label;
    - [np.random] is a state monad over the stream of raw generator outputs;
    - exceptions are the [Raise] case of [result]. *)

From Stdlib Require Import ZArith String Ascii List Bool Lia Floats.
From Stdlib Require Import Sorted Permutation.
Import ListNotations.

Set Warnings "-inexact-float".
Open Scope string_scope.
Open Scope list_scope.
Open Scope Z_scope.

(* ================================================================= *)
(** ** Numbers: [int64] and [float64] *)

Definition wrap64 (z : Z) : Z := (z + 2 ^ 63) mod 2 ^ 64 - 2 ^ 63.

(** Conversion of an integer to binary64, rounding to nearest-even. *)
Definition of_Z (z : Z) : float :=
  SF2Prim (binary_normalize prec emax z 0 false).

(** Truncation of a binary64 toward zero, as Python's [int(x)] does;
    [None] for an infinity or a NaN (where [int] raises). *)
Definition to_Z_trunc (x : float) : option Z :=
  match Prim2SF x with
  | S754_zero _ => Some 0
  | S754_finite s m e =>
      let a := match e with
               | Z0 => Zpos m
               | Zpos p => Zpos m * 2 ^ Zpos p
               | Zneg p => Zpos m / 2 ^ Zpos p
               end in
      Some (if s then - a else a)
  | _ => None
  end.

Definition two52 : float := 0x1p52%float.

(** [np.rint]: the nearest integer, ties to even, with the sign of the
    argument (so [-0.0] and [-0.3] give [-0.0]).  Every binary64 of
    magnitude [2^52] or more is an integer already; below that, adding and
    subtracting [2^52] rounds the magnitude in the unit place. *)
Definition rint (x : float) : float :=
  if (abs x <? two52)%float then
    if get_sign x then (- ((- x + two52) - two52))%float
    else ((x + two52) - two52)%float
  else x.

(** [ndarray.round(decimals)] for [decimals > 0]: multiply by
    [10 ** decimals], [rint], divide again.  Here [decimals = 2]. *)
Definition round2 (x : float) : float := (rint (x * 100) / 100)%float.

(** The [margin] expression of both loaders:
    [(df['profit'] / df['sales'] * 100).round(2)], one element. *)
Definition margin_of (profit : float) (sales : Z) : float :=
  round2 (profit / of_Z sales * 100)%float.

(** *** What rounding means

    The words of the specification, to compare the code with.  [a / d]
    rounded to the nearest integer, a tie going to the even one: *)
Definition round_half_even (a d : Z) : Z :=
  let q := a / d in
  let r := a mod d in
  if 2 * r <? d then q
  else if d <? 2 * r then q + 1
  else if Z.even q then q else q + 1.

(** The integer nearest to a [float64], ties to even, as a [float64] of the
    same sign.  A finite number is [m * 2^e]; with [e >= 0] it is an
    integer already.  Infinities and NaN are kept. *)
Definition nearest_integer (x : float) : float :=
  match Prim2SF x with
  | S754_finite s m e =>
      if e <? 0 then
        let n := of_Z (round_half_even (Zpos m) (2 ^ (- e))) in
        if s then (- n)%float else n
      else x
  | _ => x
  end.

(** The exact quotient [profit / sales * 100] of a finite profit and
    positive sales, rounded to two decimals with ties to even, in
    hundredths: with [profit = m * 2^e] that is
    [m * 2^e * 10000 / sales] rounded to the nearest integer. *)
Definition exact_margin_cents (profit : float) (sales : Z) : option Z :=
  match Prim2SF profit with
  | S754_zero _ => Some 0
  | S754_finite s m e =>
      let n := round_half_even (Zpos m * 10000 * 2 ^ Z.max e 0)
                               (sales * 2 ^ Z.max (- e) 0) in
      Some (if s then - n else n)
  | _ => None
  end.

(* ================================================================= *)
(** ** Dates *)

Definition Timestamp := Z.
Definition ns_per_day : Z := 86400 * 1000000000.

(** Days since 1970-01-01 of a proleptic Gregorian calendar date. *)
Definition days_from_civil (y m d : Z) : Z :=
  let y' := if m <=? 2 then y - 1 else y in
  let era := y' / 400 in
  let yoe := y' - era * 400 in
  let mp := if 2 <? m then m - 3 else m + 9 in
  let doy := (153 * mp + 2) / 5 + d - 1 in
  let doe := yoe * 365 + yoe / 4 - yoe / 100 + doy in
  era * 146097 + doe - 719468.

(** [pd.to_datetime] of a [datetime.date]: midnight of that day. *)
Definition to_datetime (day : Z) : Timestamp := day * ns_per_day.

(** [pd.date_range(start, end)] with the default daily frequency: one
    timestamp per day, both ends included. *)
Definition pd_date_range (start_day end_day : Z) : list Timestamp :=
  map (fun i => to_datetime (start_day + Z.of_nat i))
      (seq 0 (Z.to_nat (end_day - start_day + 1))).

(* ================================================================= *)
(** ** Records and frames *)

(** One dictionary appended to [data] in [create_sample_data], equally one
    line of [data.csv].  [D] is the type of the date cell: a string as read
    from the file, a [Timestamp] after [pd.to_datetime]. *)
Record Sale (D : Type) : Type := mkSale {
  date : D;
  category : string;
  product : string;
  sales : Z;
  profit : float;
  customers : Z;
  region : string
}.
Arguments mkSale {D}.
Arguments date {D}.
Arguments category {D}.
Arguments product {D}.
Arguments sales {D}.
Arguments profit {D}.
Arguments customers {D}.
Arguments region {D}.

(** A row of the loaded frame: the seven columns and the derived [margin]. *)
Record Row : Type := mkRow {
  sale : Sale Timestamp;
  margin : float
}.

(** A frame: rows in order, each with its index label. *)
Definition Frame (R : Type) : Type := list (nat * R).
Definition DataFrame : Type := Frame Row.

Definition records {R} (df : Frame R) : list R := map snd df.
Definition index {R} (df : Frame R) : list nat := map fst df.

(** [pd.DataFrame(data)] and [pd.read_csv] both label the rows [0..n-1]. *)
Definition range_index {R} (data : list R) : Frame R :=
  combine (seq 0 (length data)) data.

(** [df['margin'] = (df['profit'] / df['sales'] * 100).round(2)]. *)
Definition add_margin (s : Sale Timestamp) : Row :=
  mkRow s (margin_of (profit s) (sales s)).

Definition assign_margin (df : Frame (Sale Timestamp)) : DataFrame :=
  map (fun ir => (fst ir, add_margin (snd ir))) df.

(* ================================================================= *)
(** ** [np.random]: a state monad over the generator's raw outputs *)

(** The generator state is the stream of raw words it has yet to hand out.
    Every draw below maps one raw word onto the range the drawing function
    is called with, so ranging over all streams ranges over all outcomes. *)
Definition RandomState : Type := nat -> Z.
Definition Rand (A : Type) : Type := RandomState -> A * RandomState.

Definition rret {A} (a : A) : Rand A := fun g => (a, g).
Definition rbind {A B} (m : Rand A) (k : A -> Rand B) : Rand B :=
  fun g => let (a, g') := m g in k a g'.

Declare Scope rand_scope.
Delimit Scope rand_scope with rand.
Notation "x <- m ;; k" := (rbind m (fun x => k))
  (at level 61, m at next level, right associativity) : rand_scope.

Definition next_raw : Rand Z := fun g => (g O, fun n => g (S n)).

(** [np.random.randint(low, high)]: an integer of [[low, high)]. *)
Definition randint (low high : Z) : Rand Z :=
  (w <- next_raw ;; rret (low + w mod (high - low)))%rand.

(** [random_sample()]: a 53-bit integer over [2^53], a binary64 of [[0, 1)]. *)
Definition random_sample : Rand float :=
  (w <- next_raw ;; rret (of_Z (w mod 2 ^ 53) / 0x1p53)%float)%rand.

(** [np.random.uniform(low, high)] is [low + (high - low) * random_sample()]. *)
Definition uniform (low high : float) : Rand float :=
  (u <- random_sample ;; rret (low + (high - low) * u)%float)%rand.

(** [np.random.choice(a)]: the element at a random position of [a]. *)
Definition choice (a : list string) : Rand string :=
  (i <- randint 0 (Z.of_nat (length a)) ;; rret (nth (Z.to_nat i) a ""))%rand.

(** A [for] loop whose body appends to one list: the appended elements of
    every iteration, in order. *)
Fixpoint for_each {A B} (l : list A) (body : A -> Rand (list B))
  : Rand (list B) :=
  match l with
  | [] => rret []
  | x :: t => (ys <- body x ;; zs <- for_each t body ;; rret (ys ++ zs))%rand
  end.

(* ================================================================= *)
(** ** [create_sample_data] *)

(** The local tables of [create_sample_data]. *)
Module Sample.
Definition date_range : list Timestamp :=
  pd_date_range (days_from_civil 2024 1 1) (days_from_civil 2024 1 31).

Definition categories : list string := ["Elettronica"; "Abbigliamento"; "Casa"].

Definition products : list (string * list string) :=
  [ ("Elettronica", ["Smartphone"; "Tablet"; "Laptop"; "TV"; "Smartwatch"]);
    ("Abbigliamento", ["Giacca"; "Pantaloni"; "Scarpe"; "Maglietta"]);
    ("Casa", ["Forno"; "Frigorifero"; "Lavatrice"; "Microonde"]) ].

Definition regions : list string := ["Nord"; "Centro"; "Sud"].
End Sample.

(** [d[k]] of a dictionary given by its items. *)
Fixpoint getitem {V} (d : list (string * V)) (k : string) : option V :=
  match d with
  | [] => None
  | (k', v) :: t => if String.eqb k k' then Some v else getitem t k
  end.

(** [products[category]]; the loop only asks for the keys of [categories],
    all of which are present (see [products_has_categories]). *)
Definition products_of (category : string) : list string :=
  match getitem Sample.products category with Some l => l | None => [] end.

(** Python's [int(x)] of a finite float. *)
Definition int (x : float) : Z :=
  match to_Z_trunc x with Some z => z | None => 0 end.

(** The body of the innermost loop: four draws, one dictionary. *)
Definition sample_sale (date : Timestamp) (category product : string)
  : Rand (Sale Timestamp) :=
  (sales <- randint 1000 20000 ;;
   factor <- uniform 0.25 0.35 ;;
   let profit := (of_Z sales * factor)%float in
   divisor <- randint 40 60 ;;
   let customers := int (of_Z sales / of_Z divisor)%float in
   region <- choice Sample.regions ;;
   rret (mkSale date category product sales profit customers region))%rand.

Definition sample_records : Rand (list (Sale Timestamp)) :=
  for_each Sample.date_range (fun date =>
    for_each Sample.categories (fun category =>
      for_each (products_of category) (fun product =>
        (s <- sample_sale date category product ;; rret [s])%rand))).

Definition create_sample_data : Rand DataFrame :=
  (data <- sample_records ;;
   rret (assign_margin (range_index data)))%rand.

(* ================================================================= *)
(** ** Exceptions, the session, and [load_data] *)

Inductive exn : Type :=
| FileNotFoundError
| PermissionError
| EmptyDataError
| ParserError
| UnicodeDecodeError
| ValueError
| AttributeError.

Inductive result (A : Type) : Type :=
| Return (a : A)
| Raise (e : exn).
Arguments Return {A}.
Arguments Raise {A}.

(** A cell of a table the script derives for display. *)
Inductive Cell : Type :=
| CDate (t : Timestamp)
| CStr (s : string)
| CInt (z : Z)
| CFloat (x : float).

Definition Table : Type := list (list Cell).

(** What the script puts on the page. *)
Inductive UiEvent : Type :=
| Warning (msg : string)
| Metric (label : string) (value delta : Cell)
| Chart (title : string) (data : Table)
| Dataframe (data : Table)
| Download (label data file_name mime : string)
| Info (updated : string) (total : nat) (first_day last_day : string).

(** The objects the script's variables refer to. *)
Inductive Obj : Type :=
| ONone
| OFrame (df : DataFrame)
| OTable (t : Table).

(** The part of the world a run of the script changes: the generator, the
    page, and the heap of table objects (a reference is a position). *)
Record World : Type := mkWorld {
  rng : RandomState;
  page : list UiEvent;
  heap : list Obj
}.

Definition App (A : Type) : Type := World -> result A * World.

Definition ret {A} (a : A) : App A := fun w => (Return a, w).
Definition raise {A} (e : exn) : App A := fun w => (Raise e, w).
Definition bind {A B} (m : App A) (k : A -> App B) : App B :=
  fun w => match m w with
           | (Return a, w') => k a w'
           | (Raise e, w') => (Raise e, w')
           end.

Declare Scope app_scope.
Delimit Scope app_scope with app.
Notation "x <- m ;; k" := (bind m (fun x => k))
  (at level 61, m at next level, right associativity) : app_scope.
Notation "m ;; k" := (bind m (fun _ => k))
  (at level 61, right associativity) : app_scope.

(** [try: body except E: handler], where [catches] tells the exceptions
    that are instances of [E]. *)
Definition try_except {A} (body : App A) (catches : exn -> bool)
  (handler : App A) : App A :=
  fun w => match body w with
           | (Raise e, w') => if catches e then handler w' else (Raise e, w')
           | r => r
           end.

Definition lift_result {A} (r : result A) : App A := fun w => (r, w).

Definition lift_rand {A} (m : Rand A) : App A :=
  fun w => let (a, g) := m (rng w) in (Return a, mkWorld g (page w) (heap w)).

Definition emit (e : UiEvent) : App unit :=
  fun w => (Return tt, mkWorld (rng w) (page w ++ [e]) (heap w)).

Definition st_warning (msg : string) : App unit := emit (Warning msg).

Definition is_FileNotFoundError (e : exn) : bool :=
  match e with FileNotFoundError => true | _ => false end.

Section Load.

(** The outcome of [pd.read_csv('data.csv')] in the session at hand: the
    rows of a file that has the seven columns, or the exception raised. *)
Variable read_csv : result (list (Sale string)).

(** How [pd.to_datetime] reads one date cell; [None] when it cannot. *)
Variable parse_datetime : string -> option Timestamp.

(** [pd.to_datetime(df['date'])], assigned back to the column: every cell
    parsed, [ValueError] at the first one that is not a date. *)
Fixpoint to_datetime_column (l : list (nat * Sale string))
  : result (Frame (Sale Timestamp)) :=
  match l with
  | [] => Return []
  | (i, s) :: t =>
      match parse_datetime (date s) with
      | None => Raise ValueError
      | Some ts =>
          match to_datetime_column t with
          | Raise e => Raise e
          | Return t' =>
              Return ((i, mkSale ts (category s) (product s) (sales s)
                                (profit s) (customers s) (region s)) :: t')
          end
      end
  end.

Definition load_from_file : App DataFrame :=
  (rows <- lift_result read_csv ;;
   let df := range_index rows in
   df <- lift_result (to_datetime_column df) ;;
   ret (assign_margin df))%app.

Definition load_data : App DataFrame :=
  try_except load_from_file is_FileNotFoundError
    (st_warning "File data.csv non trovato. Genero dati di esempio..." ;;
     lift_rand create_sample_data)%app.

End Load.

(* ================================================================= *)
(** ** Column reductions *)

(** [Series.sum()] of an [int64] column: the additions wrap. *)
Definition int64_sum (l : list Z) : Z :=
  fold_left (fun acc x => wrap64 (acc + x)) l 0.

Definition add_seq (acc : float) (l : list float) : float :=
  fold_left PrimFloat.add l acc.

Definition zip_add (r a : list float) : list float :=
  map (fun p => (fst p + snd p)%float) (combine r a).

(** The eight running sums of numpy's unrolled loop: every complete group
    of eight further elements is added lane by lane. *)
Fixpoint lanes (fuel : nat) (r a : list float) : list float * list float :=
  match fuel with
  | O => (r, a)
  | S fuel' =>
      if (8 <=? length a)%nat
      then lanes fuel' (zip_add r (firstn 8 a)) (skipn 8 a)
      else (r, a)
  end.

Definition block_sum (a : list float) : float :=
  let (r, rest) := lanes (length a) (firstn 8 a) (skipn 8 a) in
  match r with
  | [r0; r1; r2; r3; r4; r5; r6; r7] =>
      add_seq (((r0 + r1) + (r2 + r3)) + ((r4 + r5) + (r6 + r7)))%float rest
  | _ => 0%float
  end.

(** numpy's pairwise summation: a plain loop below 8 elements, the unrolled
    loop up to 128, and two halves (the first a multiple of 8) beyond. *)
Fixpoint pairwise_sum (fuel : nat) (a : list float) : float :=
  let n := length a in
  if (n <? 8)%nat then add_seq 0%float a
  else if (n <=? 128)%nat then block_sum a
  else match fuel with
       | O => 0%float
       | S fuel' =>
           let n2 := (n / 2 - (n / 2) mod 8)%nat in
           (pairwise_sum fuel' (firstn n2 a)
            + pairwise_sum fuel' (skipn n2 a))%float
       end.

(** [ndarray.sum()] of a [float64] array: the reduction starts from the
    identity of addition. *)
Definition np_sum (a : list float) : float :=
  (0 + pairwise_sum (length a) a)%float.

(** [Series.sum()] of a [float64] column ([nansum]): a NaN counts as 0. *)
Definition float64_sum (l : list float) : float :=
  np_sum (map (fun x => if is_nan x then 0%float else x) l).

(** [Series.mean()] of an [int64] column ([nanmean]): the sum taken in
    [float64], over the count; NaN for an empty column. *)
Definition int64_mean (l : list Z) : float :=
  if (0 <? length l)%nat
  then (np_sum (map of_Z l) / of_Z (Z.of_nat (length l)))%float
  else nan.

(** [Series.unique()]: the distinct values in order of first appearance. *)
Fixpoint unique (l : list string) : list string :=
  match l with
  | [] => []
  | x :: t => x :: filter (fun y => negb (String.eqb y x)) (unique t)
  end.

(** [Series.min()] and [Series.max()] of a datetime column; [None] is NaT,
    the value for an empty column. *)
Definition series_min (l : list Timestamp) : option Timestamp :=
  match l with [] => None | x :: t => Some (fold_left Z.min t x) end.
Definition series_max (l : list Timestamp) : option Timestamp :=
  match l with [] => None | x :: t => Some (fold_left Z.max t x) end.

(* ================================================================= *)
(** ** The sidebar, the filter and the KPIs *)

(** A calendar date and time, as [datetime.now()] returns it. *)
Record DateTime : Type := mkDateTime {
  year : Z; month : Z; day : Z; hour : Z; minute : Z
}.

(** What the widgets return in the run at hand.  [date_range] is the tuple
    of [st.sidebar.date_input]: the dates picked so far, two once the range
    is complete. *)
Record Sidebar : Type := mkSidebar {
  date_range : list Z;
  selected_categories : list string;
  selected_regions : list string;
  view_option : string;
  button : bool;
  now : DateTime
}.

(** [Series.isin(values)], one element. *)
Definition isin (x : string) (values : list string) : bool :=
  existsb (String.eqb x) values.

(** The [mask] of the script, one row. *)
Definition mask (d0 d1 : Z) (cats regs : list string) (r : Row) : bool :=
  (to_datetime d0 <=? date (sale r))
  && (date (sale r) <=? to_datetime d1)
  && isin (category (sale r)) cats
  && isin (region (sale r)) regs.

(** [df[mask]]: the rows whose mask is true, labels kept. *)
Definition getitem_mask (df : DataFrame) (m : Row -> bool) : DataFrame :=
  filter (fun ir => m (snd ir)) df.

(** The value of [filtered_df] (lines 100-109). *)
Definition filtered_df (df : DataFrame) (ui : Sidebar) : DataFrame :=
  match date_range ui with
  | [d0; d1] =>
      getitem_mask df (mask d0 d1 (selected_categories ui) (selected_regions ui))
  | _ => df
  end.

Definition column {A} (f : Sale Timestamp -> A) (df : DataFrame) : list A :=
  map (fun r => f (sale r)) (records df).

Definition total_sales (fdf : DataFrame) : Z := int64_sum (column sales fdf).

Definition delta_sales (df fdf : DataFrame) : float :=
  ((of_Z (int64_sum (column sales fdf)) / of_Z (int64_sum (column sales df))
    - 1) * 100)%float.

Definition total_profit (fdf : DataFrame) : float :=
  float64_sum (column profit fdf).

(** The delta of the second card: [total_profit / total_sales * 100]. *)
Definition profit_margin (fdf : DataFrame) : float :=
  (total_profit fdf / of_Z (total_sales fdf) * 100)%float.

Definition avg_customers (fdf : DataFrame) : float :=
  int64_mean (column customers fdf).

Definition unique_products (fdf : DataFrame) : nat :=
  length (unique (column product fdf)).

(** *** The defaults of the sidebar (lines 74-97) *)

(** The calendar day of a timestamp: what [st.sidebar.date_input] keeps of
    a [Timestamp] it is given as a default. *)
Definition date_of (t : Timestamp) : Z := t / ns_per_day.

(** [value=(min_date, max_date)], the tuple [date_input] returns while the
    user leaves it alone; [None] where the bounds are NaT (an empty frame),
    which are no dates. *)
Definition default_date_range (df : DataFrame) : option (list Z) :=
  match series_min (column date df), series_max (column date df) with
  | Some min_date, Some max_date => Some [date_of min_date; date_of max_date]
  | _, _ => None
  end.

(** [df['category'].unique().tolist()] and [df['region'].unique().tolist()],
    the options and the default of the two multiselects. *)
Definition categories (df : DataFrame) : list string :=
  unique (column category df).
Definition regions (df : DataFrame) : list string :=
  unique (column region df).

(** What the widgets return while the user has touched none of the
    filters. *)
Definition default_sidebar (df : DataFrame) (view : string) (clicked : bool)
  (t : DateTime) : option Sidebar :=
  match default_date_range df with
  | Some dr => Some (mkSidebar dr (categories df) (regions df) view clicked t)
  | None => None
  end.

(* ================================================================= *)
(** ** The tables behind the charts *)

(** The group keys of [groupby] come sorted; Python orders strings by
    code point, which on UTF-8 bytes is the order of [String.leb]. *)
Fixpoint insert_sorted (x : string) (l : list string) : list string :=
  match l with
  | [] => [x]
  | y :: t => if String.leb x y then x :: l else y :: insert_sorted x t
  end.

Definition sorted (l : list string) : list string :=
  fold_right insert_sorted [] l.

(** [df.groupby(key)[value].sum().reset_index()] for a string key and an
    [int64] value: one row per distinct key, the keys ascending, each with
    the sum of the values of its rows. *)
Definition groupby_sum (key : Row -> string) (value : Row -> Z)
  (df : DataFrame) : list (string * Z) :=
  map (fun k =>
         (k, int64_sum
               (map value
                    (records (getitem_mask df
                                (fun r => String.eqb (key r) k))))))
      (sorted (unique (map key (records df)))).

(** Line 179, the table of the pie chart. *)
Definition category_sales (fdf : DataFrame) : list (string * Z) :=
  groupby_sum (fun r => category (sale r)) (fun r => sales (sale r)) fdf.

(** [nlargest(n, 'sales')] of such a table: the rows ordered by falling
    value, rows of equal value in their order in the table, and the first
    [n] of them kept. *)
Fixpoint insert_desc (x : string * Z) (l : list (string * Z))
  : list (string * Z) :=
  match l with
  | [] => [x]
  | y :: t => if snd x <? snd y then y :: insert_desc x t else x :: l
  end.

Definition sort_desc (l : list (string * Z)) : list (string * Z) :=
  fold_right insert_desc [] l.

Definition nlargest_sales (n : nat) (t : list (string * Z))
  : list (string * Z) :=
  firstn n (sort_desc t).

(** Lines 233-236, the product and sales columns of [product_margin]. *)
Definition product_sales (fdf : DataFrame) : list (string * Z) :=
  groupby_sum (fun r => product (sale r)) (fun r => sales (sale r)) fdf.

(** [px.scatter(..., size='sales')] of line 238 hands the summed sales to
    plotly as marker sizes, which plotly validates: a size below 0 is a
    [ValueError]. *)
Definition sizes_valid (fdf : DataFrame) : bool :=
  forallb (fun ps => 0 <=? snd ps) (product_sales fdf).

(** Lines 215-218, the product and sales columns of [top_products]. *)
Definition top_products (fdf : DataFrame) : list (string * Z) :=
  nlargest_sales 10
    (groupby_sum (fun r => product (sale r)) (fun r => sales (sale r)) fdf).

(** The same for the date column, whose keys are timestamps. *)
Fixpoint insert_date (x : Timestamp) (l : list Timestamp) : list Timestamp :=
  match l with
  | [] => [x]
  | y :: t => if x <=? y then x :: l else y :: insert_date x t
  end.

Definition sorted_dates (l : list Timestamp) : list Timestamp :=
  fold_right insert_date [] l.

Fixpoint unique_dates (l : list Timestamp) : list Timestamp :=
  match l with
  | [] => []
  | x :: t => x :: filter (fun y => negb (y =? x)) (unique_dates t)
  end.

(** Lines 158-162, the date and sales columns of [daily_sales], which the
    line chart plots. *)
Definition daily_sales (fdf : DataFrame) : list (Timestamp * Z) :=
  map (fun t =>
         (t, int64_sum
               (map (fun r => sales (sale r))
                    (filter (fun r => date (sale r) =? t) (records fdf)))))
      (sorted_dates (unique_dates (column date fdf))).

(* ================================================================= *)
(** ** CSV export *)

Definition comma : ascii := ascii_of_nat 44.
Definition dquote : ascii := ascii_of_nat 34.
Definition newline : ascii := ascii_of_nat 10.
Definition cr : ascii := ascii_of_nat 13.

Definition digit (d : Z) : ascii := ascii_of_nat (48 + Z.to_nat d).

(** The decimal digits of a natural number, [fuel] bounding their count. *)
Fixpoint digits (fuel : nat) (n : Z) (acc : string) : string :=
  match fuel with
  | O => acc
  | S fuel' =>
      let acc' := String (digit (n mod 10)) acc in
      if n / 10 =? 0 then acc' else digits fuel' (n / 10) acc'
  end.

Definition str_nonneg (n : Z) : string := digits (S (Z.to_nat (Z.log2 n))) n "".

(** [str(z)] of an integer. *)
Definition str (z : Z) : string :=
  if z <? 0 then String (ascii_of_nat 45) (str_nonneg (- z)) else str_nonneg z.

(** A number in at least [width] digits, zero-padded ([%02d], [%04d]). *)
Fixpoint zero_pad (width : nat) (s : string) : string :=
  match width with
  | O => s
  | S w => if (String.length s <? width)%nat
           then zero_pad w (String (digit 0) s) else s
  end.

(** [strftime('%Y%m%d')] of a [datetime]. *)
Definition strftime_Ymd (t : DateTime) : string :=
  (zero_pad 4 (str (year t)) ++ zero_pad 2 (str (month t))
   ++ zero_pad 2 (str (day t)))%string.

(** The [file_name] f-string of the download button. *)
Definition file_name (t : DateTime) : string :=
  ("dashboard_data_" ++ strftime_Ymd t ++ ".csv")%string.

Fixpoint contains_char (c : ascii) (s : string) : bool :=
  match s with
  | EmptyString => false
  | String c' s' => Ascii.eqb c c' || contains_char c s'
  end.

Fixpoint double_quotes (s : string) : string :=
  match s with
  | EmptyString => EmptyString
  | String c s' =>
      if Ascii.eqb c dquote then String c (String c (double_quotes s'))
      else String c (double_quotes s')
  end.

(** [csv.QUOTE_MINIMAL] with the line terminator pandas hands to
    [csv.writer], [os.linesep], which is a line feed on the Linux hosts
    the dashboard runs on: a field is quoted when it holds the delimiter,
    the quote character or a character of the line terminator.  A
    carriage return alone does not make the writer quote. *)
Definition needs_quotes (s : string) : bool :=
  contains_char comma s || contains_char dquote s || contains_char newline s.

Definition quote_minimal (s : string) : string :=
  if needs_quotes s
  then String dquote (double_quotes s ++ String dquote EmptyString)%string
  else s.

(** [writer.writerow]: the fields joined by commas and the line
    terminator; a record of one empty field is written as a pair of
    quotes, which keeps it apart from an empty record. *)
Definition csv_line (fields : list string) : string :=
  match fields with
  | [EmptyString] =>
      String dquote (String dquote (String newline EmptyString))
  | _ =>
      (String.concat (String comma EmptyString) (map quote_minimal fields)
       ++ String newline EmptyString)%string
  end.

Definition columns : list string :=
  ["date"; "category"; "product"; "sales"; "profit"; "customers"; "region";
   "margin"].

Section Script.

Variable read_csv : result (list (Sale string)).
Variable parse_datetime : string -> option Timestamp.

(** pandas' and Python's formatters, and the table operations behind the
    charts, as the libraries provide them. *)
Variable format_float : float -> string.
Variable format_datetime : list Timestamp -> Timestamp -> string.
Variable strftime : string -> Timestamp -> string.
Variable groupby_agg :
  list string -> list (string * string) -> DataFrame -> Table.
Variable nlargest : nat -> string -> Table -> Table.
Variable sort_values : string -> bool -> Table -> Table.

Definition cells (r : Row) : list Cell :=
  [CDate (date (sale r)); CStr (category (sale r)); CStr (product (sale r));
   CInt (sales (sale r)); CFloat (profit (sale r));
   CInt (customers (sale r)); CStr (region (sale r)); CFloat (margin r)].

Definition table_of (df : DataFrame) : Table := map cells (records df).

Definition csv_fields (dates : list Timestamp) (r : Row) : list string :=
  [format_datetime dates (date (sale r)); category (sale r);
   product (sale r); str (sales (sale r)); format_float (profit (sale r));
   str (customers (sale r)); region (sale r); format_float (margin r)].

(** [DataFrame.to_csv(index=...)], returning the text. *)
Definition to_csv (index : bool) (df : DataFrame) : string :=
  let dates := column date df in
  (csv_line ((if index then [""] else []) ++ columns)
   ++ String.concat ""
        (map (fun ir =>
                csv_line ((if index then [str (Z.of_nat (fst ir))] else [])
                          ++ csv_fields dates (snd ir)))
             df))%string.

(** *** Objects *)

Definition new (o : Obj) : App nat :=
  fun w => (Return (length (heap w)),
            mkWorld (rng w) (page w) (heap w ++ [o])).

Definition deref (l : nat) : App Obj :=
  fun w => (Return (nth l (heap w) ONone), w).

(** The frame a variable refers to; a method of [DataFrame] on another
    object is an [AttributeError]. *)
Definition frame (l : nat) : App DataFrame :=
  (o <- deref l ;;
   match o with OFrame df => ret df | _ => raise AttributeError end)%app.

(** An assignment into the object at [l], as [df[col] = values] is:
    every variable that refers to the object sees the change. *)
Definition setitem (l : nat) (f : DataFrame -> DataFrame) : App unit :=
  (df <- frame l ;;
   fun w => (Return tt,
             mkWorld (rng w) (page w)
                     (firstn l (heap w) ++ OFrame (f df)
                        :: skipn (S l) (heap w))))%app.

(** [df.copy()]. *)
Definition copy (l : nat) : App nat :=
  (df <- frame l ;; new (OFrame df))%app.

(** *** The script, block by block *)

(** Lines 100-109. *)
Definition apply_filters (df : nat) (ui : Sidebar) : App nat :=
  match date_range ui with
  | [d0; d1] =>
      (d <- frame df ;;
       selected <- new (OFrame (getitem_mask d
                          (mask d0 d1 (selected_categories ui)
                                (selected_regions ui)))) ;;
       copy selected)%app
  | _ => copy df
  end.

(** Lines 114-147. *)
Definition kpi_cards (df fdf : nat) : App unit :=
  (d <- frame df ;;
   f <- frame fdf ;;
   emit (Metric "Vendite Totali"
                (CInt (total_sales f)) (CFloat (delta_sales d f))) ;;
   emit (Metric "Profitto Totale"
                (CFloat (total_profit f)) (CFloat (profit_margin f))) ;;
   emit (Metric "Clienti Medi Giornalieri"
                (CFloat (avg_customers f)) (CStr "per giorno")) ;;
   emit (Metric "Prodotti Venduti"
                (CInt (Z.of_nat (unique_products f)))
                (CInt (Z.of_nat (length f)))))%app.

Definition sums3 : list (string * string) :=
  [("sales", "sum"); ("profit", "sum"); ("customers", "sum")].

(** One [groupby(...).agg(...).reset_index()] (with [nlargest] between
    where the script has it), bound to a variable, and its chart. *)
Definition derive_chart (title : string) (fdf : nat)
  (derive : DataFrame -> Table) : App nat :=
  (f <- frame fdf ;;
   t <- new (OTable (derive f)) ;;
   emit (Chart title (derive f)) ;;
   ret t)%app.

(** The same with [px.scatter(..., size='sales')] for the chart, which
    raises before anything is shown where a size is not valid. *)
Definition scatter_chart (title : string) (fdf : nat)
  (derive : DataFrame -> Table) : App nat :=
  (f <- frame fdf ;;
   t <- new (OTable (derive f)) ;;
   (if sizes_valid f then ret tt else raise ValueError) ;;
   emit (Chart title (derive f)) ;;
   ret t)%app.

(** Lines 152-249. *)
Definition charts (fdf : nat) : App unit :=
  (derive_chart "Vendite per Data" fdf (groupby_agg ["date"] sums3) ;;
   derive_chart "Distribuzione per Categoria" fdf
     (groupby_agg ["category"] [("sales", "sum")]) ;;
   derive_chart "Vendite per Regione" fdf (groupby_agg ["region"] sums3) ;;
   derive_chart "Top 10 Prodotti per Vendite" fdf
     (fun f => nlargest 10 "sales"
                 (groupby_agg ["product"]
                              [("sales", "sum"); ("profit", "sum")] f)) ;;
   scatter_chart "Margine vs Vendite per Prodotto" fdf
     (groupby_agg ["product"] [("sales", "sum"); ("margin", "mean")]) ;;
   ret tt)%app.

(** Lines 255-276. *)
Definition data_table (ui : Sidebar) (fdf : nat) : App unit :=
  (f <- frame fdf ;;
   if String.eqb (view_option ui) "Sintesi" then
     let summary := groupby_agg ["date"; "category"; "region"]
                                (sums3 ++ [("margin", "mean")]) f in
     summary_df <- new (OTable summary) ;;
     sorted <- new (OTable (sort_values "date" false summary)) ;;
     emit (Dataframe (sort_values "date" false summary))
   else
     sorted <- new (OTable (sort_values "date" false (table_of f))) ;;
     emit (Dataframe (sort_values "date" false (table_of f))))%app.

(** Lines 282-289. *)
Definition export (ui : Sidebar) (fdf : nat) : App unit :=
  if button ui then
    (f <- frame fdf ;;
     let csv := to_csv false f in
     emit (Download "Download CSV" csv (file_name (now ui)) "text/csv"))%app
  else ret tt.

(** [t.strftime(fmt)]; NaT does not support it. *)
Definition strftime_of (fmt : string) (t : option Timestamp) : App string :=
  match t with
  | Some ts => ret (strftime fmt ts)
  | None => raise ValueError
  end.

(** Lines 293-305; [max_date] is [df['date'].max()] of line 75. *)
Definition info (df fdf : nat) : App unit :=
  (d <- frame df ;;
   f <- frame fdf ;;
   updated <- strftime_of "%d/%m/%Y" (series_max (column date d)) ;;
   first_day <- strftime_of "%d/%m" (series_min (column date f)) ;;
   last_day <- strftime_of "%d/%m" (series_max (column date f)) ;;
   emit (Info updated (length f) first_day last_day))%app.

(** The script from the filter on, given the variable [df]. *)
Definition render (df : nat) (ui : Sidebar) : App nat :=
  (fdf <- apply_filters df ui ;;
   kpi_cards df fdf ;;
   charts fdf ;;
   data_table ui fdf ;;
   export ui fdf ;;
   info df fdf ;;
   ret fdf)%app.

(** One run of the script. *)
Definition dashboard (ui : Sidebar) : App nat :=
  (d <- load_data read_csv parse_datetime ;;
   df <- new (OFrame d) ;;
   render df ui)%app.

End Script.

(* ================================================================= *)
(** ** Reading the export back *)

(** The states of [csv.reader] with the default dialect: at the start of
    a record, at the start of a field, inside an unquoted field, inside a
    quoted field, and after a quote character inside a quoted field.  The
    reader is given the text as the [csv] module asks, with its line
    breaks untranslated, so it sees every character. *)
Inductive ReaderState : Type :=
| StartRecord
| StartField
| InField
| InQuoted
| QuoteInQuoted.

Definition snoc (s : string) (c : ascii) : string :=
  (s ++ String c EmptyString)%string.

(** Outside quotes a line feed and a carriage return both end the record. *)
Definition is_break (c : ascii) : bool :=
  Ascii.eqb c newline || Ascii.eqb c cr.

(** The text after the line break [c]: a carriage return takes a line feed
    that follows it along. *)
Definition after_break (c : ascii) (rest : string) : string :=
  if Ascii.eqb c cr then
    match rest with
    | String c' rest' => if Ascii.eqb c' newline then rest' else rest
    | EmptyString => rest
    end
  else rest.

(** One record read off the front of [s]: its fields and the text after
    its line break.  An empty line is a record of no fields.  The dialect
    is not strict: a character after a closing quote goes on with the
    field, and the end of the text ends the record. *)
Fixpoint read_record (s : string) (st : ReaderState) (field : string)
  (fields : list string) : list string * string :=
  match s with
  | EmptyString =>
      match st with
      | StartRecord => (fields, EmptyString)
      | _ => (fields ++ [field], EmptyString)
      end
  | String c rest =>
      match st with
      | StartRecord =>
          if is_break c then (fields, after_break c rest)
          else if Ascii.eqb c dquote then read_record rest InQuoted field fields
          else if Ascii.eqb c comma
          then read_record rest StartField "" (fields ++ [field])
          else read_record rest InField (snoc field c) fields
      | StartField =>
          if is_break c then (fields ++ [field], after_break c rest)
          else if Ascii.eqb c dquote then read_record rest InQuoted field fields
          else if Ascii.eqb c comma
          then read_record rest StartField "" (fields ++ [field])
          else read_record rest InField (snoc field c) fields
      | InField =>
          if is_break c then (fields ++ [field], after_break c rest)
          else if Ascii.eqb c comma
          then read_record rest StartField "" (fields ++ [field])
          else read_record rest InField (snoc field c) fields
      | InQuoted =>
          if Ascii.eqb c dquote then read_record rest QuoteInQuoted field fields
          else read_record rest InQuoted (snoc field c) fields
      | QuoteInQuoted =>
          if Ascii.eqb c dquote
          then read_record rest InQuoted (snoc field c) fields
          else if Ascii.eqb c comma
          then read_record rest StartField "" (fields ++ [field])
          else if is_break c then (fields ++ [field], after_break c rest)
          else read_record rest InField (snoc field c) fields
      end
  end.

(** The records of a text, one after the other to its end; [fuel] bounds
    their number. *)
Fixpoint read_records (fuel : nat) (s : string)
  : option (list (list string)) :=
  match s with
  | EmptyString => Some []
  | String _ _ =>
      match fuel with
      | O => None
      | S fuel' =>
          let (fields, rest) := read_record s StartRecord "" [] in
          match read_records fuel' rest with
          | Some l => Some (fields :: l)
          | None => None
          end
      end
  end.

(** [list(csv.reader(...))] of a text; it has no more records than
    characters. *)
Definition read_text (s : string) : option (list (list string)) :=
  read_records (String.length s) s.

(** A field with a carriage return that the writer leaves unquoted. *)
Definition bare_cr (s : string) : bool :=
  contains_char cr s && negb (needs_quotes s).

(* ================================================================= *)
(** ** Reading a numeral back *)

(** The value of a string of decimal digits read after the value [acc];
    [None] where a character is no digit. *)
Fixpoint value_of_digits (s : string) (acc : Z) : option Z :=
  match s with
  | EmptyString => Some acc
  | String c s' =>
      let n := Z.of_nat (nat_of_ascii c) in
      if (48 <=? n) && (n <=? 57)
      then value_of_digits s' (acc * 10 + (n - 48))
      else None
  end.

(** Python's [int(s)] of a decimal numeral with an optional minus sign. *)
Definition int_of_str (s : string) : option Z :=
  match s with
  | EmptyString => None
  | String c s' =>
      if Ascii.eqb c (ascii_of_nat 45) then
        match s' with
        | EmptyString => None
        | String _ _ => option_map Z.opp (value_of_digits s' 0)
        end
      else value_of_digits s 0
  end.

(* ================================================================= *)
(** * Properties *)

(** ** Frames and the margin column *)

Lemma pair_eq_fst {A B} (a a' : A) (b b' : B) : (a, b) = (a', b') -> a = a'.
Proof. intros H. exact (f_equal fst H). Qed.

Lemma pair_eq_snd {A B} (a a' : A) (b b' : B) : (a, b) = (a', b') -> b = b'.
Proof. intros H. exact (f_equal snd H). Qed.

Lemma Return_inj {A} (a a' : A) : Return a = Return a' -> a = a'.
Proof. intros H. now inversion H. Qed.

(** The result of a run that returned [a]. *)
Ltac returned H :=
  let H' := fresh H in
  pose proof (pair_eq_snd _ _ _ _ H) as H';
  apply pair_eq_fst in H; apply Return_inj in H.

Lemma records_assign_margin (df : Frame (Sale Timestamp)) :
  records (assign_margin df) = map add_margin (records df).
Proof.
  unfold records, assign_margin. rewrite !map_map. reflexivity.
Qed.

Lemma index_assign_margin (df : Frame (Sale Timestamp)) :
  index (assign_margin df) = index df.
Proof.
  unfold index, assign_margin. rewrite map_map. reflexivity.
Qed.

Lemma records_range_index {R} (data : list R) :
  records (range_index data) = data.
Proof.
  unfold records, range_index.
  assert (H : forall (l : list R) (n : nat),
             map snd (combine (seq n (length l)) l) = l).
  { induction l as [|x l IH]; intros n; simpl; [reflexivity|].
    now rewrite IH. }
  apply H.
Qed.

Lemma index_range_index {R} (data : list R) :
  index (range_index data) = seq 0 (length data).
Proof.
  unfold index, range_index.
  assert (H : forall (l : list R) (n : nat),
             map fst (combine (seq n (length l)) l) = seq n (length l)).
  { induction l as [|x l IH]; intros n; simpl; [reflexivity|].
    now rewrite IH. }
  apply H.
Qed.

Definition margin_ok (r : Row) : Prop :=
  margin r = round2 (profit (sale r) / of_Z (sales (sale r)) * 100)%float.

Lemma assign_margin_ok (df : Frame (Sale Timestamp)) :
  Forall margin_ok (records (assign_margin df)).
Proof.
  rewrite records_assign_margin.
  induction (records df) as [|s l IH]; simpl; constructor; auto.
  reflexivity.
Qed.

(** ** The three outcomes of [load_data] *)

Definition warning_msg : string :=
  "File data.csv non trovato. Genero dati di esempio...".

Lemma load_data_missing parse (w : World) :
  load_data (Raise FileNotFoundError) parse w =
  (Return (fst (create_sample_data (rng w))),
   mkWorld (snd (create_sample_data (rng w)))
           (page w ++ [Warning warning_msg]) (heap w)).
Proof.
  cbv beta iota delta [load_data try_except load_from_file bind lift_result
    st_warning emit lift_rand is_FileNotFoundError rng page heap].
  destruct w as [g p h].
  destruct (create_sample_data g) as [d g']. reflexivity.
Qed.

Lemma load_data_propagates parse (e : exn) (w : World) :
  e <> FileNotFoundError ->
  load_data (Raise e) parse w = (Raise e, w).
Proof.
  intros He.
  cbv beta iota delta [load_data try_except load_from_file bind lift_result].
  destruct e; try congruence; reflexivity.
Qed.

Lemma to_datetime_column_raises parse l e :
  to_datetime_column parse l = Raise e -> e = ValueError.
Proof.
  revert e. induction l as [|[i s] l IH]; intros e; simpl.
  - discriminate.
  - destruct (parse (date s)); [|intros H; now inversion H].
    destruct (to_datetime_column parse l) eqn:E; [discriminate|].
    intros H; inversion H; subst. now apply IH.
Qed.

Lemma load_data_read parse rows (w : World) :
  load_data (Return rows) parse w =
  (match to_datetime_column parse (range_index rows) with
   | Return d => Return (assign_margin d)
   | Raise e => Raise e
   end, w).
Proof.
  cbv beta iota zeta delta [load_data try_except load_from_file bind
    lift_result ret].
  destruct (to_datetime_column parse (range_index rows)) eqn:E.
  - reflexivity.
  - apply to_datetime_column_raises in E. subst. reflexivity.
Qed.

Lemma create_sample_data_fst (g : RandomState) :
  fst (create_sample_data g)
  = assign_margin (range_index (fst (sample_records g))).
Proof.
  cbv beta iota delta [create_sample_data rbind rret].
  destruct (sample_records g). reflexivity.
Qed.

(** Both paths of [load_data] end in the same assignment of [margin]. *)
Lemma margin_column_round2 read_csv parse (w w' : World) (df : DataFrame) :
  load_data read_csv parse w = (Return df, w') ->
  Forall margin_ok (records df).
Proof.
  intros H.
  destruct read_csv as [rows|e].
  - rewrite load_data_read in H.
    destruct (to_datetime_column parse (range_index rows));
      [|discriminate].
    returned H. subst df. apply assign_margin_ok.
  - destruct (is_FileNotFoundError e) eqn:Ee.
    + destruct e; try discriminate Ee.
      rewrite load_data_missing in H. returned H. subst df.
      rewrite create_sample_data_fst. apply assign_margin_ok.
    + rewrite load_data_propagates in H by (intros ->; discriminate).
      discriminate.
Qed.

(** ** Loops over the generator *)

Lemma for_each_cons {A B} (x : A) (t : list A) (body : A -> Rand (list B))
  (g : RandomState) :
  fst (for_each (x :: t) body g)
  = fst (body x g) ++ fst (for_each t body (snd (body x g))).
Proof.
  simpl. unfold rbind, rret.
  destruct (body x g) as [ys g1]. simpl.
  destruct (for_each t body g1) as [zs g2]. reflexivity.
Qed.

Lemma for_each_Forall {A B} (P : B -> Prop) (l : list A)
  (body : A -> Rand (list B)) :
  (forall x g, In x l -> Forall P (fst (body x g))) ->
  forall g, Forall P (fst (for_each l body g)).
Proof.
  induction l as [|x t IH]; intros Hbody g.
  - constructor.
  - rewrite for_each_cons. apply Forall_app. split.
    + apply Hbody. now left.
    + apply IH. intros y g' Hy. apply Hbody. now right.
Qed.

Lemma for_each_map {A B K} (key : B -> K) (ks : A -> list K) (l : list A)
  (body : A -> Rand (list B)) :
  (forall x g, In x l -> map key (fst (body x g)) = ks x) ->
  forall g, map key (fst (for_each l body g)) = flat_map ks l.
Proof.
  induction l as [|x t IH]; intros Hbody g.
  - reflexivity.
  - rewrite for_each_cons, map_app. simpl. f_equal.
    + apply Hbody. now left.
    + apply IH. intros y g' Hy. apply Hbody. now right.
Qed.

Lemma flat_map_single {A B} (f : A -> B) (l : list A) :
  flat_map (fun x => [f x]) l = map f l.
Proof. induction l; simpl; congruence. Qed.

(** ** One generated record *)

Lemma randint_range (low high : Z) (g : RandomState) :
  low < high -> low <= fst (randint low high g) < high.
Proof.
  intros H. unfold randint, rbind, rret, next_raw. simpl.
  pose proof (Z.mod_pos_bound (g O) (high - low)). lia.
Qed.

Lemma choice_regions_In (g : RandomState) :
  In (fst (choice Sample.regions g)) Sample.regions.
Proof.
  unfold choice, randint, rbind, rret, next_raw. simpl.
  pose proof (Z.mod_pos_bound (g O) 3 eq_refl) as H.
  assert (g O mod 3 = 0 \/ g O mod 3 = 1 \/ g O mod 3 = 2) as [E|[E|E]]
    by lia; rewrite E; simpl; auto.
Qed.

(** The factor [np.random.uniform(0.25, 0.35)] returns for the 53-bit
    integer [k] of the generator. *)
Definition factor_of (k : Z) : float :=
  (0.25 + (0.35 - 0.25) * (of_Z k / 0x1p53))%float.

(** What the four draws of one iteration were. *)
Record Draws : Type := mkDraws {
  drawn_sales : Z;
  drawn_k : Z;
  drawn_divisor : Z;
  drawn_region : string
}.

Definition draws_ok (d : Draws) : Prop :=
  1000 <= drawn_sales d < 20000
  /\ 0 <= drawn_k d < 2 ^ 53
  /\ 40 <= drawn_divisor d < 60
  /\ In (drawn_region d) Sample.regions.

Definition sale_of_draws (date : Timestamp) (category product : string)
  (d : Draws) : Sale Timestamp :=
  mkSale date category product (drawn_sales d)
    (of_Z (drawn_sales d) * factor_of (drawn_k d))%float
    (int (of_Z (drawn_sales d) / of_Z (drawn_divisor d))%float)
    (drawn_region d).

Lemma sample_sale_draws (date : Timestamp) (category product : string)
  (g : RandomState) :
  exists d, draws_ok d
            /\ fst (sample_sale date category product g)
               = sale_of_draws date category product d.
Proof.
  exists (mkDraws (fst (randint 1000 20000 g))
                  (g 1%nat mod 2 ^ 53)
                  (fst (randint 40 60 (fun n => g (S (S n)))))
                  (fst (choice Sample.regions (fun n => g (S (S (S n))))))).
  split.
  - unfold draws_ok. cbn [drawn_sales drawn_k drawn_divisor drawn_region].
    repeat split;
      try (apply randint_range; lia);
      try (apply Z.mod_pos_bound; lia).
    apply choice_regions_In.
  - reflexivity.
Qed.

Definition key3 (s : Sale Timestamp) : Timestamp * string * string :=
  (date s, category s, product s).

Lemma sample_sale_key (date : Timestamp) (category product : string)
  (g : RandomState) :
  key3 (fst (sample_sale date category product g))
  = (date, category, product).
Proof. reflexivity. Qed.

(** The date, category and product of every generated record, in order:
    they do not depend on the generator. *)
Definition grid : list (Timestamp * string * string) :=
  flat_map (fun date =>
    flat_map (fun category =>
      map (fun product => (date, category, product)) (products_of category))
      Sample.categories)
    Sample.date_range.

Lemma sample_records_keys (g : RandomState) :
  map key3 (fst (sample_records g)) = grid.
Proof.
  unfold sample_records, grid.
  apply for_each_map. intros date g1 _.
  apply for_each_map. intros category g2 _.
  rewrite <- (flat_map_single (fun product => (date, category, product))).
  apply for_each_map. intros product g3 _.
  unfold rbind, rret.
  destruct (sample_sale date category product g3) eqn:E. simpl.
  change s with (fst (s, r)). rewrite <- E. now rewrite sample_sale_key.
Qed.

Definition sample_ok (s : Sale Timestamp) : Prop :=
  In (date s) Sample.date_range
  /\ In (category s) Sample.categories
  /\ In (product s) (products_of (category s))
  /\ exists d, draws_ok d
               /\ s = sale_of_draws (date s) (category s) (product s) d.

Lemma sample_records_ok (g : RandomState) :
  Forall sample_ok (fst (sample_records g)).
Proof.
  unfold sample_records.
  apply for_each_Forall. intros t g1 Hdate.
  apply for_each_Forall. intros c g2 Hcat.
  apply for_each_Forall. intros p g3 Hprod.
  unfold rbind, rret.
  destruct (sample_sale t c p g3) as [s g4] eqn:E.
  cbn [fst]. constructor; [|constructor].
  destruct (sample_sale_draws t c p g3) as [d [Hd Hs]].
  rewrite E in Hs. cbn [fst] in Hs. subst s.
  unfold sample_ok. cbn [sale_of_draws date category product].
  repeat split; auto. exists d. split; auto.
Qed.

Lemma column_sample {A} (f : Sale Timestamp -> A) (g : RandomState) :
  column f (fst (create_sample_data g)) = map f (fst (sample_records g)).
Proof.
  unfold column. rewrite create_sample_data_fst, records_assign_margin,
    records_range_index, map_map. reflexivity.
Qed.

Lemma length_records {R} (df : Frame R) : length (records df) = length df.
Proof. apply length_map. Qed.

Lemma sample_length (g : RandomState) :
  length (fst (create_sample_data g)) = 403%nat.
Proof.
  rewrite <- length_records, create_sample_data_fst, records_assign_margin,
    records_range_index, length_map.
  rewrite <- (length_map key3), sample_records_keys.
  vm_compute. reflexivity.
Qed.

(** C4. With [data.csv] missing, [load_data] returns a non-empty generated
    frame: 403 rows over every day from 2024-01-01 to 2024-01-31 (31 days),
    each category one of the three fixed ones (all three occur), each
    product from the list of its category, each region one of the three
    fixed ones. *)
Theorem load_data_missing_file_sample parse (w : World) :
  exists df w',
    load_data (Raise FileNotFoundError) parse w = (Return df, w')
    /\ df <> []
    /\ length df = 403%nat
    /\ Sample.date_range
       = map (fun d => to_datetime (days_from_civil 2024 1 (Z.of_nat d)))
             (seq 1 31)
    /\ column date df = flat_map (fun t => repeat t 13) Sample.date_range
    /\ series_min (column date df)
       = Some (to_datetime (days_from_civil 2024 1 1))
    /\ series_max (column date df)
       = Some (to_datetime (days_from_civil 2024 1 31))
    /\ length Sample.categories = 3%nat
    /\ unique (column category df) = Sample.categories
    /\ length Sample.regions = 3%nat
    /\ Forall (fun r =>
                 In (category (sale r)) Sample.categories
                 /\ In (product (sale r)) (products_of (category (sale r)))
                 /\ In (region (sale r)) Sample.regions)
              (records df).
Proof.
  rewrite load_data_missing. eexists. eexists. split; [reflexivity|].
  assert (Hdate : column date (fst (create_sample_data (rng w)))
                  = flat_map (fun t => repeat t 13) Sample.date_range).
  { rewrite column_sample.
    rewrite <- (map_map key3 (fun k => fst (fst k))), sample_records_keys.
    vm_compute. reflexivity. }
  assert (Hlen := sample_length (rng w)).
  split; [intros E; rewrite E in Hlen; discriminate|].
  split; [exact Hlen|].
  split; [vm_compute; reflexivity|].
  split; [exact Hdate|].
  rewrite Hdate.
  split; [vm_compute; reflexivity|].
  split; [vm_compute; reflexivity|].
  split; [reflexivity|].
  split.
  { rewrite column_sample.
    rewrite <- (map_map key3 (fun k => snd (fst k))), sample_records_keys.
    vm_compute. reflexivity. }
  split; [reflexivity|].
  rewrite create_sample_data_fst, records_assign_margin, records_range_index.
  apply Forall_map.
  eapply Forall_impl; [|apply sample_records_ok].
  intros s (_ & Hc & Hp & d & (_ & _ & _ & Hr) & Hs).
  cbn [add_margin sale]. repeat split; auto.
  rewrite Hs. exact Hr.
Qed.

(** ** The one handled failure *)

(** C5. [load_data] handles exactly one failure.  If reading the file
    raises [FileNotFoundError], it warns and returns the generated sample.
    Any other exception of the read propagates unchanged; a file that was
    read is never replaced, and a date that cannot be parsed propagates as
    the [ValueError] of [pd.to_datetime]; in both cases nothing is put on
    the page and no sample is drawn.  So the warning and the sample appear
    if and only if the read raised [FileNotFoundError]. *)
Theorem load_data_handles_only_missing_file parse (w : World) :
  load_data (Raise FileNotFoundError) parse w
  = (Return (fst (create_sample_data (rng w))),
     mkWorld (snd (create_sample_data (rng w)))
             (page w ++ [Warning warning_msg]) (heap w))
  /\ (forall e, e <> FileNotFoundError ->
        load_data (Raise e) parse w = (Raise e, w))
  /\ (forall rows,
        load_data (Return rows) parse w
        = (match to_datetime_column parse (range_index rows) with
           | Return d => Return (assign_margin d)
           | Raise e => Raise e
           end, w)
        /\ forall e, to_datetime_column parse (range_index rows) = Raise e ->
                     e = ValueError /\ e <> FileNotFoundError)
  /\ (forall read_csv,
        page (snd (load_data read_csv parse w))
        = page w ++ [Warning warning_msg]
        <-> read_csv = Raise FileNotFoundError).
Proof.
  split; [apply load_data_missing|].
  split; [intros e He; now apply load_data_propagates|].
  split.
  - intros rows. split; [apply load_data_read|].
    intros e He. apply to_datetime_column_raises in He. subst.
    split; [reflexivity|discriminate].
  - intros read_csv. split.
    + intros Hpage.
      assert (Hne : page w ++ [Warning warning_msg] <> page w).
      { intros E. apply (f_equal (@length UiEvent)) in E.
        rewrite length_app in E. simpl in E. lia. }
      destruct read_csv as [rows|e].
      * rewrite load_data_read in Hpage. cbn [snd] in Hpage.
        symmetry in Hpage. contradiction.
      * destruct (is_FileNotFoundError e) eqn:Ee.
        -- destruct e; try discriminate Ee. reflexivity.
        -- rewrite load_data_propagates in Hpage
             by (intros ->; discriminate).
           cbn [snd] in Hpage. symmetry in Hpage. contradiction.
    + intros ->. rewrite load_data_missing. reflexivity.
Qed.

(** ** The filter *)

(** [l1] is [l2] with some elements left out, the order kept. *)
Inductive Subseq {A : Type} : list A -> list A -> Prop :=
| Subseq_nil : Subseq [] []
| Subseq_skip (x : A) (l1 l2 : list A) : Subseq l1 l2 -> Subseq l1 (x :: l2)
| Subseq_keep (x : A) (l1 l2 : list A) :
    Subseq l1 l2 -> Subseq (x :: l1) (x :: l2).

Lemma Subseq_refl {A} (l : list A) : Subseq l l.
Proof. induction l; [apply Subseq_nil | now apply Subseq_keep]. Qed.

Lemma Subseq_filter {A} (p : A -> bool) (l : list A) : Subseq (filter p l) l.
Proof.
  induction l as [|x l IH]; simpl; [apply Subseq_nil|].
  destruct (p x); [now apply Subseq_keep | now apply Subseq_skip].
Qed.

Lemma Subseq_In {A} (l1 l2 : list A) (x : A) :
  Subseq l1 l2 -> In x l1 -> In x l2.
Proof.
  induction 1; simpl; intros Hin; auto.
  destruct Hin; auto.
Qed.

Lemma isin_In (x : string) (values : list string) :
  isin x values = true <-> In x values.
Proof.
  unfold isin. rewrite existsb_exists. split.
  - intros [y [Hy E]]. apply String.eqb_eq in E. now subst.
  - intros H. exists x. split; auto. apply String.eqb_refl.
Qed.

(** The predicate the three filter widgets select. *)
Definition selected (d0 d1 : Z) (cats regs : list string) (r : Row) : Prop :=
  to_datetime d0 <= date (sale r) <= to_datetime d1
  /\ In (category (sale r)) cats
  /\ In (region (sale r)) regs.

Lemma mask_selected d0 d1 cats regs r :
  mask d0 d1 cats regs r = true <-> selected d0 d1 cats regs r.
Proof.
  unfold mask, selected.
  rewrite !andb_true_iff, !Z.leb_le, !isin_In. tauto.
Qed.

(** C2. The filtered frame is a sub-sequence of the loaded frame (same
    rows, same labels, same order) whatever the widgets return, and once a
    date range is selected every record of it lies in the range and has a
    selected category and a selected region. *)
Theorem filtered_df_subset_satisfying_selection (df : DataFrame) :
  (forall ui, Subseq (filtered_df df ui) df)
  /\ (forall d0 d1 cats regs view clicked t,
        let ui := mkSidebar [d0; d1] cats regs view clicked t in
        Forall (selected d0 d1 cats regs) (records (filtered_df df ui))
        /\ forall ir, In ir df -> selected d0 d1 cats regs (snd ir) ->
                      In ir (filtered_df df ui)).
Proof.
  split.
  - intros ui. unfold filtered_df.
    destruct (date_range ui) as [|d0 [|d1 [|d2 l]]];
      try apply Subseq_refl.
    apply Subseq_filter.
  - intros d0 d1 cats regs view clicked t ui.
    unfold filtered_df, getitem_mask, records. simpl. split.
    + apply Forall_map. apply Forall_forall. intros ir Hin.
      apply filter_In in Hin. now apply mask_selected.
    + intros ir Hin Hsel. apply filter_In. split; auto.
      now apply mask_selected.
Qed.

(** C8. While the date control holds fewer than two dates, the filtered
    frame is the whole loaded frame: the category and region selections
    are ignored, so every row outside them is still in the view. *)
Theorem incomplete_date_range_ignores_filters (df : DataFrame) (ui : Sidebar) :
  (length (date_range ui) < 2)%nat ->
  filtered_df df ui = df
  /\ forall r, In r (records df) ->
               ~ (In (category (sale r)) (selected_categories ui)
                  /\ In (region (sale r)) (selected_regions ui)) ->
               In r (records (filtered_df df ui)).
Proof.
  intros Hlen.
  assert (E : filtered_df df ui = df).
  { unfold filtered_df.
    destruct (date_range ui) as [|d0 [|d1 [|d2 l]]]; try reflexivity.
    simpl in Hlen. lia. }
  rewrite E. auto.
Qed.

(** ** The heap only grows *)

(** [w'] has every object of [w], unchanged, and possibly new ones. *)
Definition heap_extends (w w' : World) : Prop :=
  exists fresh, heap w' = heap w ++ fresh.

(** A computation that changes no object: it may only allocate. *)
Definition allocates_only {A} (m : App A) : Prop :=
  forall w, heap_extends w (snd (m w)).

Lemma heap_extends_refl w : heap_extends w w.
Proof. exists []. now rewrite app_nil_r. Qed.

Lemma heap_extends_trans w1 w2 w3 :
  heap_extends w1 w2 -> heap_extends w2 w3 -> heap_extends w1 w3.
Proof.
  intros [f1 E1] [f2 E2]. exists (f1 ++ f2).
  now rewrite E2, E1, app_assoc.
Qed.

Lemma heap_extends_lookup w w' (l : nat) (o : Obj) :
  heap_extends w w' ->
  nth_error (heap w) l = Some o -> nth_error (heap w') l = Some o.
Proof.
  intros [f E] H. rewrite E, nth_error_app1; auto.
  apply nth_error_Some. congruence.
Qed.

Lemma allocates_only_ret {A} (a : A) : allocates_only (ret a).
Proof. intros w. apply heap_extends_refl. Qed.

Lemma allocates_only_raise {A} (e : exn) : allocates_only (@raise A e).
Proof. intros w. apply heap_extends_refl. Qed.

Lemma allocates_only_bind {A B} (m : App A) (k : A -> App B) :
  allocates_only m -> (forall a, allocates_only (k a)) ->
  allocates_only (bind m k).
Proof.
  intros Hm Hk w. unfold bind. specialize (Hm w).
  destruct (m w) as [[a|e] w1]; cbn [snd] in *; auto.
  eapply heap_extends_trans; [exact Hm|]. apply Hk.
Qed.

Lemma allocates_only_emit (e : UiEvent) : allocates_only (emit e).
Proof. intros w. exists []. simpl. now rewrite app_nil_r. Qed.

Lemma allocates_only_new (o : Obj) : allocates_only (new o).
Proof. intros w. exists [o]. reflexivity. Qed.

Lemma allocates_only_deref (l : nat) : allocates_only (deref l).
Proof. intros w. apply heap_extends_refl. Qed.

Lemma allocates_only_frame (l : nat) : allocates_only (frame l).
Proof.
  apply allocates_only_bind; [apply allocates_only_deref|].
  intros [|df|t];
    [apply allocates_only_raise | apply allocates_only_ret
     | apply allocates_only_raise].
Qed.

Lemma allocates_only_copy (l : nat) : allocates_only (copy l).
Proof.
  apply allocates_only_bind; [apply allocates_only_frame|].
  intros df. apply allocates_only_new.
Qed.

Lemma allocates_only_strftime_of strftime fmt t :
  allocates_only (strftime_of strftime fmt t).
Proof.
  destruct t; [apply allocates_only_ret | apply allocates_only_raise].
Qed.

Create HintDb heap discriminated.
#[local] Hint Resolve allocates_only_ret allocates_only_raise
  allocates_only_emit allocates_only_new allocates_only_deref
  allocates_only_frame allocates_only_copy allocates_only_strftime_of : heap.

(** Every step binds the result of one that only allocates. *)
Ltac allocation :=
  repeat first
    [ apply allocates_only_bind; [|intros]
    | solve [auto with heap]
    | match goal with
      | |- allocates_only (match ?x with _ => _ end) => destruct x
      | |- allocates_only (if ?b then _ else _) => destruct b
      end ].

Lemma allocates_only_apply_filters (df : nat) (ui : Sidebar) :
  allocates_only (apply_filters df ui).
Proof. unfold apply_filters. allocation. Qed.

Lemma allocates_only_kpi_cards (df fdf : nat) :
  allocates_only (kpi_cards df fdf).
Proof. unfold kpi_cards. allocation. Qed.

Lemma allocates_only_derive_chart title fdf derive :
  allocates_only (derive_chart title fdf derive).
Proof. unfold derive_chart. allocation. Qed.

#[local] Hint Resolve allocates_only_apply_filters allocates_only_kpi_cards
  allocates_only_derive_chart : heap.

Lemma allocates_only_charts groupby_agg nlargest (fdf : nat) :
  allocates_only (charts groupby_agg nlargest fdf).
Proof. unfold charts. allocation. Qed.

Lemma allocates_only_data_table groupby_agg sort_values ui (fdf : nat) :
  allocates_only (data_table groupby_agg sort_values ui fdf).
Proof. unfold data_table. allocation. Qed.

Lemma allocates_only_export format_float format_datetime ui (fdf : nat) :
  allocates_only (export format_float format_datetime ui fdf).
Proof. unfold export. allocation. Qed.

Lemma allocates_only_info strftime (df fdf : nat) :
  allocates_only (info strftime df fdf).
Proof. unfold info. allocation. Qed.

#[local] Hint Resolve allocates_only_charts allocates_only_data_table
  allocates_only_export allocates_only_info : heap.

(** The steps of [render] after the filter. *)
Definition after_filter format_float format_datetime strftime groupby_agg
  nlargest sort_values (df : nat) (ui : Sidebar) (fdf : nat) : App nat :=
  (kpi_cards df fdf ;;
   charts groupby_agg nlargest fdf ;;
   data_table groupby_agg sort_values ui fdf ;;
   export format_float format_datetime ui fdf ;;
   info strftime df fdf ;;
   ret fdf)%app.

Lemma allocates_only_after_filter ff fd sf ga nl sv df ui fdf :
  allocates_only (after_filter ff fd sf ga nl sv df ui fdf).
Proof. unfold after_filter. allocation. Qed.

Lemma bind_returns {A B} (m : App A) (k : A -> App B) w b w' :
  bind m k w = (Return b, w') ->
  exists a w1, m w = (Return a, w1) /\ k a w1 = (Return b, w').
Proof.
  unfold bind. destruct (m w) as [[a|e] w1]; [|discriminate].
  intros H. now exists a, w1.
Qed.

Lemma after_filter_returns ff fd sf ga nl sv df ui fdf w r w' :
  after_filter ff fd sf ga nl sv df ui fdf w = (Return r, w') -> r = fdf.
Proof.
  unfold after_filter. intros H.
  repeat (apply bind_returns in H; destruct H as (? & ? & _ & H)).
  unfold ret in H. congruence.
Qed.

(** What the filter step does to the heap: one new object for [df[mask]]
    and one for its copy when the range is complete, one copy of [df]
    otherwise; [filtered_df] is the last one. *)
Lemma apply_filters_spec (df : nat) (ui : Sidebar) (w : World) (d : DataFrame) :
  nth_error (heap w) df = Some (OFrame d) ->
  exists fresh,
    apply_filters df ui w
    = (Return (length (heap w ++ fresh)),
       mkWorld (rng w) (page w)
               ((heap w ++ fresh) ++ [OFrame (filtered_df d ui)])).
Proof.
  intros Hdf.
  assert (Hnth : nth df (heap w) ONone = OFrame d)
    by (now apply nth_error_nth).
  unfold apply_filters, filtered_df.
  destruct (date_range ui) as [|d0 [|d1 [|d2 l]]].
  1,2,4: exists []; rewrite app_nil_r;
    unfold copy, frame, bind, deref, new, ret; cbn [heap rng page];
    rewrite Hnth; reflexivity.
  eexists [_].
  unfold copy, frame, bind, deref, new, ret. cbn [heap rng page].
  rewrite Hnth. cbn [heap rng page].
  rewrite app_nth2 by lia. rewrite Nat.sub_diag. cbn [nth].
  reflexivity.
Qed.

(** C6. Nothing after the load changes the loaded frame.  Whatever the
    widgets return, and whether the run ends normally or in an exception,
    the object [df] refers to is the same frame after the filter, the KPIs,
    the charts, the table and the export as before; [filtered_df] refers
    to another, new object, which holds the filtered rows. *)
Theorem loaded_frame_unchanged format_float format_datetime strftime
  groupby_agg nlargest sort_values
  (df : nat) (ui : Sidebar) (w : World) (d : DataFrame) :
  nth_error (heap w) df = Some (OFrame d) ->
  let run := render format_float format_datetime strftime groupby_agg
               nlargest sort_values df ui w in
  nth_error (heap (snd run)) df = Some (OFrame d)
  /\ forall fdf, fst run = Return fdf ->
       fdf <> df
       /\ (length (heap w) <= fdf)%nat
       /\ nth_error (heap (snd run)) fdf = Some (OFrame (filtered_df d ui)).
Proof.
  intros Hdf run.
  assert (Hrun : run = bind (apply_filters df ui)
                         (after_filter format_float format_datetime strftime
                            groupby_agg nlargest sort_values df ui) w)
    by reflexivity.
  destruct (apply_filters_spec df ui w d Hdf) as [fresh Hf].
  unfold bind in Hrun. rewrite Hf in Hrun.
  set (w1 := mkWorld (rng w) (page w)
               ((heap w ++ fresh) ++ [OFrame (filtered_df d ui)])) in *.
  set (fdf0 := length (heap w ++ fresh)) in *.
  pose proof (allocates_only_after_filter format_float format_datetime
                strftime groupby_agg nlargest sort_values df ui fdf0 w1)
    as Hext.
  rewrite <- Hrun in Hext.
  assert (Hlt : (df < length (heap w))%nat)
    by (apply nth_error_Some; congruence).
  assert (H1 : nth_error (heap w1) df = Some (OFrame d)).
  { unfold w1. cbn [heap]. rewrite <- app_assoc.
    rewrite nth_error_app1 by exact Hlt. exact Hdf. }
  assert (H2 : nth_error (heap w1) fdf0 = Some (OFrame (filtered_df d ui))).
  { unfold w1, fdf0. cbn [heap].
    rewrite nth_error_app2 by lia. now rewrite Nat.sub_diag. }
  split.
  - eapply heap_extends_lookup; eauto.
  - intros fdf Hret.
    assert (fdf = fdf0).
    { destruct run as [r w'] eqn:E. cbn [fst] in Hret. subst r.
      symmetry in Hrun. now apply after_filter_returns in Hrun. }
    subst fdf. unfold fdf0 at 1 2. rewrite length_app.
    repeat split; try lia.
    eapply heap_extends_lookup; eauto.
Qed.

(** An assignment through any variable that refers to the loaded frame
    would change it: the copies of lines 107 and 109 are what keep
    [filtered_df] apart from [df]. *)
Lemma setitem_changes_object (l : nat) (f : DataFrame -> DataFrame)
  (w : World) (d : DataFrame) :
  nth_error (heap w) l = Some (OFrame d) ->
  nth_error (heap (snd (setitem l f w))) l = Some (OFrame (f d)).
Proof.
  intros H.
  assert (Hnth : nth l (heap w) ONone = OFrame d) by (now apply nth_error_nth).
  assert (Hlt : (l < length (heap w))%nat)
    by (apply nth_error_Some; congruence).
  unfold setitem, frame, bind, deref, ret. cbn [heap]. rewrite Hnth.
  cbn [snd heap].
  rewrite nth_error_app2; rewrite length_firstn; try lia.
  replace (l - Nat.min l (length (heap w)))%nat with O by lia. reflexivity.
Qed.

(** ** One run of the script, step by step *)

Lemma bind_run {A B} (m : App A) (k : A -> App B) w a w1 :
  m w = (Return a, w1) -> bind m k w = k a w1.
Proof. intros H. unfold bind. now rewrite H. Qed.

Lemma bind_raise {A B} (m : App A) (k : A -> App B) w e w1 :
  m w = (Raise e, w1) -> bind m k w = (Raise e, w1).
Proof. intros H. unfold bind. now rewrite H. Qed.

Lemma frame_run (l : nat) (w : World) (d : DataFrame) :
  nth_error (heap w) l = Some (OFrame d) -> frame l w = (Return d, w).
Proof.
  intros H. unfold frame, bind, deref, ret.
  now rewrite (nth_error_nth _ _ ONone H).
Qed.

Lemma lookup_grown (h fresh : list Obj) (l : nat) (o : Obj) :
  nth_error h l = Some o -> nth_error (h ++ fresh) l = Some o.
Proof.
  intros H. rewrite nth_error_app1; auto. apply nth_error_Some. congruence.
Qed.

Section Run.

Variable format_float : float -> string.
Variable format_datetime : list Timestamp -> Timestamp -> string.
Variable strftime : string -> Timestamp -> string.
Variable groupby_agg :
  list string -> list (string * string) -> DataFrame -> Table.
Variable nlargest : nat -> string -> Table -> Table.
Variable sort_values : string -> bool -> Table -> Table.

(** The loaded frame, the filtered frame, and where they live. *)
Variables (df fdf : nat) (d f : DataFrame) (ui : Sidebar).

Definition kpi_events : list UiEvent :=
  [ Metric "Vendite Totali" (CInt (total_sales f)) (CFloat (delta_sales d f));
    Metric "Profitto Totale" (CFloat (total_profit f))
           (CFloat (profit_margin f));
    Metric "Clienti Medi Giornalieri" (CFloat (avg_customers f))
           (CStr "per giorno");
    Metric "Prodotti Venduti" (CInt (Z.of_nat (unique_products f)))
           (CInt (Z.of_nat (length f))) ].

Definition chart_tables : list Table :=
  [ groupby_agg ["date"] sums3 f;
    groupby_agg ["category"] [("sales", "sum")] f;
    groupby_agg ["region"] sums3 f;
    nlargest 10 "sales"
      (groupby_agg ["product"] [("sales", "sum"); ("profit", "sum")] f);
    groupby_agg ["product"] [("sales", "sum"); ("margin", "mean")] f ].

Definition chart_titles : list string :=
  [ "Vendite per Data"; "Distribuzione per Categoria";
    "Vendite per Regione"; "Top 10 Prodotti per Vendite";
    "Margine vs Vendite per Prodotto" ].

Definition chart_events : list UiEvent :=
  map (fun tt => Chart (fst tt) (snd tt)) (combine chart_titles chart_tables).

Definition summary : Table :=
  groupby_agg ["date"; "category"; "region"]
              (sums3 ++ [("margin", "mean")]) f.

Definition table_objects : list Table :=
  if String.eqb (view_option ui) "Sintesi"
  then [summary; sort_values "date" false summary]
  else [sort_values "date" false (table_of f)].

Definition table_events : list UiEvent :=
  [ Dataframe (sort_values "date" false
                 (if String.eqb (view_option ui) "Sintesi"
                  then summary else table_of f)) ].

Definition export_events : list UiEvent :=
  if button ui
  then [ Download "Download CSV" (to_csv format_float format_datetime false f)
                  (file_name (now ui)) "text/csv" ]
  else [].

(** The panel of lines 293-305, or [None] where a date it formats is NaT. *)
Definition info_event : option UiEvent :=
  match series_max (column date d), series_min (column date f),
        series_max (column date f) with
  | Some m, Some a, Some b =>
      Some (Info (strftime "%d/%m/%Y" m) (length f)
                 (strftime "%d/%m" a) (strftime "%d/%m" b))
  | _, _, _ => None
  end.

Variable w : World.
Hypothesis Hdf : nth_error (heap w) df = Some (OFrame d).
Hypothesis Hfdf : nth_error (heap w) fdf = Some (OFrame f).

Lemma kpi_cards_run :
  kpi_cards df fdf w
  = (Return tt, mkWorld (rng w) (page w ++ kpi_events) (heap w)).
Proof.
  unfold kpi_cards.
  rewrite (bind_run _ _ _ _ _ (frame_run _ _ _ Hdf)).
  rewrite (bind_run _ _ _ _ _ (frame_run _ _ _ Hfdf)).
  unfold bind, emit, kpi_events. cbn [rng page heap].
  rewrite <- !app_assoc. reflexivity.
Qed.

Lemma derive_chart_run title derive g p fresh :
  derive_chart title fdf derive (mkWorld g p (heap w ++ fresh))
  = (Return (length (heap w ++ fresh)),
     mkWorld g (p ++ [Chart title (derive f)])
             (heap w ++ fresh ++ [OTable (derive f)])).
Proof.
  unfold derive_chart.
  rewrite (bind_run _ _ _ _ _
             (frame_run _ (mkWorld g p (heap w ++ fresh)) _
                        (lookup_grown _ fresh _ _ Hfdf))).
  unfold bind, new, emit, ret. cbn [rng page heap].
  now rewrite <- app_assoc.
Qed.

Lemma scatter_chart_run title derive g p fresh :
  scatter_chart title fdf derive (mkWorld g p (heap w ++ fresh))
  = if sizes_valid f
    then (Return (length (heap w ++ fresh)),
          mkWorld g (p ++ [Chart title (derive f)])
                  (heap w ++ fresh ++ [OTable (derive f)]))
    else (Raise ValueError,
          mkWorld g p (heap w ++ fresh ++ [OTable (derive f)])).
Proof.
  unfold scatter_chart.
  rewrite (bind_run _ _ _ _ _
             (frame_run _ (mkWorld g p (heap w ++ fresh)) _
                        (lookup_grown _ fresh _ _ Hfdf))).
  unfold bind, new, emit, ret, raise. cbn [rng page heap].
  destruct (sizes_valid f); now rewrite <- app_assoc.
Qed.

(** The charts that are on the page when the fifth one raises. *)
Definition charts_before_scatter : list UiEvent := firstn 4 chart_events.

Lemma charts_run g p fresh :
  charts groupby_agg nlargest fdf (mkWorld g p (heap w ++ fresh))
  = if sizes_valid f
    then (Return tt,
          mkWorld g (p ++ chart_events)
                  (heap w ++ fresh ++ map OTable chart_tables))
    else (Raise ValueError,
          mkWorld g (p ++ charts_before_scatter)
                  (heap w ++ fresh ++ map OTable chart_tables)).
Proof.
  unfold charts.
  do 4 (erewrite bind_run by apply derive_chart_run).
  unfold bind at 1. rewrite scatter_chart_run.
  unfold ret, charts_before_scatter, chart_events, chart_tables.
  cbn [combine map fst snd firstn].
  destruct (sizes_valid f); rewrite <- !app_assoc; reflexivity.
Qed.

Lemma data_table_run g p fresh :
  data_table groupby_agg sort_values ui fdf (mkWorld g p (heap w ++ fresh))
  = (Return tt,
     mkWorld g (p ++ table_events)
             (heap w ++ fresh ++ map OTable table_objects)).
Proof.
  unfold data_table.
  rewrite (bind_run _ _ _ _ _
             (frame_run _ (mkWorld g p (heap w ++ fresh)) _
                        (lookup_grown _ fresh _ _ Hfdf))).
  unfold table_events, table_objects, summary.
  destruct (String.eqb (view_option ui) "Sintesi");
    unfold bind, new, emit; cbn [rng page heap map];
    rewrite <- !app_assoc; reflexivity.
Qed.

Lemma export_run g p fresh :
  export format_float format_datetime ui fdf (mkWorld g p (heap w ++ fresh))
  = (Return tt, mkWorld g (p ++ export_events) (heap w ++ fresh)).
Proof.
  unfold export, export_events. destruct (button ui).
  - rewrite (bind_run _ _ _ _ _
               (frame_run _ (mkWorld g p (heap w ++ fresh)) _
                          (lookup_grown _ fresh _ _ Hfdf))).
    reflexivity.
  - unfold ret. now rewrite app_nil_r.
Qed.

Lemma info_run g p fresh :
  info strftime df fdf (mkWorld g p (heap w ++ fresh))
  = match info_event with
    | Some e => (Return tt, mkWorld g (p ++ [e]) (heap w ++ fresh))
    | None => (Raise ValueError, mkWorld g p (heap w ++ fresh))
    end.
Proof.
  unfold info, info_event.
  rewrite (bind_run _ _ _ _ _
             (frame_run _ (mkWorld g p (heap w ++ fresh)) _
                        (lookup_grown _ fresh _ _ Hdf))).
  rewrite (bind_run _ _ _ _ _
             (frame_run _ (mkWorld g p (heap w ++ fresh)) _
                        (lookup_grown _ fresh _ _ Hfdf))).
  destruct (series_max (column date d)); [|reflexivity].
  destruct (series_min (column date f)); [|reflexivity].
  destruct (series_max (column date f)); reflexivity.
Qed.

(** Everything the steps after the filter put on the page, in order. *)
Definition events_before_info : list UiEvent :=
  kpi_events ++ chart_events ++ table_events ++ export_events.

(** What is on the page when the fifth chart raises. *)
Definition events_before_scatter : list UiEvent :=
  kpi_events ++ charts_before_scatter.

Lemma after_filter_run :
  after_filter format_float format_datetime strftime groupby_agg nlargest
    sort_values df ui fdf w
  = if sizes_valid f then
      let h := heap w ++ map OTable chart_tables
               ++ map OTable table_objects in
      match info_event with
      | Some e =>
          (Return fdf,
           mkWorld (rng w) (page w ++ events_before_info ++ [e]) h)
      | None =>
          (Raise ValueError,
           mkWorld (rng w) (page w ++ events_before_info) h)
      end
    else
      (Raise ValueError,
       mkWorld (rng w) (page w ++ events_before_scatter)
               (heap w ++ map OTable chart_tables)).
Proof.
  unfold after_filter, events_before_info, events_before_scatter.
  rewrite (bind_run _ _ _ _ _ kpi_cards_run).
  rewrite <- (app_nil_r (heap w)) at 1.
  destruct (sizes_valid f) eqn:Hsizes;
    [|erewrite bind_raise by (rewrite charts_run, Hsizes; reflexivity);
      cbn [app]; now rewrite <- !app_assoc].
  erewrite bind_run by (rewrite charts_run, Hsizes; reflexivity).
  erewrite bind_run by apply data_table_run.
  erewrite bind_run by apply export_run.
  cbn [app]. rewrite <- !app_assoc.
  destruct info_event as [e|] eqn:E.
  - erewrite bind_run by (rewrite info_run, E; reflexivity).
    unfold ret. rewrite <- !app_assoc. reflexivity.
  - erewrite bind_raise by (rewrite info_run, E; reflexivity).
    reflexivity.
Qed.

End Run.

(** The whole of [render]: the objects it allocates, what it puts on the
    page, and how it ends. *)
Lemma render_run format_float format_datetime strftime groupby_agg nlargest
  sort_values (df : nat) (ui : Sidebar) (w : World) (d : DataFrame) :
  nth_error (heap w) df = Some (OFrame d) ->
  let f := filtered_df d ui in
  let events := events_before_info format_float format_datetime groupby_agg
                  nlargest sort_values d f ui in
  exists fdf h,
    render format_float format_datetime strftime groupby_agg nlargest
      sort_values df ui w
    = if sizes_valid f then
        match info_event strftime d f with
        | Some e => (Return fdf, mkWorld (rng w) (page w ++ events ++ [e]) h)
        | None => (Raise ValueError, mkWorld (rng w) (page w ++ events) h)
        end
      else
        (Raise ValueError,
         mkWorld (rng w)
                 (page w ++ events_before_scatter groupby_agg nlargest d f)
                 h).
Proof.
  intros Hdf f events.
  destruct (apply_filters_spec df ui w d Hdf) as [fresh Hf].
  fold f in Hf.
  set (w1 := mkWorld (rng w) (page w)
               ((heap w ++ fresh) ++ [OFrame f])) in *.
  assert (H1 : nth_error (heap w1) df = Some (OFrame d)).
  { unfold w1. cbn [heap]. rewrite <- app_assoc. now apply lookup_grown. }
  assert (H2 : nth_error (heap w1) (length (heap w ++ fresh))
               = Some (OFrame f)).
  { unfold w1. cbn [heap].
    rewrite nth_error_app2 by lia. now rewrite Nat.sub_diag. }
  exists (length (heap w ++ fresh)).
  exists (if sizes_valid f
          then heap w1
               ++ map OTable (chart_tables groupby_agg nlargest f)
               ++ map OTable (table_objects groupby_agg sort_values f ui)
          else heap w1 ++ map OTable (chart_tables groupby_agg nlargest f)).
  change (render format_float format_datetime strftime groupby_agg nlargest
            sort_values df ui w)
    with (bind (apply_filters df ui)
               (after_filter format_float format_datetime strftime
                  groupby_agg nlargest sort_values df ui) w).
  rewrite (bind_run _ _ _ _ _ Hf).
  rewrite (after_filter_run format_float format_datetime strftime groupby_agg
             nlargest sort_values df _ d f ui w1 H1 H2).
  cbv zeta. destruct (sizes_valid f); [|reflexivity].
  destruct (info_event strftime d f); reflexivity.
Qed.

(** ** The export *)


Lemma to_csv_no_index format_float format_datetime (f : DataFrame) :
  to_csv format_float format_datetime false f
  = (csv_line columns
     ++ String.concat ""
          (map (fun r => csv_line (csv_fields format_float format_datetime
                                              (column date f) r))
               (records f)))%string.
Proof.
  unfold to_csv, records. cbn [app]. now rewrite map_map.
Qed.



(** ** The KPIs of an empty view *)

Lemma mask_no_category d0 d1 regs r : mask d0 d1 [] regs r = false.
Proof.
  unfold mask, isin. cbn [existsb].
  now rewrite andb_false_r.
Qed.

Lemma filtered_df_no_category d d0 d1 regs view clicked t :
  filtered_df d (mkSidebar [d0; d1] [] regs view clicked t) = [].
Proof.
  unfold filtered_df, getitem_mask. cbn [date_range selected_categories
    selected_regions].
  induction d as [|ir d IH]; [reflexivity|].
  cbn [filter]. now rewrite mask_no_category.
Qed.

(** C10. The KPI block has no zero guard.  With every category deselected
    the filtered view is empty, [total_sales] is 0 and [total_profit] is
    0.0; the margin delta [total_profit / total_sales * 100] is then NaN,
    not a finite number, and the block still completes and shows it.  The
    sales delta divides by the total of the whole frame in the same way,
    and is NaN when that total is 0. *)
Theorem empty_view_profit_margin_not_finite (df fdf : nat) (d : DataFrame)
  (w : World) (d0 d1 : Z) (regs : list string) (view : string)
  (clicked : bool) (t : DateTime) :
  let ui := mkSidebar [d0; d1] [] regs view clicked t in
  let f := filtered_df d ui in
  nth_error (heap w) df = Some (OFrame d) ->
  nth_error (heap w) fdf = Some (OFrame f) ->
  f = []
  /\ total_sales f = 0
  /\ total_profit f = 0%float
  /\ profit_margin f = nan
  /\ is_finite (profit_margin f) = false
  /\ kpi_cards df fdf w
     = (Return tt, mkWorld (rng w) (page w ++ kpi_events d f) (heap w))
  /\ nth 1 (kpi_events d f) (Warning "")
     = Metric "Profitto Totale" (CFloat 0) (CFloat nan)
  /\ (total_sales d = 0 -> delta_sales d f = nan).
Proof.
  intros ui f Hdf Hfdf.
  assert (E : f = []) by apply filtered_df_no_category.
  split; [exact E|].
  split; [rewrite E; reflexivity|].
  split; [rewrite E; reflexivity|].
  split; [rewrite E; reflexivity|].
  split; [rewrite E; reflexivity|].
  split; [now apply kpi_cards_run|].
  split; [rewrite E; reflexivity|].
  intros Hd. unfold delta_sales. unfold total_sales in Hd.
  rewrite Hd, E. reflexivity.
Qed.

(** ** Totals over a partition *)

(** The cells of the partition of a frame by a key (category, region, or
    both): one per distinct key value, holding the rows with that value. *)
Definition partition_by (key : Row -> string) (df : DataFrame)
  : list DataFrame :=
  map (fun k => getitem_mask df (fun r => String.eqb (key r) k))
      (unique (map key (records df))).

Definition Zsum (l : list Z) : Z := fold_right Z.add 0 l.

Lemma wrap64_add_l (a b : Z) : wrap64 (wrap64 a + b) = wrap64 (a + b).
Proof.
  unfold wrap64. f_equal.
  replace ((a + 2 ^ 63) mod 2 ^ 64 - 2 ^ 63 + b + 2 ^ 63)
    with ((a + 2 ^ 63) mod 2 ^ 64 + b) by ring.
  rewrite Zplus_mod_idemp_l. f_equal. ring.
Qed.

Lemma wrap64_add_r (a b : Z) : wrap64 (a + wrap64 b) = wrap64 (a + b).
Proof. now rewrite Z.add_comm, wrap64_add_l, Z.add_comm. Qed.

Lemma wrap64_idem (a : Z) : wrap64 (wrap64 a) = wrap64 a.
Proof.
  pose proof (wrap64_add_l a 0) as H. now rewrite !Z.add_0_r in H.
Qed.

Lemma int64_sum_from (l : list Z) (a : Z) :
  fold_left (fun acc x => wrap64 (acc + x)) l (wrap64 a) = wrap64 (a + Zsum l).
Proof.
  revert a. induction l as [|x l IH]; intros a; simpl.
  - now rewrite Z.add_0_r.
  - rewrite wrap64_add_l, IH. f_equal. ring.
Qed.

Lemma int64_sum_Zsum (l : list Z) : int64_sum l = wrap64 (Zsum l).
Proof. unfold int64_sum. exact (int64_sum_from l 0). Qed.

Lemma wrap64_Zsum_wrap (l : list Z) :
  wrap64 (Zsum (map wrap64 l)) = wrap64 (Zsum l).
Proof.
  induction l as [|x l IH]; simpl; [reflexivity|].
  rewrite wrap64_add_l, <- wrap64_add_r, IH, wrap64_add_r. reflexivity.
Qed.

Lemma unique_In (l : list string) (x : string) : In x (unique l) <-> In x l.
Proof.
  induction l as [|y l IH]; simpl; [tauto|].
  rewrite filter_In, IH, negb_true_iff, String.eqb_neq.
  destruct (String.eqb_spec x y); subst; intuition.
Qed.

Lemma unique_NoDup (l : list string) : NoDup (unique l).
Proof.
  induction l as [|y l IH]; simpl; constructor.
  - rewrite filter_In, String.eqb_refl. intros [_ H]. discriminate.
  - now apply NoDup_filter.
Qed.

Lemma Zsum_indicator (ks : list string) (x : string) (v : Z) :
  NoDup ks -> In x ks ->
  Zsum (map (fun k => if String.eqb x k then v else 0) ks) = v.
Proof.
  induction 1 as [|k ks Hk Hnd IH]; simpl; [tauto|].
  intros [->|Hin].
  - rewrite String.eqb_refl.
    assert (E : Zsum (map (fun k0 => if String.eqb x k0 then v else 0) ks) = 0).
    { clear IH Hnd. induction ks as [|k' ks IH']; simpl; [reflexivity|].
      destruct (String.eqb_spec x k').
      - subst. exfalso. apply Hk. now left.
      - rewrite IH'; [reflexivity|]. intros H. apply Hk. now right. }
    rewrite E. ring.
  - destruct (String.eqb_spec x k).
    + subst. contradiction.
    + now rewrite IH.
Qed.

Lemma Zsum_add_map {A} (g h : A -> Z) (l : list A) :
  Zsum (map (fun k => g k + h k) l) = Zsum (map g l) + Zsum (map h l).
Proof. induction l; simpl; lia. Qed.

Lemma Zsum_zeros {A} (l : list A) : Zsum (map (fun _ => 0) l) = 0.
Proof. induction l; simpl; lia. Qed.

(** Exact sums split over the cells of any list of distinct keys that
    covers the keys of the rows. *)
Lemma Zsum_partition (key : Row -> string) (v : Row -> Z) (ks : list string)
  (df : DataFrame) :
  NoDup ks -> (forall ir, In ir df -> In (key (snd ir)) ks) ->
  Zsum (map v (records df))
  = Zsum (map (fun k =>
                 Zsum (map v (records
                                (getitem_mask df
                                   (fun r => String.eqb (key r) k))))) ks).
Proof.
  intros Hnd. induction df as [|ir df IH]; intros Hin.
  - simpl. now rewrite Zsum_zeros.
  - unfold records, getitem_mask in *. cbn [map filter].
    change (Zsum (v (snd ir) :: map v (map snd df)))
      with (v (snd ir) + Zsum (map v (map snd df))).
    rewrite IH by (intros; apply Hin; now right).
    rewrite <- (Zsum_indicator ks (key (snd ir)) (v (snd ir)) Hnd) at 1
      by (apply Hin; now left).
    rewrite <- Zsum_add_map. f_equal. apply map_ext. intros k.
    destruct (String.eqb (key (snd ir)) k); reflexivity.
Qed.

Lemma int64_total_partition (key : Row -> string) (v : Row -> Z)
  (df : DataFrame) :
  int64_sum (map v (records df))
  = int64_sum (map (fun cell => int64_sum (map v (records cell)))
                   (partition_by key df)).
Proof.
  rewrite !int64_sum_Zsum. unfold partition_by. rewrite map_map.
  rewrite (map_ext _ (fun k => wrap64 (Zsum (map v (records
             (getitem_mask df (fun r => String.eqb (key r) k)))))))
    by (intros; apply int64_sum_Zsum).
  rewrite <- (map_map _ wrap64), wrap64_Zsum_wrap.
  f_equal. apply Zsum_partition.
  - apply unique_NoDup.
  - intros ir Hin. apply unique_In. unfold records. rewrite map_map.
    now apply (in_map (fun x => key (snd x))).
Qed.

(** The cells are what the filter returns for one selected category, when
    the date range and the selected regions leave every row in. *)
Lemma filtered_df_one_category (df : DataFrame) d0 d1 c regs view clicked t :
  (forall ir, In ir df ->
     to_datetime d0 <= date (sale (snd ir)) <= to_datetime d1
     /\ In (region (sale (snd ir))) regs) ->
  filtered_df df (mkSidebar [d0; d1] [c] regs view clicked t)
  = getitem_mask df (fun r => String.eqb (category (sale r)) c).
Proof.
  intros H. unfold filtered_df, getitem_mask.
  cbn [date_range selected_categories selected_regions].
  apply filter_ext_in. intros ir Hin. destruct (H ir Hin) as [[H1 H2] H3].
  unfold mask, isin at 1. cbn [existsb]. rewrite orb_false_r.
  apply Z.leb_le in H1, H2. apply isin_In in H3. rewrite H1, H2, H3.
  now rewrite andb_true_r.
Qed.

(** Three rows, two categories: the profits 120.5 and 250.1 of one and
    45.3 of the other. *)
Definition rounding_frame : DataFrame :=
  range_index
    (map add_margin
       [ mkSale (to_datetime 19723) "Casa" "Forno" 400 120.5 9 "Nord";
         mkSale (to_datetime 19723) "Elettronica" "TV" 150 45.3 3 "Nord";
         mkSale (to_datetime 19724) "Casa" "Forno" 800 250.1 17 "Sud" ]).

(** C3, as stated, fails for the total profit: a [float64] sum rounds
    after every addition.  The total over the three rows is 415.9; the
    category totals are 370.6 and 45.3, and their sum is
    415.90000000000003. *)
Lemma total_profit_not_additive :
  let cells := partition_by (fun r => category (sale r)) rounding_frame in
  map (column profit) cells = [[120.5; 250.1]; [45.3]]%float
  /\ total_profit rounding_frame = 415.9%float
  /\ float64_sum (map total_profit cells) = 415.90000000000003%float
  /\ (total_profit rounding_frame =? float64_sum (map total_profit cells))%float
     = false.
Proof. vm_compute. repeat split. Qed.

(** The totals of the [int64] columns are additive over partitions: for
    the partition of a frame by category, by region, or by any other key,
    the total sales, the total customers and the number of transactions of
    the frame are the ([int64]) sums of those of the cells. *)
Lemma integer_totals_partition (key : Row -> string) (df : DataFrame) :
  let cells := partition_by key df in
  total_sales df = int64_sum (map total_sales cells)
  /\ int64_sum (column customers df)
     = int64_sum (map (fun cell => int64_sum (column customers cell)) cells)
  /\ wrap64 (Z.of_nat (length df))
     = int64_sum (map (fun cell => Z.of_nat (length cell)) cells).
Proof.
  intros cells. split; [|split].
  - apply (int64_total_partition key (fun r => sales (sale r))).
  - apply (int64_total_partition key (fun r => customers (sale r))).
  - pose proof (int64_total_partition key (fun _ => 1) df) as H.
    assert (Hone : forall c : DataFrame,
               int64_sum (map (fun _ : Row => 1) (records c))
               = wrap64 (Z.of_nat (length c))).
    { intros c. rewrite int64_sum_Zsum. f_equal. unfold records.
      rewrite map_map. induction c as [|x c IHc]; [reflexivity|].
      cbn [map length].
      change (Zsum (1 :: map (fun _ : nat * Row => 1) c))
        with (1 + Zsum (map (fun _ : nat * Row => 1) c)).
      rewrite IHc. lia. }
    rewrite Hone in H. rewrite H.
    rewrite (map_ext (fun c : Frame Row =>
                        int64_sum (map (fun _ : Row => 1) (records c)))
                     (fun c => wrap64 (Z.of_nat (length c)))) by apply Hone.
    unfold cells. rewrite !int64_sum_Zsum.
    rewrite <- (map_map (fun c : DataFrame => Z.of_nat (length c)) wrap64).
    apply wrap64_Zsum_wrap.
Qed.

(* ================================================================= *)
(** * The ranges of the generated sales, factors and margins *)

(** The bounds on the generated margins are bounds on [float64] results:
    they are obtained from the monotonicity of the correctly rounded
    operations, stated over the specification of the primitive floats. *)

(** ** Rounding an integer to a multiple of a power of two *)

(** Where [m] lies between two consecutive multiples of [2^n]. *)
Definition loc_of (m n : Z) : location :=
  if m mod 2 ^ n =? 0 then loc_Exact
  else loc_Inexact (2 * (m mod 2 ^ n) ?= 2 ^ n).

(** [m / 2^n] rounded to the nearest integer, ties to even. *)
Definition rne (m n : Z) : Z := round_nearest_even (m / 2 ^ n) (loc_of m n).

Lemma pow2_pos (n : Z) : 0 <= n -> 0 < 2 ^ n.
Proof. intros. apply Z.pow_pos_nonneg; lia. Qed.

Lemma rne_bounds (m n : Z) : m / 2 ^ n <= rne m n <= m / 2 ^ n + 1.
Proof.
  unfold rne, round_nearest_even.
  destruct (loc_of m n) as [|[| |]]; try lia.
  destruct (Z.even (m / 2 ^ n)); lia.
Qed.

Lemma rne_mono (m1 m2 n : Z) :
  0 <= n -> m1 <= m2 -> rne m1 n <= rne m2 n.
Proof.
  intros Hn Hm.
  pose proof (pow2_pos n Hn) as Hp.
  pose proof (Z.div_le_mono m1 m2 (2 ^ n) Hp Hm) as Hq.
  destruct (Z.eq_dec (m1 / 2 ^ n) (m2 / 2 ^ n)) as [E|N].
  - pose proof (Z.div_mod m1 (2 ^ n) ltac:(lia)) as D1.
    pose proof (Z.div_mod m2 (2 ^ n) ltac:(lia)) as D2.
    pose proof (Z.mod_pos_bound m1 (2 ^ n) Hp) as B1.
    pose proof (Z.mod_pos_bound m2 (2 ^ n) Hp) as B2.
    assert (Hr : m1 mod 2 ^ n <= m2 mod 2 ^ n) by nia.
    unfold rne, loc_of, round_nearest_even. rewrite E.
    destruct (Z.eqb_spec (m1 mod 2 ^ n) 0) as [Z1|Z1];
      destruct (Z.eqb_spec (m2 mod 2 ^ n) 0) as [Z2|Z2];
      repeat match goal with
             | |- context [?a ?= ?b] => destruct (Z.compare_spec a b)
             end;
      destruct (Z.even (m2 / 2 ^ n)); lia.
  - pose proof (rne_bounds m1 n). pose proof (rne_bounds m2 n). lia.
Qed.

Lemma rne_scale (m n k : Z) :
  0 <= n -> 0 <= k -> rne (m * 2 ^ k) (n + k) = rne m n.
Proof.
  intros Hn Hk.
  pose proof (pow2_pos n Hn) as Hpn. pose proof (pow2_pos k Hk) as Hpk.
  assert (Hq : m * 2 ^ k / 2 ^ (n + k) = m / 2 ^ n).
  { rewrite Z.pow_add_r by lia. rewrite Z.div_mul_cancel_r; lia. }
  assert (Hr : (m * 2 ^ k) mod 2 ^ (n + k) = (m mod 2 ^ n) * 2 ^ k).
  { rewrite Z.pow_add_r by lia. rewrite Zmult_mod_distr_r. reflexivity. }
  unfold rne, loc_of. rewrite Hq, Hr.
  pose proof (Z.mod_pos_bound m (2 ^ n) Hpn) as B.
  destruct (Z.eqb_spec (m mod 2 ^ n * 2 ^ k) 0) as [Z1|Z1];
    destruct (Z.eqb_spec (m mod 2 ^ n) 0) as [Z2|Z2]; try nia; try reflexivity.
  f_equal. f_equal. rewrite Z.pow_add_r by lia.
  replace (2 * (m mod 2 ^ n * 2 ^ k)) with ((2 * (m mod 2 ^ n)) * 2 ^ k) by ring.
  symmetry. apply Zmult_compare_compat_r. lia.
Qed.

(** ** SpecFloat's right shift *)

Lemma iter_pos_nat {A} (f : A -> A) (p : positive) (x : A) :
  iter_pos f p x = Nat.iter (Pos.to_nat p) f x.
Proof.
  revert x. induction p as [p IH|p IH|]; intros x; cbn [iter_pos].
  - rewrite !IH. rewrite Pos2Nat.inj_xI.
    replace (S (2 * Pos.to_nat p))
      with (Pos.to_nat p + (Pos.to_nat p + 1))%nat by lia.
    rewrite !Nat.iter_add. reflexivity.
  - rewrite !IH. rewrite Pos2Nat.inj_xO.
    replace (2 * Pos.to_nat p)%nat
      with (Pos.to_nat p + Pos.to_nat p)%nat by lia.
    rewrite Nat.iter_add. reflexivity.
  - reflexivity.
Qed.

Lemma shr_1_nonneg (q : Z) (r s : bool) :
  0 <= q ->
  shr_1 (Build_shr_record q r s) = Build_shr_record (q / 2) (Z.odd q) (r || s).
Proof.
  intros Hq. destruct q as [|p|p]; [reflexivity| |lia].
  destruct p as [p|p|]; simpl shr_1.
  - f_equal. rewrite Pos2Z.inj_xI.
    replace (2 * Z.pos p + 1) with (1 + Z.pos p * 2) by ring.
    rewrite Z.div_add by lia. reflexivity.
  - f_equal. rewrite Pos2Z.inj_xO, Z.mul_comm, Z.div_mul by lia. reflexivity.
  - reflexivity.
Qed.

Definition shr_exact (n : nat) (m : Z) : shr_record :=
  Nat.iter n shr_1 (Build_shr_record m false false).

Lemma shr_exact_spec (n : nat) (m : Z) :
  0 <= m ->
  shr_m (shr_exact n m) = m / 2 ^ Z.of_nat n
  /\ loc_of_shr_record (shr_exact n m) = loc_of m (Z.of_nat n).
Proof.
  intros Hm. induction n as [|n [IHm IHl]].
  - simpl. split; [now rewrite Z.div_1_r|].
    unfold loc_of. now rewrite Z.pow_0_r, Z.mod_1_r.
  - unfold shr_exact in *. rewrite Nat.iter_succ.
    destruct (Nat.iter n shr_1 (Build_shr_record m false false)) as [q r s].
    simpl shr_m in IHm.
    pose proof (pow2_pos (Z.of_nat n) ltac:(lia)) as Hp.
    assert (Hq : 0 <= q) by (subst q; apply Z.div_pos; lia).
    rewrite shr_1_nonneg by exact Hq.
    rewrite Nat2Z.inj_succ, Z.pow_succ_r by lia.
    split.
    + cbn [shr_m]. subst q. rewrite Z.div_div by lia.
      now rewrite (Z.mul_comm 2).
    + pose proof (Z.div_mod m (2 ^ Z.of_nat n) ltac:(lia)) as D.
      pose proof (Z.mod_pos_bound m (2 ^ Z.of_nat n) Hp) as B.
      pose proof (Z.div_mod q 2 ltac:(lia)) as D2.
      pose proof (Z.mod_pos_bound q 2 ltac:(lia)) as B2.
      assert (Hmod : m mod (2 * 2 ^ Z.of_nat n)
                     = 2 ^ Z.of_nat n * (q mod 2) + m mod 2 ^ Z.of_nat n).
      { symmetry. apply Z.mod_unique_pos with (q := q / 2); nia. }
      assert (Hodd : Z.odd q = negb (q mod 2 =? 0)).
      { rewrite Zmod_odd. destruct (Z.odd q); reflexivity. }
      unfold loc_of in *. rewrite ?Z.pow_succ_r by lia. rewrite Hmod.
      set (rho := m mod 2 ^ Z.of_nat n) in *.
      rewrite Hodd.
      assert (C : q mod 2 = 0 \/ q mod 2 = 1) by lia.
      destruct C as [C|C]; rewrite C in *; cbn [Z.eqb negb];
        destruct r, s; cbn [loc_of_shr_record orb negb] in *;
        destruct (Z.eqb_spec rho 0) as [Z1|Z1]; try discriminate IHl;
        match goal with
        | |- context [if ?a =? ?b then _ else _] => destruct (Z.eqb_spec a b)
        end;
        try (injection IHl as IHl; symmetry in IHl);
        try (apply Z.compare_eq_iff in IHl);
        try (apply Z.compare_lt_iff in IHl);
        try (apply Z.compare_gt_iff in IHl);
        try reflexivity; try lia;
        try (f_equal; symmetry;
             first [ apply Z.compare_eq_iff; lia
                   | apply Z.compare_lt_iff; lia
                   | apply Z.compare_gt_iff; lia ]).
Qed.

(** ** Digits *)

Lemma Zdigits2_pos_bounds (m : positive) :
  0 < Zdigits2 (Zpos m)
  /\ 2 ^ (Zdigits2 (Zpos m) - 1) <= Zpos m < 2 ^ Zdigits2 (Zpos m).
Proof.
  cbn [Zdigits2]. induction m as [m [Hd IH]|m [Hd IH]|]; cbn [digits2_pos].
  - rewrite Pos2Z.inj_succ. split; [lia|].
    replace (Z.succ (Z.pos (digits2_pos m)) - 1)
      with (Z.succ (Z.pos (digits2_pos m) - 1)) by lia.
    rewrite !Z.pow_succ_r by lia. lia.
  - rewrite Pos2Z.inj_succ. split; [lia|].
    replace (Z.succ (Z.pos (digits2_pos m)) - 1)
      with (Z.succ (Z.pos (digits2_pos m) - 1)) by lia.
    rewrite !Z.pow_succ_r by lia. lia.
  - split; [lia|]. simpl. lia.
Qed.

Lemma Zdigits2_unique (x k : Z) :
  0 < k -> 2 ^ (k - 1) <= x < 2 ^ k -> Zdigits2 x = k.
Proof.
  intros Hk [Hlo Hhi].
  assert (Hx : 0 < x) by (pose proof (pow2_pos (k - 1)); lia).
  destruct x as [|m|m]; try lia.
  destruct (Zdigits2_pos_bounds m) as [Hd [Blo Bhi]].
  set (d := Zdigits2 (Z.pos m)) in *.
  destruct (Z.lt_trichotomy d k) as [L|[E|G]]; [|exact E|].
  - pose proof (Z.pow_le_mono_r 2 d (k - 1) ltac:(lia) ltac:(lia)). lia.
  - pose proof (Z.pow_le_mono_r 2 k (d - 1) ltac:(lia) ltac:(lia)). lia.
Qed.

(** ** Rounding in the range of normal numbers *)

Lemma fexp_normal (D : Z) : -1074 <= D - 53 -> fexp prec emax D = D - 53.
Proof. intros H. unfold fexp, SpecFloat.emin, prec, emax. lia. Qed.

Lemma shr_exact_run (m e n : Z) :
  0 <= n ->
  shr (Build_shr_record m false false) e n = (shr_exact (Z.to_nat n) m, e + n).
Proof.
  intros Hn. unfold shr. destruct n as [|p|p]; [|..|lia].
  - now rewrite Z.add_0_r.
  - now rewrite iter_pos_nat.
Qed.

(** The mantissa and exponent that rounding the integer [m] at exponent [e]
    to 53 bits yields. *)
Definition round53 (m e : Z) : Z * Z :=
  let n := Zdigits2 m - 53 in
  let q := rne m n in
  if q =? 2 ^ 53 then (2 ^ 52, e + n + 1) else (q, e + n).

Lemma rne_53_bits (m : positive) :
  53 <= Zdigits2 (Zpos m) ->
  2 ^ 52 <= rne (Zpos m) (Zdigits2 (Zpos m) - 53) <= 2 ^ 53.
Proof.
  intros Hd.
  destruct (Zdigits2_pos_bounds m) as [_ [Blo Bhi]].
  set (d := Zdigits2 (Z.pos m)) in *.
  pose proof (rne_bounds (Zpos m) (d - 53)) as B.
  pose proof (pow2_pos (d - 53) ltac:(lia)) as Hp.
  assert (E1 : 2 ^ (d - 1) = 2 ^ 52 * 2 ^ (d - 53))
    by (rewrite <- Z.pow_add_r by lia; f_equal; lia).
  assert (E2 : 2 ^ d = 2 ^ 53 * 2 ^ (d - 53))
    by (rewrite <- Z.pow_add_r by lia; f_equal; lia).
  assert (2 ^ 52 <= Zpos m / 2 ^ (d - 53)).
  { apply Z.div_le_lower_bound; lia. }
  assert (Zpos m / 2 ^ (d - 53) < 2 ^ 53).
  { apply Z.div_lt_upper_bound; lia. }
  lia.
Qed.

Lemma round_aux_exact (m : positive) (e : Z) :
  53 <= Zdigits2 (Zpos m) ->
  -1074 <= Zdigits2 (Zpos m) + e - 53 <= 970 ->
  binary_round_aux prec emax false (Zpos m) e loc_Exact
  = S754_finite false (Z.to_pos (fst (round53 (Zpos m) e)))
                (snd (round53 (Zpos m) e)).
Proof.
  intros Hd Hrange.
  pose proof (rne_53_bits m Hd) as Hq.
  unfold round53, binary_round_aux, shr_fexp.
  set (d := Zdigits2 (Z.pos m)) in *.
  rewrite fexp_normal by lia.
  replace (d + e - 53 - e) with (d - 53) by lia.
  cbn [shr_record_of_loc].
  rewrite shr_exact_run by lia.
  destruct (shr_exact_spec (Z.to_nat (d - 53)) (Zpos m) ltac:(lia)) as [Hm Hl].
  rewrite Z2Nat.id in Hm, Hl by lia.
  rewrite Hm, Hl. fold (rne (Zpos m) (d - 53)).
  set (q := rne (Zpos m) (d - 53)) in *.
  destruct (Z.eqb_spec q (2 ^ 53)) as [E|N].
  - rewrite E. cbn [fst snd].
    change (Zdigits2 (2 ^ 53)) with 54.
    rewrite fexp_normal by lia.
    replace (54 + (e + (d - 53)) - 53 - (e + (d - 53))) with 1 by lia.
    cbn -[Z.add Z.sub Z.leb]. subst d. cbn [Zdigits2] in *.
    unfold prec, emax.
    match goal with
    | |- context [?a <=? ?b] => destruct (Z.leb_spec a b); [reflexivity|lia]
    end.
  - cbn [fst snd].
    assert (Hdq : Zdigits2 q = 53) by (apply Zdigits2_unique; lia).
    rewrite Hdq, fexp_normal by lia.
    replace (53 + (e + (d - 53)) - 53 - (e + (d - 53))) with 0 by lia.
    cbn [shr shr_m].
    destruct q as [|pq|pq]; try lia.
    unfold prec, emax.
    match goal with
    | |- context [?a <=? ?b] => destruct (Z.leb_spec a b); [reflexivity|lia]
    end.
Qed.

(** ** The order of positive floats, and rounding is monotone *)

(** Mantissa-exponent pairs of the same precision, ordered by value. *)
Definition le53 (a b : Z * Z) : Prop :=
  snd a < snd b \/ (snd a = snd b /\ fst a <= fst b).

Lemma SFleb_finite_pos (m1 m2 : positive) (e1 e2 : Z) :
  SFleb (S754_finite false m1 e1) (S754_finite false m2 e2) = true
  <-> le53 (Zpos m1, e1) (Zpos m2, e2).
Proof.
  unfold SFleb, SFcompare, le53. cbn [fst snd].
  destruct (Z.compare_spec e1 e2) as [E|L|G].
  - rewrite Pos.compare_cont_spec. cbn [Pos.switch_Eq].
    change (Z.pos m1 <= Z.pos m2) with (m1 <= m2)%positive.
    unfold Pos.le.
    destruct (m1 ?= m2)%positive; split; intros H; try reflexivity;
      try discriminate; try (right; split; [exact E|]; discriminate);
      destruct H as [H|[_ H]]; try lia; now contradiction H.
  - split; [intros _; now left | reflexivity].
  - split; [discriminate | intros [H|[H _]]; lia].
Qed.

Lemma round53_shape (m : positive) (e : Z) :
  53 <= Zdigits2 (Zpos m) ->
  let D := Zdigits2 (Zpos m) + e in
  let o := round53 (Zpos m) e in
  2 ^ 52 <= fst o < 2 ^ 53
  /\ (snd o = D - 53 \/ (snd o = D - 52 /\ fst o = 2 ^ 52)).
Proof.
  intros Hd D o. pose proof (rne_53_bits m Hd) as Hq.
  unfold o, round53, D.
  destruct (Z.eqb_spec (rne (Z.pos m) (Zdigits2 (Z.pos m) - 53)) (2 ^ 53));
    cbn [fst snd]; split; try lia.
Qed.

Lemma pow2_lt_inv (a b : Z) : 0 <= a -> 0 <= b -> 2 ^ a < 2 ^ b -> a < b.
Proof. intros Ha Hb H. apply (Z.pow_lt_mono_r_iff 2); lia. Qed.

(** Rounding keeps the order of the values [m * 2^e]. *)
Lemma round53_mono (m1 m2 : positive) (e1 e2 : Z) :
  53 <= Zdigits2 (Zpos m1) -> 53 <= Zdigits2 (Zpos m2) ->
  Zpos m1 * 2 ^ (e1 - Z.min e1 e2) <= Zpos m2 * 2 ^ (e2 - Z.min e1 e2) ->
  le53 (round53 (Zpos m1) e1) (round53 (Zpos m2) e2).
Proof.
  intros Hd1 Hd2 Hv.
  destruct (Zdigits2_pos_bounds m1) as [_ [Blo1 Bhi1]].
  destruct (Zdigits2_pos_bounds m2) as [_ [Blo2 Bhi2]].
  destruct (round53_shape m1 e1 Hd1) as [Hm1 Hs1].
  destruct (round53_shape m2 e2 Hd2) as [Hm2 Hs2].
  set (d1 := Zdigits2 (Z.pos m1)) in *. set (d2 := Zdigits2 (Z.pos m2)) in *.
  set (E := Z.min e1 e2) in *.
  pose proof (pow2_pos (e1 - E) ltac:(lia)) as P1.
  pose proof (pow2_pos (e2 - E) ltac:(lia)) as P2.
  assert (HD : d1 + e1 <= d2 + e2).
  { assert (H : 2 ^ (d1 - 1 + (e1 - E)) < 2 ^ (d2 + (e2 - E))).
    { rewrite !Z.pow_add_r by lia. nia. }
    apply pow2_lt_inv in H; lia. }
  destruct (Z.eq_dec (d1 + e1) (d2 + e2)) as [HE|HN].
  - (* same binade: compare on the common grid *)
    assert (Hq : rne (Zpos m1) (d1 - 53) <= rne (Zpos m2) (d2 - 53)).
    { rewrite <- (rne_scale (Zpos m1) (d1 - 53) (e1 - E)) by lia.
      rewrite <- (rne_scale (Zpos m2) (d2 - 53) (e2 - E)) by lia.
      replace (d2 - 53 + (e2 - E)) with (d1 - 53 + (e1 - E)) by lia.
      apply rne_mono; lia. }
    pose proof (rne_53_bits m1 Hd1) as B1. pose proof (rne_53_bits m2 Hd2) as B2.
    fold d1 in B1. fold d2 in B2.
    unfold le53, round53. fold d1 d2.
    destruct (Z.eqb_spec (rne (Z.pos m1) (d1 - 53)) (2 ^ 53));
      destruct (Z.eqb_spec (rne (Z.pos m2) (d2 - 53)) (2 ^ 53));
      cbn [fst snd]; lia.
  - unfold le53. lia.
Qed.

(** ** Normal positive numbers and the operations on them *)

Definition fin (m : positive) (e : Z) : spec_float := S754_finite false m e.

(** A positive normal number of moderate exponent. *)
Definition nice (x : spec_float) : bool :=
  match x with
  | S754_finite false m e =>
      (Zdigits2 (Zpos m) =? 53) && (-400 <=? e) && (e <=? 400)
  | _ => false
  end.

Lemma nice_inv (x : spec_float) :
  nice x = true ->
  exists m e, x = fin m e /\ Zdigits2 (Zpos m) = 53 /\ -400 <= e <= 400.
Proof.
  destruct x as [| | |[|] m e]; try discriminate. cbn [nice].
  rewrite !andb_true_iff, Z.eqb_eq, !Z.leb_le. intros [[H1 H2] H3].
  exists m, e. repeat split; auto.
Qed.

Lemma digits53_bounds (m : positive) :
  Zdigits2 (Zpos m) = 53 -> 2 ^ 52 <= Zpos m < 2 ^ 53.
Proof.
  intros H. destruct (Zdigits2_pos_bounds m) as [_ B]. rewrite H in B. exact B.
Qed.

(** The float of a rounded pair. *)
Definition fin_of (o : Z * Z) : spec_float := fin (Z.to_pos (fst o)) (snd o).

Lemma SFleb_fin_of (a b : Z * Z) :
  0 < fst a -> 0 < fst b ->
  (SFleb (fin_of a) (fin_of b) = true <-> le53 a b).
Proof.
  intros Ha Hb. unfold fin_of, fin. rewrite SFleb_finite_pos.
  rewrite !Z2Pos.id by lia. destruct a, b. reflexivity.
Qed.

Lemma le53_value (m1 m2 e1 e2 E : Z) :
  2 ^ 52 <= m1 < 2 ^ 53 -> 2 ^ 52 <= m2 < 2 ^ 53 ->
  E <= e1 -> E <= e2 ->
  le53 (m1, e1) (m2, e2) ->
  m1 * 2 ^ (e1 - E) <= m2 * 2 ^ (e2 - E).
Proof.
  intros B1 B2 H1 H2 [L|[Ee Lm]]; cbn [fst snd] in *.
  - pose proof (pow2_pos (e1 - E) ltac:(lia)) as P1.
    replace (e2 - E) with ((e2 - e1 - 1) + 1 + (e1 - E)) by lia.
    rewrite !Z.pow_add_r by lia.
    pose proof (pow2_pos (e2 - e1 - 1) ltac:(lia)) as P2.
    change (2 ^ 1) with 2.
    change (2 ^ 53) with (2 * 2 ^ 52) in B1.
    assert (Hm : m1 <= m2 * (2 ^ (e2 - e1 - 1) * 2)).
    { assert (m2 * 1 <= m2 * 2 ^ (e2 - e1 - 1))
        by (apply Z.mul_le_mono_nonneg_l; lia).
      lia. }
    rewrite Z.mul_assoc. apply Z.mul_le_mono_nonneg_r; lia.
  - subst e2. pose proof (pow2_pos (e1 - E) ltac:(lia)).
    apply Z.mul_le_mono_nonneg_r; lia.
Qed.

Lemma value_at_min (v1 v2 e1 e2 E : Z) :
  E <= e1 -> E <= e2 ->
  v1 * 2 ^ (e1 - E) <= v2 * 2 ^ (e2 - E) ->
  v1 * 2 ^ (e1 - Z.min e1 e2) <= v2 * 2 ^ (e2 - Z.min e1 e2).
Proof.
  intros H1 H2 H.
  set (M := Z.min e1 e2) in *.
  replace (e1 - E) with ((e1 - M) + (M - E)) in H by lia.
  replace (e2 - E) with ((e2 - M) + (M - E)) in H by lia.
  rewrite !Z.pow_add_r in H by lia.
  pose proof (pow2_pos (M - E) ltac:(lia)). nia.
Qed.

Lemma digits_ge (x k : Z) : 0 <= k -> 2 ^ k <= x -> k + 1 <= Zdigits2 x.
Proof.
  intros Hk H. pose proof (pow2_pos k Hk).
  destruct x as [|m|m]; try lia.
  destruct (Zdigits2_pos_bounds m) as [Hd [_ Bhi]].
  destruct (Z_lt_le_dec (Zdigits2 (Zpos m)) (k + 1)) as [L|G]; [|exact G].
  pose proof (Z.pow_le_mono_r 2 (Zdigits2 (Zpos m)) k ltac:(lia) ltac:(lia)).
  lia.
Qed.

Lemma digits_le (x k : Z) : 0 < x -> 0 <= k -> x < 2 ^ k -> Zdigits2 x <= k.
Proof.
  intros Hx Hk H.
  destruct x as [|m|m]; try lia.
  destruct (Zdigits2_pos_bounds m) as [Hd [Blo _]].
  destruct (Z_lt_le_dec k (Zdigits2 (Zpos m))) as [L|G]; [|exact G].
  pose proof (Z.pow_le_mono_r 2 k (Zdigits2 (Zpos m) - 1) ltac:(lia) ltac:(lia)).
  lia.
Qed.

(** *** Multiplication *)

Lemma SFmul_fin (mx my : positive) (ex ey : Z) :
  Zdigits2 (Zpos mx) = 53 -> Zdigits2 (Zpos my) = 53 ->
  -900 <= ex + ey <= 900 ->
  SFmul prec emax (fin mx ex) (fin my ey)
  = fin_of (round53 (Zpos (mx * my)) (ex + ey))
  /\ 105 <= Zdigits2 (Zpos (mx * my)) <= 106.
Proof.
  intros Hx Hy He.
  pose proof (digits53_bounds mx Hx). pose proof (digits53_bounds my Hy).
  assert (Hd : 105 <= Zdigits2 (Zpos (mx * my)) <= 106).
  { rewrite Pos2Z.inj_mul. split.
    - apply (digits_ge _ 104); [lia|].
      change (2 ^ 104) with (2 ^ 52 * 2 ^ 52). nia.
    - apply digits_le; [lia|lia|].
      change (2 ^ 106) with (2 ^ 53 * 2 ^ 53). nia. }
  split; [|exact Hd].
  unfold fin at 1 2. cbn [SFmul xorb].
  apply round_aux_exact; lia.
Qed.

Lemma SFmul_mono_r (a x y : spec_float) :
  nice a = true -> nice x = true -> nice y = true ->
  SFleb x y = true ->
  SFleb (SFmul prec emax a x) (SFmul prec emax a y) = true.
Proof.
  intros Ha Hx Hy Hle.
  apply nice_inv in Ha as (ma & ea & -> & Da & Ea).
  apply nice_inv in Hx as (mx & ex & -> & Dx & Ex).
  apply nice_inv in Hy as (my & ey & -> & Dy & Ey).
  destruct (SFmul_fin ma mx ea ex Da Dx ltac:(lia)) as [-> D1].
  destruct (SFmul_fin ma my ea ey Da Dy ltac:(lia)) as [-> D2].
  apply SFleb_finite_pos in Hle.
  pose proof (digits53_bounds ma Da) as Ba.
  pose proof (digits53_bounds mx Dx) as Bx.
  pose proof (digits53_bounds my Dy) as By.
  destruct (round53_shape (ma * mx) (ea + ex) ltac:(lia)) as [S1 _].
  destruct (round53_shape (ma * my) (ea + ey) ltac:(lia)) as [S2 _].
  apply SFleb_fin_of; try lia.
  apply round53_mono; try lia.
  apply (value_at_min _ _ _ _ (ea + Z.min ex ey)); try lia.
  rewrite !Pos2Z.inj_mul.
  pose proof (le53_value (Zpos mx) (Zpos my) ex ey (Z.min ex ey) Bx By
                ltac:(lia) ltac:(lia) Hle) as Hv.
  replace (ea + ex - (ea + Z.min ex ey)) with (ex - Z.min ex ey) by lia.
  replace (ea + ey - (ea + Z.min ex ey)) with (ey - Z.min ex ey) by lia.
  rewrite <- !Z.mul_assoc. apply Z.mul_le_mono_nonneg_l; lia.
Qed.

Lemma SFmul_comm_fin (mx my : positive) (ex ey : Z) :
  SFmul prec emax (fin mx ex) (fin my ey)
  = SFmul prec emax (fin my ey) (fin mx ex).
Proof.
  unfold fin. cbn [SFmul xorb]. now rewrite Pos.mul_comm, Z.add_comm.
Qed.

Lemma SFmul_mono_l (a x y : spec_float) :
  nice a = true -> nice x = true -> nice y = true ->
  SFleb x y = true ->
  SFleb (SFmul prec emax x a) (SFmul prec emax y a) = true.
Proof.
  intros Ha Hx Hy Hle.
  pose proof (SFmul_mono_r a x y Ha Hx Hy Hle) as H.
  apply nice_inv in Ha as (ma & ea & -> & _).
  apply nice_inv in Hx as (mx & ex & -> & _).
  apply nice_inv in Hy as (my & ey & -> & _).
  now rewrite (SFmul_comm_fin mx ma), (SFmul_comm_fin my ma).
Qed.

(** *** Values at a common scale *)

Lemma value_rescale (v1 v2 e1 e2 E E' : Z) :
  E <= e1 -> E <= e2 -> E' <= e1 -> E' <= e2 ->
  v1 * 2 ^ (e1 - E) <= v2 * 2 ^ (e2 - E) ->
  v1 * 2 ^ (e1 - E') <= v2 * 2 ^ (e2 - E').
Proof.
  intros H1 H2 H1' H2' H.
  set (L := Z.min E E').
  assert (HL : v1 * 2 ^ (e1 - L) <= v2 * 2 ^ (e2 - L)).
  { replace (e1 - L) with ((e1 - E) + (E - L)) by lia.
    replace (e2 - L) with ((e2 - E) + (E - L)) by lia.
    rewrite !Z.pow_add_r, !Z.mul_assoc by lia.
    apply Z.mul_le_mono_nonneg_r; [|exact H].
    pose proof (pow2_pos (E - L)); lia. }
  replace (e1 - L) with ((e1 - E') + (E' - L)) in HL by lia.
  replace (e2 - L) with ((e2 - E') + (E' - L)) in HL by lia.
  rewrite !Z.pow_add_r, !Z.mul_assoc in HL by lia.
  pose proof (pow2_pos (E' - L) ltac:(lia)).
  apply Z.mul_le_mono_pos_r in HL; lia.
Qed.

(** *** Alignment and conversion of integers *)

Lemma iter_xO (m d : positive) : Zpos (Pos.iter xO m d) = Zpos m * 2 ^ Zpos d.
Proof.
  induction d as [|d IH] using Pos.peano_ind.
  - cbn [Pos.iter]. rewrite Pos2Z.inj_xO. change (2 ^ 1) with 2. lia.
  - rewrite Pos.iter_succ, Pos2Z.inj_xO, IH, Pos2Z.inj_succ.
    rewrite Z.pow_succ_r by lia. ring.
Qed.

Lemma shl_align_spec (m : positive) (e e' : Z) :
  snd (shl_align m e e') = Z.min e e'
  /\ Zpos (fst (shl_align m e e')) = Zpos m * 2 ^ (e - Z.min e e').
Proof.
  unfold shl_align. destruct (e' - e) as [|d|d] eqn:E; cbn [fst snd].
  - replace (Z.min e e') with e by lia. rewrite Z.sub_diag. split; lia.
  - replace (Z.min e e') with e by lia. rewrite Z.sub_diag. split; lia.
  - replace (Z.min e e') with e' by lia. rewrite iter_xO.
    replace (e - e') with (Zpos d) by lia. split; reflexivity.
Qed.

Lemma digits_shift (m : positive) (k : Z) :
  0 <= k -> Zdigits2 (Zpos m * 2 ^ k) = Zdigits2 (Zpos m) + k.
Proof.
  intros Hk. destruct (Zdigits2_pos_bounds m) as [Hd [Blo Bhi]].
  set (d := Zdigits2 (Zpos m)) in *.
  pose proof (pow2_pos k Hk).
  apply Zdigits2_unique; [lia|].
  replace (d + k - 1) with ((d - 1) + k) by lia.
  rewrite !Z.pow_add_r by lia. split.
  - apply Z.mul_le_mono_nonneg_r; lia.
  - apply Z.mul_lt_mono_pos_r; lia.
Qed.

(** The integer [m] at exponent [e], brought to at least 53 bits. *)
Definition aligned (m e : Z) : Z * Z :=
  let ez := Z.min e (Zdigits2 m + e - 53) in (m * 2 ^ (e - ez), ez).

Lemma aligned_spec (m : positive) (e : Z) :
  let a := aligned (Zpos m) e in
  0 < fst a /\ 53 <= Zdigits2 (fst a)
  /\ Zdigits2 (fst a) + snd a = Zdigits2 (Zpos m) + e
  /\ snd a <= e
  /\ fst a = Zpos m * 2 ^ (e - snd a).
Proof.
  unfold aligned. cbn [fst snd].
  set (d := Zdigits2 (Zpos m)).
  set (ez := Z.min e (d + e - 53)).
  pose proof (pow2_pos (e - ez) ltac:(lia)).
  rewrite digits_shift by lia. fold d.
  repeat split; try lia.
Qed.

Lemma binary_round_normal (m : positive) (e : Z) :
  -1074 <= Zdigits2 (Zpos m) + e - 53 <= 970 ->
  binary_round prec emax false m e
  = fin_of (round53 (fst (aligned (Zpos m) e)) (snd (aligned (Zpos m) e))).
Proof.
  intros Hr. unfold binary_round.
  change (Zpos (digits2_pos m)) with (Zdigits2 (Zpos m)).
  rewrite fexp_normal by lia.
  destruct (shl_align_spec m e (Zdigits2 (Zpos m) + e - 53)) as [Hs Hf].
  destruct (shl_align m e (Zdigits2 (Z.pos m) + e - 53)) as [mz ez].
  cbn [fst snd] in Hs, Hf.
  destruct (aligned_spec m e) as (Hpos & Hd & HD & _ & _).
  assert (Ha : aligned (Zpos m) e = (Zpos mz, ez)).
  { unfold aligned. rewrite Hs, Hf. subst ez. reflexivity. }
  rewrite Ha in *. cbn [fst snd] in *.
  apply round_aux_exact; lia.
Qed.

(** Conversion and addition round the exact value: what matters below is
    that they keep the order of exact values. *)
Lemma binary_round_mono (m1 m2 : positive) (e1 e2 E : Z) :
  -1074 <= Zdigits2 (Zpos m1) + e1 - 53 <= 970 ->
  -1074 <= Zdigits2 (Zpos m2) + e2 - 53 <= 970 ->
  E <= e1 -> E <= e2 -> E <= Zdigits2 (Zpos m1) + e1 - 53 ->
  E <= Zdigits2 (Zpos m2) + e2 - 53 ->
  Zpos m1 * 2 ^ (e1 - E) <= Zpos m2 * 2 ^ (e2 - E) ->
  SFleb (binary_round prec emax false m1 e1)
        (binary_round prec emax false m2 e2) = true.
Proof.
  intros R1 R2 H1 H2 H1' H2' Hv.
  rewrite !binary_round_normal by assumption.
  destruct (aligned_spec m1 e1) as (P1 & D1 & DD1 & L1 & F1).
  destruct (aligned_spec m2 e2) as (P2 & D2 & DD2 & L2 & F2).
  set (a1 := aligned (Zpos m1) e1) in *. set (a2 := aligned (Zpos m2) e2) in *.
  assert (Hz1 : exists p1, fst a1 = Zpos p1)
    by (destruct (fst a1) as [|p|p]; try lia; now exists p).
  assert (Hz2 : exists p2, fst a2 = Zpos p2)
    by (destruct (fst a2) as [|p|p]; try lia; now exists p).
  destruct Hz1 as [p1 Hp1]. destruct Hz2 as [p2 Hp2].
  assert (S1 : snd a1 = Z.min e1 (Zdigits2 (Zpos m1) + e1 - 53)) by reflexivity.
  assert (S2 : snd a2 = Z.min e2 (Zdigits2 (Zpos m2) + e2 - 53)) by reflexivity.
  rewrite Hp1, Hp2 in *.
  destruct (round53_shape p1 (snd a1) D1) as [Sh1 _].
  destruct (round53_shape p2 (snd a2) D2) as [Sh2 _].
  apply SFleb_fin_of; try lia.
  apply round53_mono; try lia.
  apply (value_at_min _ _ _ _ E); try lia.
  rewrite F1, F2, <- !Z.mul_assoc, <- !Z.pow_add_r by lia.
  replace (e1 - snd a1 + (snd a1 - E)) with (e1 - E) by lia.
  replace (e2 - snd a2 + (snd a2 - E)) with (e2 - E) by lia.
  exact Hv.
Qed.

(** *** Addition *)

Lemma SFadd_fin (mx my : positive) (ex ey : Z) :
  SFadd prec emax (fin mx ex) (fin my ey)
  = binary_round prec emax false
      (Z.to_pos (Zpos mx * 2 ^ (ex - Z.min ex ey)
                 + Zpos my * 2 ^ (ey - Z.min ex ey)))
      (Z.min ex ey).
Proof.
  unfold fin. cbn [SFadd cond_Zopp].
  destruct (shl_align_spec mx ex (Z.min ex ey)) as [_ Hx].
  destruct (shl_align_spec my ey (Z.min ex ey)) as [_ Hy].
  replace (Z.min ex (Z.min ex ey)) with (Z.min ex ey) in Hx by lia.
  replace (Z.min ey (Z.min ex ey)) with (Z.min ex ey) in Hy by lia.
  rewrite <- Hx, <- Hy. reflexivity.
Qed.

Lemma SFadd_mono_r (a x y : spec_float) :
  nice a = true -> nice x = true -> nice y = true ->
  SFleb x y = true ->
  SFleb (SFadd prec emax a x) (SFadd prec emax a y) = true.
Proof.
  intros Ha Hx Hy Hle.
  apply nice_inv in Ha as (ma & ea & -> & Da & Ea).
  apply nice_inv in Hx as (mx & ex & -> & Dx & Ex).
  apply nice_inv in Hy as (my & ey & -> & Dy & Ey).
  rewrite !SFadd_fin.
  apply SFleb_finite_pos in Hle.
  pose proof (digits53_bounds ma Da) as Ba.
  pose proof (digits53_bounds mx Dx) as Bx.
  pose proof (digits53_bounds my Dy) as By.
  set (E := Z.min ea (Z.min ex ey)).
  pose proof (le53_value (Zpos mx) (Zpos my) ex ey E Bx By
                ltac:(lia) ltac:(lia) Hle) as Hv.
  assert (Hsum : forall (m : positive) (e : Z),
             Zdigits2 (Zpos m) = 53 -> -400 <= e <= 400 ->
             let s := Zpos ma * 2 ^ (ea - Z.min ea e)
                      + Zpos m * 2 ^ (e - Z.min ea e) in
             0 < s /\ 53 <= Zdigits2 s
             /\ Zdigits2 s + Z.min ea e <= 454).
  { intros m e Dm Em s. pose proof (digits53_bounds m Dm) as Bm.
    set (k := Z.max ea e - Z.min ea e).
    pose proof (pow2_pos k ltac:(lia)) as Pk.
    assert (Hs : 2 ^ 52 <= s < 2 ^ 54 * 2 ^ k).
    { unfold s. change (2 ^ 54) with (2 * 2 ^ 53).
      destruct (Z.le_ge_cases ea e).
      - replace (Z.min ea e) with ea by lia. rewrite Z.sub_diag.
        replace (e - ea) with k by lia. change (2 ^ 0) with 1. nia.
      - replace (Z.min ea e) with e by lia. rewrite Z.sub_diag.
        replace (ea - e) with k by lia. change (2 ^ 0) with 1. nia. }
    split; [lia|]. split.
    - apply (digits_ge s 52); lia.
    - assert (Zdigits2 s <= 54 + k); [|lia].
      apply digits_le; [lia|lia|]. rewrite Z.pow_add_r by lia. lia. }
  destruct (Hsum mx ex Dx Ex) as (Px & Dsx & Lx).
  destruct (Hsum my ey Dy Ey) as (Py & Dsy & Ly).
  cbv zeta in *.
  set (sx := Zpos ma * 2 ^ (ea - Z.min ea ex) + Zpos mx * 2 ^ (ex - Z.min ea ex)) in *.
  set (sy := Zpos ma * 2 ^ (ea - Z.min ea ey) + Zpos my * 2 ^ (ey - Z.min ea ey)) in *.
  apply (binary_round_mono _ _ _ _ E); rewrite ?Z2Pos.id by assumption;
    try lia.
  unfold sx, sy.
  rewrite !Z.mul_add_distr_r, <- !Z.mul_assoc, <- !Z.pow_add_r by lia.
  replace (ea - Z.min ea ex + (Z.min ea ex - E)) with (ea - E) by lia.
  replace (ex - Z.min ea ex + (Z.min ea ex - E)) with (ex - E) by lia.
  replace (ea - Z.min ea ey + (Z.min ea ey - E)) with (ea - E) by lia.
  replace (ey - Z.min ea ey + (Z.min ea ey - E)) with (ey - E) by lia.
  lia.
Qed.

Lemma SFadd_comm_fin (mx my : positive) (ex ey : Z) :
  SFadd prec emax (fin mx ex) (fin my ey)
  = SFadd prec emax (fin my ey) (fin mx ex).
Proof.
  rewrite !SFadd_fin. now rewrite (Z.min_comm ey ex), Z.add_comm.
Qed.

Lemma SFadd_mono_l (a x y : spec_float) :
  nice a = true -> nice x = true -> nice y = true ->
  SFleb x y = true ->
  SFleb (SFadd prec emax x a) (SFadd prec emax y a) = true.
Proof.
  intros Ha Hx Hy Hle.
  pose proof (SFadd_mono_r a x y Ha Hx Hy Hle) as H.
  apply nice_inv in Ha as (ma & ea & -> & _).
  apply nice_inv in Hx as (mx & ex & -> & _).
  apply nice_inv in Hy as (my & ey & -> & _).
  now rewrite (SFadd_comm_fin mx ma), (SFadd_comm_fin my ma).
Qed.

(** *** Conversion of integers *)

Lemma of_Z_mono (k1 k2 : positive) :
  (k1 <= k2)%positive -> Zpos k2 < 2 ^ 900 ->
  SFleb (binary_normalize prec emax (Zpos k1) 0 false)
        (binary_normalize prec emax (Zpos k2) 0 false) = true.
Proof.
  intros Hk Hb. cbn [binary_normalize].
  destruct (Zdigits2_pos_bounds k1) as [P1 _].
  destruct (Zdigits2_pos_bounds k2) as [P2 _].
  assert (Zdigits2 (Zpos k2) <= 900) by (apply digits_le; lia).
  assert (Zdigits2 (Zpos k1) <= 900)
    by (apply digits_le; [lia|lia|]; change (Zpos k1 <= Zpos k2) in Hk; lia).
  change (Zpos k1 <= Zpos k2) in Hk.
  apply (binary_round_mono _ _ _ _ (-52)); lia.
Qed.

(** *** Division *)

Definition code (l : location) : Z :=
  match l with
  | loc_Exact => 0
  | loc_Inexact Lt => 1
  | loc_Inexact Eq => 2
  | loc_Inexact Gt => 3
  end.

Lemma shr_run (rec : shr_record) (e n : Z) :
  0 <= n -> shr rec e n = (Nat.iter (Z.to_nat n) shr_1 rec, e + n).
Proof.
  intros Hn. unfold shr. destruct n as [|p|p]; [|..|lia].
  - now rewrite Z.add_0_r.
  - now rewrite iter_pos_nat.
Qed.

Lemma two_shifts (q : positive) (l : location) :
  Nat.iter 2 shr_1 (Build_shr_record (4 * Zpos q + code l) false false)
  = shr_record_of_loc (Zpos q) l.
Proof.
  change (Nat.iter 2 shr_1 ?x) with (shr_1 (shr_1 x)).
  rewrite shr_1_nonneg by (destruct l as [|[| |]]; cbn [code]; lia).
  assert (H2 : (4 * Zpos q + code l) / 2 = 2 * Zpos q + code l / 2).
  { replace (4 * Zpos q + code l) with (code l + (2 * Zpos q) * 2) by ring.
    rewrite Z.div_add by lia. ring. }
  assert (O1 : Z.odd (4 * Zpos q + code l) = Z.odd (code l)).
  { replace (4 * Zpos q + code l) with (code l + 2 * (2 * Zpos q)) by ring.
    apply Z.odd_add_mul_2. }
  rewrite H2, O1.
  rewrite shr_1_nonneg
    by (destruct l as [|[| |]]; cbn [code]; cbn; lia).
  assert (H4 : (2 * Zpos q + code l / 2) / 2 = Zpos q).
  { replace (2 * Zpos q + code l / 2) with (code l / 2 + Zpos q * 2) by ring.
    rewrite Z.div_add by lia.
    destruct l as [|[| |]]; cbn [code]; cbn; lia. }
  assert (O2 : Z.odd (2 * Zpos q + code l / 2) = Z.odd (code l / 2)).
  { replace (2 * Zpos q + code l / 2) with (code l / 2 + 2 * Zpos q) by ring.
    apply Z.odd_add_mul_2. }
  rewrite H4, O2.
  destruct l as [|[| |]]; reflexivity.
Qed.

(** A quotient with its location rounds as the integer that carries the
    location in two more bits. *)
Lemma round_aux_proxy (q : positive) (e : Z) (l : location) :
  53 <= Zdigits2 (Zpos q) ->
  -1074 <= Zdigits2 (Zpos q) + e - 53 <= 970 ->
  binary_round_aux prec emax false (Zpos q) e l
  = binary_round_aux prec emax false (4 * Zpos q + code l) (e - 2) loc_Exact.
Proof.
  intros Hd Hr.
  destruct (Zdigits2_pos_bounds q) as [_ [Blo Bhi]].
  set (d := Zdigits2 (Zpos q)) in *.
  assert (Hc : 0 <= code l <= 3) by (destruct l as [|[| |]]; cbn; lia).
  assert (Hd4 : Zdigits2 (4 * Zpos q + code l) = d + 2).
  { apply Zdigits2_unique; [lia|].
    replace (d + 2 - 1) with ((d - 1) + 2) by lia.
    rewrite !Z.pow_add_r by lia. change (2 ^ 2) with 4. lia. }
  unfold binary_round_aux, shr_fexp.
  rewrite Hd4. fold d.
  replace (d + 2 + (e - 2)) with (d + e) by lia.
  rewrite fexp_normal by lia.
  rewrite (shr_run (shr_record_of_loc (Zpos q) l) e (d + e - 53 - e)) by lia.
  cbn [shr_record_of_loc].
  rewrite (shr_run (Build_shr_record (4 * Zpos q + code l) false false)
             (e - 2) (d + e - 53 - (e - 2))) by lia.
  replace (Z.to_nat (d + e - 53 - (e - 2))) with (Z.to_nat (d + e - 53 - e) + 2)%nat
    by lia.
  rewrite Nat.iter_add, two_shifts.
  replace (e - 2 + (d + e - 53 - (e - 2))) with (e + (d + e - 53 - e)) by lia.
  reflexivity.
Qed.

Lemma code_new_location_mono (nb r1 r2 : Z) :
  0 <= r1 <= r2 ->
  code (new_location nb r1) <= code (new_location nb r2).
Proof.
  intros H. unfold new_location, new_location_even, new_location_odd.
  destruct (Z.even nb);
    destruct (Z.eqb_spec r1 0); destruct (Z.eqb_spec r2 0); try lia;
    cbn [code];
    repeat match goal with
           | |- context [?a ?= ?b] => destruct (Z.compare_spec a b)
           end; cbn [code]; lia.
Qed.

(** The quotient of [mx * 2^53] by [my], with its location in two more
    bits. *)
Definition div_proxy (mx my : Z) : Z :=
  let (q, r) := Z.div_eucl (mx * 2 ^ 53) my in
  4 * q + code (new_location my r).

Lemma div_proxy_mono (m1 m2 my : Z) :
  0 < my -> m1 <= m2 -> div_proxy m1 my <= div_proxy m2 my.
Proof.
  intros Hy Hm. unfold div_proxy.
  pose proof (Z_div_mod (m1 * 2 ^ 53) my ltac:(lia)) as H1.
  pose proof (Z_div_mod (m2 * 2 ^ 53) my ltac:(lia)) as H2.
  destruct (Z.div_eucl (m1 * 2 ^ 53) my) as [q1 r1].
  destruct (Z.div_eucl (m2 * 2 ^ 53) my) as [q2 r2].
  destruct H1 as [E1 B1]. destruct H2 as [E2 B2].
  assert (Hc1 : 0 <= code (new_location my r1) <= 3)
    by (destruct (new_location my r1) as [|[| |]]; cbn; lia).
  assert (Hc2 : 0 <= code (new_location my r2) <= 3)
    by (destruct (new_location my r2) as [|[| |]]; cbn; lia).
  assert (Hle : m1 * 2 ^ 53 <= m2 * 2 ^ 53)
    by (apply Z.mul_le_mono_nonneg_r; [cbn; lia | exact Hm]).
  destruct (Z.lt_trichotomy q1 q2) as [L|[E|G]].
  - lia.
  - subst q2. pose proof (code_new_location_mono my r1 r2 ltac:(lia)). lia.
  - exfalso. nia.
Qed.

Lemma div_proxy_bits (mx my : positive) :
  Zdigits2 (Zpos mx) = 53 -> Zdigits2 (Zpos my) = 53 ->
  0 < div_proxy (Zpos mx) (Zpos my)
  /\ 55 <= Zdigits2 (div_proxy (Zpos mx) (Zpos my)) <= 56
  /\ exists q : positive,
       53 <= Zdigits2 (Zpos q) <= 54
       /\ Z.div_eucl (Zpos mx * 2 ^ 53) (Zpos my)
          = (Zpos q, snd (Z.div_eucl (Zpos mx * 2 ^ 53) (Zpos my)))
       /\ div_proxy (Zpos mx) (Zpos my)
          = 4 * Zpos q
            + code (new_location (Zpos my)
                      (snd (Z.div_eucl (Zpos mx * 2 ^ 53) (Zpos my)))).
Proof.
  intros Dx Dy.
  pose proof (digits53_bounds mx Dx) as Bx.
  pose proof (digits53_bounds my Dy) as By.
  unfold div_proxy.
  pose proof (Z_div_mod (Zpos mx * 2 ^ 53) (Zpos my) ltac:(lia)) as H.
  destruct (Z.div_eucl (Zpos mx * 2 ^ 53) (Zpos my)) as [q r].
  destruct H as [E B]. cbn [snd].
  assert (Hc : 0 <= code (new_location (Zpos my) r) <= 3)
    by (destruct (new_location (Zpos my) r) as [|[| |]]; cbn; lia).
  assert (Hq : 2 ^ 52 <= q < 2 ^ 54).
  { change (2 ^ 54) with (2 * 2 ^ 53) in *.
    change (2 ^ 53) with (2 * 2 ^ 52) in *. nia. }
  destruct q as [|pq|pq]; try lia.
  split; [lia|]. split.
  - split.
    + apply (digits_ge _ 54); [lia|]. change (2 ^ 54) with (4 * 2 ^ 52). lia.
    + apply digits_le; [lia|lia|]. change (2 ^ 56) with (4 * 2 ^ 54). lia.
  - exists pq. split; [|split; reflexivity]. split.
    + apply (digits_ge _ 52); lia.
    + apply digits_le; lia.
Qed.

Lemma SFdiv_fin (mx my : positive) (ex ey : Z) :
  Zdigits2 (Zpos mx) = 53 -> Zdigits2 (Zpos my) = 53 ->
  -900 <= ex - ey <= 900 ->
  SFdiv prec emax (fin mx ex) (fin my ey)
  = fin_of (round53 (div_proxy (Zpos mx) (Zpos my)) (ex - ey - 55)).
Proof.
  intros Dx Dy He.
  destruct (div_proxy_bits mx my Dx Dy) as (Hpos & Hd & q & Dq & Hq & Hp).
  unfold fin at 1 2. cbn [SFdiv xorb]. unfold SFdiv_core_binary.
  rewrite Dx, Dy.
  replace (53 + ex - (53 + ey)) with (ex - ey) by lia.
  rewrite fexp_normal by lia.
  replace (Z.min (ex - ey - 53) (ex - ey)) with (ex - ey - 53) by lia.
  replace (ex - ey - (ex - ey - 53)) with 53 by lia.
  rewrite Z.shiftl_mul_pow2 by lia.
  rewrite Hq, round_aux_proxy by lia.
  rewrite <- Hp.
  destruct (div_proxy (Zpos mx) (Zpos my)) as [|pp|pp] eqn:Ep; try lia.
  replace (ex - ey - 53 - 2) with (ex - ey - 55) by lia.
  apply round_aux_exact; lia.
Qed.

(** Division by a fixed number keeps the order of numerators that have
    the same exponent. *)
Lemma SFdiv_mono_binade (m1 m2 my : positive) (e ey : Z) :
  Zdigits2 (Zpos m1) = 53 -> Zdigits2 (Zpos m2) = 53 ->
  Zdigits2 (Zpos my) = 53 ->
  -900 <= e - ey <= 900 ->
  (m1 <= m2)%positive ->
  SFleb (SFdiv prec emax (fin m1 e) (fin my ey))
        (SFdiv prec emax (fin m2 e) (fin my ey)) = true.
Proof.
  intros D1 D2 Dy He Hm.
  rewrite !SFdiv_fin by assumption.
  destruct (div_proxy_bits m1 my D1 Dy) as (P1 & Dp1 & _).
  destruct (div_proxy_bits m2 my D2 Dy) as (P2 & Dp2 & _).
  pose proof (div_proxy_mono (Zpos m1) (Zpos m2) (Zpos my) ltac:(lia) Hm) as Hp.
  destruct (div_proxy (Zpos m1) (Zpos my)) as [|p1|p1]; try lia.
  destruct (div_proxy (Zpos m2) (Zpos my)) as [|p2|p2]; try lia.
  destruct (round53_shape p1 (e - ey - 55) ltac:(lia)) as [S1 _].
  destruct (round53_shape p2 (e - ey - 55) ltac:(lia)) as [S2 _].
  apply SFleb_fin_of; try lia.
  apply round53_mono; try lia.
  rewrite Z.min_id, Z.sub_diag. lia.
Qed.

(** ** Bounds *)

Lemma le53_trans (a b c : Z * Z) : le53 a b -> le53 b c -> le53 a c.
Proof. unfold le53. lia. Qed.

(** [<=] through a positive finite number. *)
Lemma SFleb_trans_fin (a c : spec_float) (m : positive) (e : Z) :
  SFleb a (fin m e) = true -> SFleb (fin m e) c = true -> SFleb a c = true.
Proof.
  intros H1 H2.
  destruct c as [sc|sc| |sc mc ec]; try discriminate H2;
    try (destruct sc; try discriminate H2);
    destruct a as [sa|sa| |sa ma ea]; try discriminate H1;
    try (destruct sa; try discriminate H1); try reflexivity.
  apply SFleb_finite_pos. apply SFleb_finite_pos in H1, H2.
  eapply le53_trans; eassumption.
Qed.

Lemma between_fin (x : spec_float) (ml mh : positive) (el eh : Z) :
  SFleb (fin ml el) x = true -> SFleb x (fin mh eh) = true ->
  exists m e, x = fin m e
              /\ le53 (Zpos ml, el) (Zpos m, e)
              /\ le53 (Zpos m, e) (Zpos mh, eh).
Proof.
  intros H1 H2.
  destruct x as [s|s| |s m e]; try discriminate H1;
    destruct s; try discriminate H1; try discriminate H2.
  exists m, e. split; [reflexivity|].
  split; now apply SFleb_finite_pos.
Qed.

Lemma valid_digits (m : positive) (e : Z) :
  valid_binary (fin m e) = true -> -1074 < e -> Zdigits2 (Zpos m) = 53.
Proof.
  unfold fin. cbn [SpecFloat.valid_binary]. unfold bounded, canonical_mantissa.
  rewrite andb_true_iff, Z.eqb_eq. intros [H _] He.
  change (Zpos (digits2_pos m)) with (Zdigits2 (Zpos m)) in H.
  unfold fexp, SpecFloat.emin, prec, emax in H. lia.
Qed.

(** A valid number between two nice ones is nice. *)
Lemma between_nice (lo hi x : spec_float) :
  nice lo = true -> nice hi = true -> valid_binary x = true ->
  SFleb lo x = true -> SFleb x hi = true -> nice x = true.
Proof.
  intros Hlo Hhi Hv H1 H2.
  apply nice_inv in Hlo as (ml & el & -> & Dl & El).
  apply nice_inv in Hhi as (mh & eh & -> & Dh & Eh).
  destruct (between_fin x ml mh el eh H1 H2) as (m & e & -> & L1 & L2).
  assert (He : el <= e <= eh) by (unfold le53 in *; cbn [fst snd] in *; lia).
  pose proof (valid_digits m e Hv ltac:(lia)) as D.
  cbn [nice fin]. unfold fin. cbn [nice]. rewrite D.
  rewrite !andb_true_iff, Z.eqb_eq, !Z.leb_le. lia.
Qed.

Lemma fin_of_valid (o : Z * Z) :
  2 ^ 52 <= fst o < 2 ^ 53 -> -1074 <= snd o <= 971 ->
  valid_binary (fin_of o) = true.
Proof.
  intros Hm He. unfold fin_of, fin. cbn [SpecFloat.valid_binary].
  unfold bounded, canonical_mantissa.
  change (Zpos (digits2_pos (Z.to_pos (fst o))))
    with (Zdigits2 (Zpos (Z.to_pos (fst o)))).
  rewrite Z2Pos.id by lia.
  rewrite (Zdigits2_unique (fst o) 53) by lia.
  rewrite andb_true_iff, Z.eqb_eq, Z.leb_le.
  unfold fexp, SpecFloat.emin, prec, emax. lia.
Qed.

Lemma of_Z_valid (k : positive) :
  Zpos k < 2 ^ 900 ->
  valid_binary (binary_normalize prec emax (Zpos k) 0 false) = true.
Proof.
  intros Hk. cbn [binary_normalize].
  destruct (Zdigits2_pos_bounds k) as [P _].
  assert (Zdigits2 (Zpos k) <= 900) by (apply digits_le; lia).
  rewrite binary_round_normal by lia.
  destruct (aligned_spec k 0) as (Hpos & Hd & HD & _ & _).
  set (a := aligned (Zpos k) 0) in *.
  destruct (fst a) as [|p|p] eqn:Ea; try lia.
  destruct (round53_shape p (snd a) Hd) as [Sh Se].
  apply fin_of_valid; lia.
Qed.


(** ** Primitive floats through their specification *)

Definition fle (x y : float) : Prop := (x <=? y)%float = true.

(** [x] is a positive normal number of moderate exponent. *)
Definition fnice (x : float) : bool := nice (Prim2SF x).

Definition exponent_of (x : float) : Z :=
  match Prim2SF x with S754_finite _ _ e => e | _ => 0 end.

(** [x] is a positive finite number. *)
Definition fpos (x : float) : Prop := exists m e, Prim2SF x = fin m e.

Lemma fle_SFleb (x y : float) : fle x y <-> SFleb (Prim2SF x) (Prim2SF y) = true.
Proof. unfold fle. now rewrite leb_spec. Qed.

Lemma fnice_inv (x : float) :
  fnice x = true ->
  exists m e, Prim2SF x = fin m e /\ Zdigits2 (Zpos m) = 53
              /\ -400 <= e <= 400 /\ exponent_of x = e.
Proof.
  intros H. destruct (nice_inv _ H) as (m & e & E & D & B).
  exists m, e. repeat split; auto; try lia. unfold exponent_of. now rewrite E.
Qed.

Lemma fnice_fpos (x : float) : fnice x = true -> fpos x.
Proof. intros H. destruct (fnice_inv x H) as (m & e & E & _). now exists m, e. Qed.

Lemma fle_trans (x y z : float) : fpos y -> fle x y -> fle y z -> fle x z.
Proof.
  intros (m & e & E). rewrite !fle_SFleb, E. apply SFleb_trans_fin.
Qed.

Lemma fnice_between (lo hi x : float) :
  fnice lo = true -> fnice hi = true -> fle lo x -> fle x hi ->
  fnice x = true.
Proof.
  intros Hlo Hhi H1 H2. apply fle_SFleb in H1, H2.
  apply (between_nice (Prim2SF lo) (Prim2SF hi)); auto.
  apply Prim2SF_valid.
Qed.

Lemma exponent_between (lo hi x : float) :
  fnice lo = true -> fnice hi = true -> fle lo x -> fle x hi ->
  exponent_of lo <= exponent_of x <= exponent_of hi.
Proof.
  intros Hlo Hhi H1 H2.
  pose proof (fnice_between lo hi x Hlo Hhi H1 H2) as Hx.
  apply fle_SFleb in H1, H2.
  apply fnice_inv in Hlo as (ml & el & El & _ & _ & ->).
  apply fnice_inv in Hhi as (mh & eh & Eh & _ & _ & ->).
  apply fnice_inv in Hx as (m & e & E & _ & _ & ->).
  rewrite El, E in H1. rewrite E, Eh in H2.
  apply SFleb_finite_pos in H1, H2. unfold le53 in *. cbn [fst snd] in *. lia.
Qed.

Lemma mul_mono_r (a x y : float) :
  fnice a = true -> fnice x = true -> fnice y = true -> fle x y ->
  fle (a * x) (a * y).
Proof.
  intros Ha Hx Hy H. apply fle_SFleb in H. apply fle_SFleb.
  rewrite !mul_spec. now apply SFmul_mono_r.
Qed.

Lemma mul_mono_l (a x y : float) :
  fnice a = true -> fnice x = true -> fnice y = true -> fle x y ->
  fle (x * a) (y * a).
Proof.
  intros Ha Hx Hy H. apply fle_SFleb in H. apply fle_SFleb.
  rewrite !mul_spec. now apply SFmul_mono_l.
Qed.

Lemma add_mono_r (a x y : float) :
  fnice a = true -> fnice x = true -> fnice y = true -> fle x y ->
  fle (a + x) (a + y).
Proof.
  intros Ha Hx Hy H. apply fle_SFleb in H. apply fle_SFleb.
  rewrite !add_spec. now apply SFadd_mono_r.
Qed.

Lemma add_mono_l (a x y : float) :
  fnice a = true -> fnice x = true -> fnice y = true -> fle x y ->
  fle (x + a) (y + a).
Proof.
  intros Ha Hx Hy H. apply fle_SFleb in H. apply fle_SFleb.
  rewrite !add_spec. now apply SFadd_mono_l.
Qed.

Lemma div_fpos (x c : float) : fnice x = true -> fnice c = true -> fpos (x / c).
Proof.
  intros Hx Hc.
  apply fnice_inv in Hx as (mx & ex & Ex & Dx & Bx & _).
  apply fnice_inv in Hc as (mc & ec & Ec & Dc & Bc & _).
  unfold fpos. rewrite div_spec, Ex, Ec.
  unfold SF64div. rewrite SFdiv_fin by (auto; lia).
  unfold fin_of. eauto.
Qed.

Lemma div_mono_binade (x y c : float) :
  fnice x = true -> fnice y = true -> fnice c = true ->
  exponent_of x = exponent_of y -> fle x y ->
  fle (x / c) (y / c).
Proof.
  intros Hx Hy Hc He H. apply fle_SFleb in H. apply fle_SFleb.
  apply fnice_inv in Hx as (mx & ex & Ex & Dx & Bx & Ex').
  apply fnice_inv in Hy as (my & ey & Ey & Dy & By & Ey').
  apply fnice_inv in Hc as (mc & ec & Ec & Dc & Bc & _).
  rewrite Ex', Ey' in He. clear Ex' Ey'. subst ey.
  rewrite !div_spec. rewrite Ex, Ey in H. rewrite Ex, Ey, Ec.
  apply SFleb_finite_pos in H.
  apply SFdiv_mono_binade; auto; try lia.
  unfold le53 in H. cbn [fst snd] in H.
  change (Zpos mx <= Zpos my). lia.
Qed.

(** The least and the greatest normal number of exponent [e]. *)
Definition binade_bottom (e : Z) : float := SF2Prim (fin 4503599627370496 e).
Definition binade_top (e : Z) : float := SF2Prim (fin 9007199254740991 e).

Lemma binade_ends (x : float) :
  fnice x = true ->
  let e := exponent_of x in
  fnice (binade_bottom e) = true /\ fnice (binade_top e) = true
  /\ exponent_of (binade_bottom e) = e /\ exponent_of (binade_top e) = e
  /\ fle (binade_bottom e) x /\ fle x (binade_top e).
Proof.
  intros Hx e.
  apply fnice_inv in Hx as (m & ex & E & D & B & Ee). fold e in Ee. subst ex.
  pose proof (digits53_bounds m D) as Bm.
  assert (Hb : Prim2SF (binade_bottom e) = fin 4503599627370496 e).
  { apply Prim2SF_SF2Prim. apply (fin_of_valid (2 ^ 52, e)); cbn; lia. }
  assert (Ht : Prim2SF (binade_top e) = fin 9007199254740991 e).
  { apply Prim2SF_SF2Prim. apply (fin_of_valid (2 ^ 53 - 1, e)); cbn; lia. }
  unfold fnice, exponent_of. rewrite !fle_SFleb, Hb, Ht, E.
  unfold fin. cbn [nice].
  change (Zdigits2 4503599627370496) with 53.
  change (Zdigits2 9007199254740991) with 53.
  repeat split;
    try (rewrite !andb_true_iff, Z.eqb_eq, !Z.leb_le; lia);
    apply SFleb_finite_pos; right; cbn [fst snd]; split; try reflexivity.
  - change (2 ^ 52) with 4503599627370496 in Bm. lia.
  - change (2 ^ 53) with 9007199254740992 in Bm. lia.
Qed.

Lemma div_in_binade (x c : float) :
  fnice x = true -> fnice c = true ->
  fle (binade_bottom (exponent_of x) / c) (x / c)
  /\ fle (x / c) (binade_top (exponent_of x) / c).
Proof.
  intros Hx Hc.
  destruct (binade_ends x Hx) as (Nb & Nt & Eb & Et & Lb & Lt).
  split; apply div_mono_binade; auto.
Qed.

Lemma Prim2SF_of_Z (k : Z) :
  0 < k < 2 ^ 900 -> Prim2SF (of_Z k) = binary_normalize prec emax k 0 false.
Proof.
  intros Hk. unfold of_Z. apply Prim2SF_SF2Prim.
  destruct k as [|p|p]; try lia. apply of_Z_valid. lia.
Qed.

Lemma of_Z_le (k1 k2 : Z) :
  0 < k1 <= k2 -> k2 < 2 ^ 900 -> fle (of_Z k1) (of_Z k2).
Proof.
  intros H1 H2. apply fle_SFleb. rewrite !Prim2SF_of_Z by lia.
  destruct k1 as [|p1|p1]; try lia. destruct k2 as [|p2|p2]; try lia.
  apply of_Z_mono; [exact (proj2 H1)|lia].
Qed.

(** [np.rint] of a number between 0 and [2^52]. *)
(** *** [rint] is rounding to the nearest integer *)

Lemma rne_half_even (m n : Z) :
  0 <= n -> rne m n = round_half_even m (2 ^ n).
Proof.
  intros Hn. unfold rne, round_half_even, loc_of, round_nearest_even.
  pose proof (pow2_pos n Hn) as Hp.
  pose proof (Z.mod_pos_bound m (2 ^ n) Hp) as Hr.
  destruct (Z.eqb_spec (m mod 2 ^ n) 0) as [E|E].
  - rewrite E.
    destruct (Z.ltb_spec (2 * 0) (2 ^ n)); [reflexivity|lia].
  - destruct (Z.compare_spec (2 * (m mod 2 ^ n)) (2 ^ n)) as [C|C|C].
    + destruct (Z.ltb_spec (2 * (m mod 2 ^ n)) (2 ^ n)); [lia|].
      destruct (Z.ltb_spec (2 ^ n) (2 * (m mod 2 ^ n))); [lia|].
      reflexivity.
    + destruct (Z.ltb_spec (2 * (m mod 2 ^ n)) (2 ^ n)); [reflexivity|lia].
    + destruct (Z.ltb_spec (2 * (m mod 2 ^ n)) (2 ^ n)); [lia|].
      destruct (Z.ltb_spec (2 ^ n) (2 * (m mod 2 ^ n))); [reflexivity|lia].
Qed.

Lemma rne_add_even (m k n : Z) :
  0 <= n -> Z.even k = true -> rne (m + k * 2 ^ n) n = k + rne m n.
Proof.
  intros Hn Hk. unfold rne, loc_of.
  pose proof (pow2_pos n Hn) as Hp.
  rewrite Z.div_add by lia. rewrite Z.mod_add by lia.
  unfold round_nearest_even.
  assert (Ev : Z.even (m / 2 ^ n + k) = Z.even (m / 2 ^ n)).
  { rewrite Z.even_add, Hk. now destruct (Z.even (m / 2 ^ n)). }
  rewrite Ev.
  destruct (m mod 2 ^ n =? 0); [lia|].
  destruct (2 * (m mod 2 ^ n) ?= 2 ^ n); try lia.
  destruct (Z.even (m / 2 ^ n)); lia.
Qed.

(** A valid finite number has at most 53 digits, and 53 above the
    subnormal range. *)
Lemma valid_digits_signed (s : bool) (m : positive) (e : Z) :
  valid_binary (S754_finite s m e) = true ->
  Zdigits2 (Zpos m) <= 53 /\ (-1074 < e -> Zdigits2 (Zpos m) = 53).
Proof.
  cbn [SpecFloat.valid_binary]. unfold bounded, canonical_mantissa.
  rewrite andb_true_iff, Z.eqb_eq. intros [H _].
  change (Zpos (digits2_pos m)) with (Zdigits2 (Zpos m)) in H.
  unfold fexp, SpecFloat.emin, prec, emax in H. lia.
Qed.

(** Adding [2^52] to a positive number below it rounds it in the unit
    place. *)
Lemma add_two52 (m : positive) (e : Z) :
  e < 0 -> Zpos m < 2 ^ 53 ->
  let r := rne (Zpos m) (- e) in
  0 <= r <= 2 ^ 52
  /\ SFadd prec emax (fin m e) (fin 4503599627370496 0)
     = if r =? 2 ^ 52 then fin 4503599627370496 1
       else fin (Z.to_pos (2 ^ 52 + r)) 0.
Proof.
  intros He Hm r.
  pose proof (pow2_pos (- e) ltac:(lia)) as Hp.
  assert (Hr : 0 <= r <= 2 ^ 52).
  { pose proof (rne_bounds (Zpos m) (- e)) as B. fold r in B.
    assert (0 <= Zpos m / 2 ^ (- e)) by (apply Z.div_pos; lia).
    assert (Zpos m / 2 ^ (- e) < 2 ^ 52).
    { apply Z.div_lt_upper_bound; [lia|].
      assert (2 <= 2 ^ (- e)).
      { change 2 with (2 ^ 1) at 1. apply Z.pow_le_mono_r; lia. }
      change (2 ^ 53) with (2 * 2 ^ 52) in Hm. nia. }
    lia. }
  split; [exact Hr|].
  rewrite SFadd_fin. rewrite Z.min_l by lia.
  rewrite Z.sub_diag, Z.mul_1_r. rewrite Z.sub_0_l.
  remember (Zpos m + 4503599627370496 * 2 ^ (- e)) as S eqn:ES.
  assert (HS : 0 < S) by (subst S; lia).
  assert (HD : Zdigits2 S = 53 - e).
  { apply Zdigits2_unique; [lia|].
    replace (53 - e - 1) with (52 + - e) by lia.
    replace (53 - e) with (53 + - e) by lia.
    rewrite !Z.pow_add_r by lia. rewrite ES.
    change 4503599627370496 with (2 ^ 52).
    assert (2 <= 2 ^ (- e)).
    { change 2 with (2 ^ 1) at 1. apply Z.pow_le_mono_r; lia. }
    change (2 ^ 53) with (2 * 2 ^ 52) in *. nia. }
  destruct S as [|S'|S']; try lia.
  change (Z.to_pos (Zpos S')) with S'.
  rewrite binary_round_normal by (rewrite HD; lia).
  assert (Eal : aligned (Zpos S') e = (Zpos S', e)).
  { unfold aligned. rewrite HD.
    replace (Z.min e (53 - e + e - 53)) with e by lia.
    now rewrite Z.sub_diag, Z.mul_1_r. }
  rewrite Eal. cbn [fst snd]. unfold round53. rewrite HD.
  replace (53 - e - 53) with (- e) by lia.
  assert (Eq : rne (Zpos S') (- e) = 2 ^ 52 + r).
  { rewrite ES. change 4503599627370496 with (2 ^ 52).
    apply rne_add_even; [lia|reflexivity]. }
  rewrite Eq.
  destruct (Z.eqb_spec r (2 ^ 52)) as [E|E].
  - rewrite E. change (2 ^ 52 + 2 ^ 52 =? 2 ^ 53) with true. cbv iota.
    replace (e + - e + 1) with 1 by lia. reflexivity.
  - destruct (Z.eqb_spec (2 ^ 52 + r) (2 ^ 53)) as [E'|E'].
    + change (2 ^ 53) with (2 ^ 52 + 2 ^ 52) in E'. lia.
    + replace (e + - e) with 0 by lia. reflexivity.
Qed.

(** Taking [2^52] away again is exact. *)
Lemma sub_two52 (r : Z) :
  0 <= r <= 2 ^ 52 ->
  SFsub prec emax
    (if r =? 2 ^ 52 then fin 4503599627370496 1
     else fin (Z.to_pos (2 ^ 52 + r)) 0)
    (fin 4503599627370496 0)
  = binary_normalize prec emax r 0 false.
Proof.
  intros Hr. destruct (Z.eqb_spec r (2 ^ 52)) as [->|Hne].
  - reflexivity.
  - unfold fin, SFsub. rewrite Z.min_id.
    unfold shl_align. rewrite Z.sub_diag. cbn [fst cond_Zopp].
    rewrite Z2Pos.id by lia. f_equal.
    change (Zpos 4503599627370496) with (2 ^ 52). lia.
Qed.

Lemma add_sub_two52 (x : float) (m : positive) (e : Z) :
  Prim2SF x = fin m e -> e < 0 -> Zpos m < 2 ^ 53 ->
  ((x + two52) - two52)%float = of_Z (rne (Zpos m) (- e)).
Proof.
  intros E He Hm.
  rewrite <- (SF2Prim_Prim2SF ((x + two52) - two52)).
  rewrite sub_spec, add_spec, E.
  change (Prim2SF two52) with (fin 4503599627370496 0).
  destruct (add_two52 m e He Hm) as [Hr Hadd].
  unfold SF64sub, SF64add. rewrite Hadd, sub_two52 by exact Hr.
  reflexivity.
Qed.

Lemma get_sign_finite (x : float) (s : bool) (m : positive) (e : Z) :
  Prim2SF x = S754_finite s m e -> get_sign x = s.
Proof.
  intros E. unfold get_sign, is_zero.
  assert (Z : (x =? zero)%float = false).
  { rewrite eqb_spec, E. change (Prim2SF zero) with (S754_zero false).
    unfold SFeqb. cbn [SFcompare]. now destruct s. }
  rewrite Z, ltb_spec, E.
  change (Prim2SF zero) with (S754_zero false).
  unfold SFltb. cbn [SFcompare]. now destruct s.
Qed.

Lemma below_two52 (x : float) (s : bool) (m : positive) (e : Z) :
  Prim2SF x = S754_finite s m e ->
  (abs x <? two52)%float = (e <? 0).
Proof.
  intros E.
  pose proof (Prim2SF_valid x) as V. rewrite E in V.
  apply valid_digits_signed in V as [_ V].
  rewrite ltb_spec, abs_spec, E.
  change (Prim2SF two52) with (fin 4503599627370496 0).
  unfold fin, SFltb. cbn [SFabs SFcompare].
  destruct (Z.compare_spec e 0) as [E0|L|G].
  - subst e. assert (H0 : -1074 < 0) by reflexivity.
    apply V, digits53_bounds in H0. destruct H0 as [H0 _].
    change (2 ^ 52) with (Zpos 4503599627370496) in H0.
    rewrite Pos.compare_cont_spec. cbn [Pos.switch_Eq].
    destruct (Pos.compare_spec m 4503599627370496) as [|L|];
      try reflexivity.
    exfalso. apply Pos2Z.pos_lt_pos in L. apply (Z.lt_irrefl (Zpos m)).
    now apply Z.lt_le_trans with (1 := L).
  - destruct (Z.ltb_spec e 0); [reflexivity|lia].
  - destruct (Z.ltb_spec e 0); [lia|reflexivity].
Qed.

(** [rint] is the nearest integer, ties to even, with the sign of its
    argument; infinities and NaN are kept. *)
Lemma rint_nearest_integer (x : float) : rint x = nearest_integer x.
Proof.
  unfold rint, nearest_integer.
  destruct (Prim2SF x) as [s|s| |s m e] eqn:E.
  - rewrite <- (SF2Prim_Prim2SF x), E. destruct s; reflexivity.
  - rewrite <- (SF2Prim_Prim2SF x), E. destruct s; reflexivity.
  - rewrite <- (SF2Prim_Prim2SF x), E. reflexivity.
  - rewrite (below_two52 x s m e E), (get_sign_finite x s m e E).
    destruct (Z.ltb_spec e 0) as [He|He]; [|reflexivity].
    pose proof (Prim2SF_valid x) as V. rewrite E in V.
    apply valid_digits_signed in V as [V _].
    assert (Hm : Zpos m < 2 ^ 53).
    { destruct (Zdigits2_pos_bounds m) as [_ [_ B]].
      apply Z.lt_le_trans with (1 := B).
      apply Z.pow_le_mono_r; lia. }
    rewrite <- rne_half_even by lia.
    destruct s.
    + f_equal. apply add_sub_two52; [|exact He|exact Hm].
      rewrite opp_spec, E. reflexivity.
    + apply add_sub_two52; assumption.
Qed.

(** [round(2)]: a hundred times the number, to the nearest integer, over
    a hundred. *)
Lemma round2_nearest_integer (x : float) :
  round2 x = (nearest_integer (x * 100) / 100)%float.
Proof. unfold round2. now rewrite rint_nearest_integer. Qed.

(** C1, amended. Every record of the frame [load_data] returns, read from
    the file or generated, has [margin] equal to [profit / sales * 100]
    computed in [float64] and rounded to two decimals as numpy rounds:
    that [float64] times 100, then the nearest integer with ties to even
    (as [nearest_integer] defines it, independently of how the code gets
    there), then over 100.  Each of these steps is a [float64] operation,
    so the result need not be the exact quotient rounded to two decimals. *)
Theorem load_data_margin read_csv parse (w w' : World) (df : DataFrame) :
  load_data read_csv parse w = (Return df, w') ->
  Forall (fun r =>
            let quotient :=
              (profit (sale r) / of_Z (sales (sale r)) * 100)%float in
            margin r = (nearest_integer (quotient * 100) / 100)%float)
         (records df).
Proof.
  intros H. apply margin_column_round2 in H.
  eapply Forall_impl; [|exact H].
  intros r Hr. cbv zeta. unfold margin_ok in Hr.
  now rewrite Hr, round2_nearest_integer.
Qed.

Lemma rint_small (t hi : float) :
  fnice t = true -> fnice hi = true -> fle t hi -> exponent_of hi < 0 ->
  rint t = ((t + two52) - two52)%float.
Proof.
  intros Ht Hhi Hle He.
  apply fle_SFleb in Hle.
  apply fnice_inv in Ht as (m & e & E & D & B & _).
  apply fnice_inv in Hhi as (mh & eh & Eh & _ & _ & Ee). subst eh.
  rewrite E, Eh in Hle. apply SFleb_finite_pos in Hle.
  assert (Hneg : e < 0) by (unfold le53 in Hle; cbn [fst snd] in Hle; lia).
  unfold rint.
  rewrite (below_two52 t false m e E), (get_sign_finite t false m e E).
  destruct (Z.ltb_spec e 0); [reflexivity|lia].
Qed.

(** ** The ranges of the generated numbers *)

Definition Zseq (lo : Z) (n : nat) : list Z :=
  map (fun i => lo + Z.of_nat i) (seq 0 n).

Lemma Zseq_In (lo z : Z) (n : nat) :
  lo <= z < lo + Z.of_nat n -> In z (Zseq lo n).
Proof.
  intros H. unfold Zseq. apply in_map_iff.
  exists (Z.to_nat (z - lo)). split; [lia|]. apply in_seq. lia.
Qed.

(** The same test run with an integer counter, which is how it is
    evaluated. *)
Fixpoint forall_from (f : Z -> bool) (lo : Z) (n : nat) : bool :=
  match n with
  | O => true
  | S n' => f lo && forall_from f (lo + 1) n'
  end.

Lemma forallb_Zseq (f : Z -> bool) (lo : Z) (n : nat) :
  forallb f (Zseq lo n) = forall_from f lo n.
Proof.
  revert lo. induction n as [|n IH]; intros lo; [reflexivity|].
  unfold Zseq. cbn [seq map forallb forall_from].
  rewrite Z.add_0_r. f_equal.
  rewrite <- IH. unfold Zseq. rewrite <- seq_shift, map_map.
  f_equal. apply map_ext. intros i. lia.
Qed.

(** *** [random_sample] and [uniform] *)

Definition u_min : float := Eval vm_compute in (of_Z 1 / 0x1p53)%float.
Definition u_max : float := Eval vm_compute in (of_Z (2 ^ 53 - 1) / 0x1p53)%float.

(** The quotients by [2^53] of the ends of the binade of exponent [e] lie
    between the least and the greatest sample. *)
Definition check_unit_exponent (e : Z) : bool :=
  (u_min <=? binade_bottom e / 0x1p53)%float
  && (binade_top e / 0x1p53 <=? u_max)%float.

Lemma check_unit_exponents :
  forallb check_unit_exponent (Zseq (-52) 53) = true.
Proof. vm_compute. reflexivity. Qed.

Lemma random_sample_range (k : Z) :
  0 < k < 2 ^ 53 ->
  fle u_min (of_Z k / 0x1p53) /\ fle (of_Z k / 0x1p53) u_max.
Proof.
  intros Hk.
  assert (N1 : fnice (of_Z 1) = true) by (vm_compute; reflexivity).
  assert (N2 : fnice (of_Z (2 ^ 53 - 1)) = true) by (vm_compute; reflexivity).
  assert (Nc : fnice 0x1p53 = true) by (vm_compute; reflexivity).
  assert (L1 : fle (of_Z 1) (of_Z k)) by (apply of_Z_le; lia).
  assert (L2 : fle (of_Z k) (of_Z (2 ^ 53 - 1))) by (apply of_Z_le; lia).
  pose proof (fnice_between _ _ _ N1 N2 L1 L2) as Nk.
  pose proof (exponent_between _ _ _ N1 N2 L1 L2) as He.
  change (exponent_of (of_Z 1)) with (-52) in He.
  change (exponent_of (of_Z (2 ^ 53 - 1))) with 0 in He.
  destruct (div_in_binade (of_Z k) 0x1p53 Nk Nc) as [Db Dt].
  destruct (binade_ends (of_Z k) Nk) as (Nb & Nt & _).
  pose proof check_unit_exponents as Hall.
  rewrite forallb_forall in Hall.
  assert (Hin : In (exponent_of (of_Z k)) (Zseq (-52) 53))
    by (apply Zseq_In; change (Z.of_nat 53) with 53; lia).
  specialize (Hall _ Hin).
  unfold check_unit_exponent in Hall. apply andb_true_iff in Hall as [C1 C2].
  split.
  - eapply fle_trans; [|exact C1|exact Db]. now apply div_fpos.
  - eapply fle_trans; [|exact Dt|exact C2]. now apply div_fpos.
Qed.

Lemma factor_range (k : Z) :
  0 <= k < 2 ^ 53 ->
  fle 0.25 (factor_of k) /\ fle (factor_of k) 0.35.
Proof.
  intros Hk. destruct (Z.eq_dec k 0) as [->|Hnz].
  { split; vm_compute; reflexivity. }
  destruct (random_sample_range k ltac:(lia)) as [U1 U2].
  unfold factor_of.
  set (u := (of_Z k / 0x1p53)%float) in *.
  set (r := (0.35 - 0.25)%float).
  assert (Nr : fnice r = true) by (vm_compute; reflexivity).
  assert (Numin : fnice u_min = true) by (vm_compute; reflexivity).
  assert (Numax : fnice u_max = true) by (vm_compute; reflexivity).
  pose proof (fnice_between _ _ _ Numin Numax U1 U2) as Nu.
  pose proof (mul_mono_r r u_min u Nr Numin Nu U1) as Y1.
  pose proof (mul_mono_r r u u_max Nr Nu Numax U2) as Y2.
  assert (Ny1 : fnice (r * u_min) = true) by (vm_compute; reflexivity).
  assert (Ny2 : fnice (r * u_max) = true) by (vm_compute; reflexivity).
  pose proof (fnice_between _ _ _ Ny1 Ny2 Y1 Y2) as Ny.
  assert (Nq : fnice 0.25 = true) by (vm_compute; reflexivity).
  pose proof (add_mono_r 0.25 _ _ Nq Ny1 Ny Y1) as F1.
  pose proof (add_mono_r 0.25 _ _ Nq Ny Ny2 Y2) as F2.
  split.
  - eapply fle_trans; [|shelve|exact F1].
    apply fnice_fpos. vm_compute. reflexivity.
  - eapply fle_trans; [|exact F2|shelve].
    apply fnice_fpos. vm_compute. reflexivity.
  Unshelve. all: vm_compute; reflexivity.
Qed.

(** *** The margin of a generated record *)

Definition q_max : float := Eval vm_compute in next_up 0.35.

(** For the sales value [s]: the profits [s * 0.25] and [s * 0.35] are at
    most one binade apart, and the quotients by [s] of these two and of the
    binade ends between them lie between 0.25 and [q_max]. *)
Definition check_sales (s : Z) : bool :=
  let S := of_Z s in
  let pL := (S * 0.25)%float in
  let pU := (S * 0.35)%float in
  let eL := exponent_of pL in
  let eU := exponent_of pU in
  fnice S && fnice pL && fnice pU
  && (0.25 <=? pL / S)%float && (pU / S <=? q_max)%float
  && ((eL =? eU)
      || ((eU =? eL + 1)
          && (binade_top eL / S <=? q_max)%float
          && (0.25 <=? binade_bottom eU / S)%float)).

Lemma check_all_sales :
  forallb check_sales (Zseq 1000 (Z.to_nat 19000)) = true.
Proof. rewrite forallb_Zseq. vm_compute. reflexivity. Qed.

Lemma quotient_range (s : Z) (p : float) :
  check_sales s = true ->
  fle (of_Z s * 0.25) p -> fle p (of_Z s * 0.35) ->
  fle 0.25 (p / of_Z s) /\ fle (p / of_Z s) q_max.
Proof.
  unfold check_sales. cbv zeta.
  set (S := of_Z s). set (pL := (S * 0.25)%float). set (pU := (S * 0.35)%float).
  rewrite !andb_true_iff.
  intros [[[[[NS NL] NU] CL] CU] Hb] L1 L2.
  pose proof (fnice_between _ _ _ NL NU L1 L2) as Np.
  pose proof (exponent_between _ _ _ NL NU L1 L2) as He.
  destruct (div_in_binade p S Np NS) as [Db Dt].
  assert (Hlow : exponent_of p = exponent_of pL -> fle 0.25 (p / S)).
  { intros E. eapply fle_trans; [|exact CL|].
    - now apply div_fpos.
    - apply div_mono_binade; auto. }
  assert (Hhigh : exponent_of p = exponent_of pU -> fle (p / S) q_max).
  { intros E. eapply fle_trans; [| |exact CU].
    - now apply div_fpos.
    - apply div_mono_binade; auto. }
  destruct (binade_ends p Np) as (Nb & Nt & _).
  apply orb_true_iff in Hb as [Hb|Hb].
  - apply Z.eqb_eq in Hb. split; [apply Hlow|apply Hhigh]; lia.
  - rewrite !andb_true_iff, Z.eqb_eq in Hb. destruct Hb as [[Hb Ct] Cb].
    destruct (Z.eq_dec (exponent_of p) (exponent_of pL)) as [E|N].
    + split; [now apply Hlow|].
      rewrite <- E in Ct.
      eapply fle_trans; [|exact Dt|exact Ct]. now apply div_fpos.
    + assert (E : exponent_of p = exponent_of pU) by lia.
      split; [|now apply Hhigh].
      rewrite <- E in Cb.
      eapply fle_trans; [|exact Cb|exact Db]. now apply div_fpos.
Qed.

(** The float whose mantissa is [2^52 + n] at exponent 0, minus [2^52],
    over 100, lies between 25 and 35. *)
Definition check_cents (n : Z) : bool :=
  let a := SF2Prim (fin (Z.to_pos (2 ^ 52 + n)) 0) in
  (25 <=? (a - two52) / 100)%float && ((a - two52) / 100 <=? 35)%float.

Lemma check_all_cents : forallb check_cents (Zseq 2500 1001) = true.
Proof. rewrite forallb_Zseq. vm_compute. reflexivity. Qed.

Lemma margin_range (s : Z) (f : float) :
  1000 <= s < 20000 -> fle 0.25 f -> fle f 0.35 ->
  fle 25 (margin_of (of_Z s * f) s) /\ fle (margin_of (of_Z s * f) s) 35.
Proof.
  intros Hs F1 F2.
  pose proof check_all_sales as Hall. rewrite forallb_forall in Hall.
  assert (Hin : In s (Zseq 1000 (Z.to_nat 19000)))
    by (apply Zseq_In; rewrite Z2Nat.id by lia; lia).
  specialize (Hall s Hin).
  assert (NS : fnice (of_Z s) = true).
  { unfold check_sales in Hall. cbv zeta in Hall.
    rewrite !andb_true_iff in Hall. tauto. }
  assert (N25 : fnice 0.25 = true) by (vm_compute; reflexivity).
  assert (N35 : fnice 0.35 = true) by (vm_compute; reflexivity).
  pose proof (fnice_between _ _ _ N25 N35 F1 F2) as Nf.
  pose proof (mul_mono_r (of_Z s) _ _ NS N25 Nf F1) as P1.
  pose proof (mul_mono_r (of_Z s) _ _ NS Nf N35 F2) as P2.
  destruct (quotient_range s _ Hall P1 P2) as [Q1 Q2].
  unfold margin_of, round2.
  set (q := (of_Z s * f / of_Z s)%float) in *.
  assert (Nqm : fnice q_max = true) by (vm_compute; reflexivity).
  pose proof (fnice_between _ _ _ N25 Nqm Q1 Q2) as Nq.
  assert (N100 : fnice 100 = true) by (vm_compute; reflexivity).
  pose proof (mul_mono_l 100 _ _ N100 N25 Nq Q1) as M1.
  pose proof (mul_mono_l 100 _ _ N100 Nq Nqm Q2) as M2.
  change (0.25 * 100)%float with 25%float in M1.
  change (q_max * 100)%float with 35%float in M2.
  assert (Nc25 : fnice 25 = true) by (vm_compute; reflexivity).
  assert (Nc35 : fnice 35 = true) by (vm_compute; reflexivity).
  pose proof (fnice_between _ _ _ Nc25 Nc35 M1 M2) as Nm.
  pose proof (mul_mono_l 100 _ _ N100 Nc25 Nm M1) as T1.
  pose proof (mul_mono_l 100 _ _ N100 Nm Nc35 M2) as T2.
  change (25 * 100)%float with 2500%float in T1.
  change (35 * 100)%float with 3500%float in T2.
  set (t := (q * 100 * 100)%float) in *.
  assert (Nlo : fnice 2500 = true) by (vm_compute; reflexivity).
  assert (Nhi : fnice 3500 = true) by (vm_compute; reflexivity).
  pose proof (fnice_between _ _ _ Nlo Nhi T1 T2) as Nt.
  rewrite (rint_small t 3500 Nt Nhi T2) by (vm_compute; reflexivity).
  assert (N52 : fnice two52 = true) by (vm_compute; reflexivity).
  pose proof (add_mono_l two52 _ _ N52 Nlo Nt T1) as A1.
  pose proof (add_mono_l two52 _ _ N52 Nt Nhi T2) as A2.
  set (a := (t + two52)%float) in *.
  assert (Na1 : fnice (2500 + two52) = true) by (vm_compute; reflexivity).
  assert (Na2 : fnice (3500 + two52) = true) by (vm_compute; reflexivity).
  pose proof (fnice_between _ _ _ Na1 Na2 A1 A2) as Na.
  pose proof (exponent_between _ _ _ Na1 Na2 A1 A2) as Ea.
  change (exponent_of (2500 + two52)) with 0 in Ea.
  change (exponent_of (3500 + two52)) with 0 in Ea.
  apply fle_SFleb in A1, A2.
  apply fnice_inv in Na as (ma & ea & Ea' & _ & _ & Ee).
  rewrite Ee in Ea. assert (E0 : ea = 0) by lia.
  clear Ee Ea. subst ea.
  rewrite Ea' in A1, A2.
  change (Prim2SF (2500 + two52)) with (fin 4503599627372996 0) in A1.
  change (Prim2SF (3500 + two52)) with (fin 4503599627373996 0) in A2.
  apply SFleb_finite_pos in A1, A2.
  unfold le53 in A1, A2. cbn [fst snd] in A1, A2.
  assert (Hma : 2 ^ 52 + 2500 <= Zpos ma <= 2 ^ 52 + 3500)
    by (change (2 ^ 52) with 4503599627370496; lia).
  assert (Ha : a = SF2Prim (fin (Z.to_pos (2 ^ 52 + (Zpos ma - 2 ^ 52))) 0)).
  { rewrite <- (SF2Prim_Prim2SF a), Ea'.
    replace (2 ^ 52 + (Zpos ma - 2 ^ 52)) with (Zpos ma) by lia.
    reflexivity. }
  pose proof check_all_cents as Hc. rewrite forallb_forall in Hc.
  assert (Hin' : In (Zpos ma - 2 ^ 52) (Zseq 2500 1001))
    by (apply Zseq_In; change (Z.of_nat 1001) with 1001; lia).
  specialize (Hc _ Hin').
  unfold check_cents in Hc. cbv zeta in Hc.
  rewrite <- Ha in Hc. apply andb_true_iff in Hc. exact Hc.
Qed.

(** *** The exact value of a factor *)

(** The exact value [m * 2^e] of the positive finite float [x] is below the
    rational [p / q] (for [q > 0]); false of any other float. *)
Definition value_lt (x : float) (p q : Z) : Prop :=
  match Prim2SF x with
  | S754_finite false m e =>
      Zpos m * 2 ^ Z.max e 0 * q < p * 2 ^ Z.max (- e) 0
  | _ => False
  end.

(** The literal [0.35] is the double just below 35/100, so a float that is
    at most that literal has a value strictly below 35/100. *)
Lemma value_below_high (f : float) :
  fnice f = true -> fle f 0.35 -> value_lt f 35 100.
Proof.
  intros N L. apply fle_SFleb in L.
  apply fnice_inv in N as (m & e & E & D & _ & _).
  unfold value_lt. rewrite E in L |- *. cbv beta iota delta [fin].
  change (Prim2SF 0.35) with (fin 6305039478318694 (-54)) in L.
  apply SFleb_finite_pos in L. unfold le53 in L. cbn [fst snd] in L.
  apply digits53_bounds in D.
  assert (He : e <= -54) by lia.
  rewrite (Z.max_r e 0), (Z.max_l (- e) 0) by lia.
  change (2 ^ 0) with 1. rewrite Z.mul_1_r.
  destruct L as [L|[-> L]].
  - replace (- e) with (55 + (- e - 55)) by lia.
    rewrite Z.pow_add_r by lia.
    pose proof (pow2_pos (- e - 55) ltac:(lia)) as P.
    change (2 ^ 53) with 9007199254740992 in D.
    change (2 ^ 55) with 36028797018963968.
    nia.
  - change (2 ^ (- -54)) with 18014398509481984. lia.
Qed.

(** The greatest raw output gives the literal [0.35] itself: the upper end
    of the float range of the factor is attained. *)
Example factor_of_greatest : factor_of (2 ^ 53 - 1) = 0.35%float.
Proof. vm_compute. reflexivity. Qed.

Example factor_of_least : factor_of 0 = 0.25%float.
Proof. vm_compute. reflexivity. Qed.

(** C9. Every record [create_sample_data] produces has an integer sales
    value with 1000 <= sales < 20000, a profit equal to the sales times the
    factor drawn by [np.random.uniform(0.25, 0.35)], which is at least 0.25
    and at most the double [0.35], whose exact value is strictly below
    35/100, and a margin between 25 and 35 (percent). *)
Theorem sample_sales_profit_margin_ranges (g : RandomState) :
  Forall (fun r : Row =>
    1000 <= sales (sale r) < 20000
    /\ (exists k : Z,
          0 <= k < 2 ^ 53
          /\ profit (sale r) = (of_Z (sales (sale r)) * factor_of k)%float
          /\ (0.25 <=? factor_of k)%float = true
          /\ (factor_of k <=? 0.35)%float = true
          /\ value_lt (factor_of k) 35 100)
    /\ (25 <=? margin r)%float = true
    /\ (margin r <=? 35)%float = true)
  (records (fst (create_sample_data g))).
Proof.
  rewrite create_sample_data_fst, records_assign_margin, records_range_index.
  apply Forall_map.
  eapply Forall_impl; [|apply sample_records_ok].
  intros s (_ & _ & _ & d & (Hsales & Hk & _ & _) & Hs).
  assert (Es : sales s = drawn_sales d) by (rewrite Hs; reflexivity).
  assert (Ep : profit s = (of_Z (drawn_sales d) * factor_of (drawn_k d))%float)
    by (rewrite Hs; reflexivity).
  destruct (factor_range _ Hk) as [F1 F2].
  assert (N25 : fnice 0.25 = true) by (vm_compute; reflexivity).
  assert (N35 : fnice 0.35 = true) by (vm_compute; reflexivity).
  pose proof (fnice_between _ _ _ N25 N35 F1 F2) as Nf.
  destruct (margin_range _ _ Hsales F1 F2) as [M1 M2].
  unfold add_margin. cbn [sale margin]. rewrite Ep, Es.
  split; [exact Hsales|]. split.
  - exists (drawn_k d). repeat split; try lia; auto.
    now apply value_below_high.
  - split; assumption.
Qed.

(* ================================================================= *)
(** * Further properties of the script *)

(** ** The default selection *)

Lemma fold_min_le (l : list Z) (a : Z) :
  fold_left Z.min l a <= a /\ Forall (fun x => fold_left Z.min l a <= x) l.
Proof.
  revert a. induction l as [|x l IH]; intros a; cbn [fold_left].
  - split; [lia|constructor].
  - destruct (IH (Z.min a x)) as [H1 H2]. split; [lia|].
    constructor; [lia|exact H2].
Qed.

Lemma fold_max_ge (l : list Z) (a : Z) :
  a <= fold_left Z.max l a /\ Forall (fun x => x <= fold_left Z.max l a) l.
Proof.
  revert a. induction l as [|x l IH]; intros a; cbn [fold_left].
  - split; [lia|constructor].
  - destruct (IH (Z.max a x)) as [H1 H2]. split; [lia|].
    constructor; [lia|exact H2].
Qed.

Lemma fold_max_In (l : list Z) (a : Z) :
  fold_left Z.max l a = a \/ In (fold_left Z.max l a) l.
Proof.
  revert a. induction l as [|x l IH]; intros a; cbn [fold_left]; [now left|].
  destruct (IH (Z.max a x)) as [E|H].
  - rewrite E. destruct (Z.max_spec a x) as [[_ M]|[_ M]]; rewrite M.
    + right. now left.
    + now left.
  - right. now right.
Qed.

Lemma series_min_le (l : list Timestamp) (a : Timestamp) :
  series_min l = Some a -> Forall (fun x => a <= x) l.
Proof.
  destruct l as [|x l]; [discriminate|]. intros H. injection H as <-.
  destruct (fold_min_le l x) as [H1 H2]. constructor; assumption.
Qed.

Lemma series_max_ge (l : list Timestamp) (b : Timestamp) :
  series_max l = Some b -> Forall (fun x => x <= b) l.
Proof.
  destruct l as [|x l]; [discriminate|]. intros H. injection H as <-.
  destruct (fold_max_ge l x) as [H1 H2]. constructor; assumption.
Qed.

Lemma series_max_In (l : list Timestamp) (b : Timestamp) :
  series_max l = Some b -> In b l.
Proof.
  destruct l as [|x l]; [discriminate|]. intros H. injection H as <-.
  destruct (fold_max_In l x) as [E|H]; [rewrite E; now left|now right].
Qed.

Lemma series_min_max_some (l : list Timestamp) (b : Timestamp) :
  series_max l = Some b -> exists a, series_min l = Some a.
Proof. destruct l; [discriminate|]. intros _. eexists. reflexivity. Qed.

Lemma to_datetime_date_of (t : Timestamp) :
  to_datetime (date_of t) <= t
  /\ (t mod ns_per_day = 0 -> to_datetime (date_of t) = t)
  /\ (t mod ns_per_day <> 0 -> to_datetime (date_of t) < t).
Proof.
  unfold to_datetime, date_of.
  assert (P : 0 < ns_per_day) by reflexivity.
  pose proof (Z.div_mod t ns_per_day ltac:(lia)) as E.
  pose proof (Z.mod_pos_bound t ns_per_day P) as B.
  repeat split; intros; lia.
Qed.

Lemma filter_all {A} (p : A -> bool) (l : list A) :
  Forall (fun x => p x = true) l -> filter p l = l.
Proof.
  induction 1 as [|x l Hx _ IH]; [reflexivity|].
  cbn [filter]. now rewrite Hx, IH.
Qed.

Lemma In_column {A} (f : Sale Timestamp -> A) (df : DataFrame)
  (ir : nat * Row) :
  In ir df -> In (f (sale (snd ir))) (column f df).
Proof.
  intros H. unfold column, records. rewrite map_map.
  apply (in_map (fun x => f (sale (snd x)))). exact H.
Qed.

Lemma default_sidebar_some (df : DataFrame) view clicked t (b : Timestamp) :
  series_max (column date df) = Some b ->
  exists a,
    series_min (column date df) = Some a
    /\ default_sidebar df view clicked t
       = Some (mkSidebar [date_of a; date_of b] (categories df) (regions df)
                         view clicked t).
Proof.
  intros Hb. destruct (series_min_max_some _ _ Hb) as [a Ha].
  exists a. split; [exact Ha|].
  unfold default_sidebar, default_date_range. now rewrite Ha, Hb.
Qed.

(** What the default selection keeps: the rows that are not later than
    midnight of the last day. *)
Lemma default_mask (df : DataFrame) (a b : Timestamp) (ir : nat * Row) :
  series_min (column date df) = Some a ->
  In ir df ->
  mask (date_of a) (date_of b) (categories df) (regions df) (snd ir)
  = (date (sale (snd ir)) <=? to_datetime (date_of b)).
Proof.
  intros Ha Hin. unfold mask.
  pose proof (series_min_le _ _ Ha) as Hmin.
  rewrite Forall_forall in Hmin.
  specialize (Hmin _ (In_column date df ir Hin)).
  destruct (to_datetime_date_of a) as [La _].
  assert (E1 : (to_datetime (date_of a) <=? date (sale (snd ir))) = true)
    by (apply Z.leb_le; lia).
  assert (E2 : isin (category (sale (snd ir))) (categories df) = true).
  { apply isin_In. unfold categories. apply unique_In.
    apply (In_column category df ir Hin). }
  assert (E3 : isin (region (sale (snd ir))) (regions df) = true).
  { apply isin_In. unfold regions. apply unique_In.
    apply (In_column region df ir Hin). }
  rewrite E1, E2, E3. cbn [andb]. now rewrite !andb_true_r.
Qed.

Lemma default_view_whole (df : DataFrame) (view : string)
  (clicked : bool) (t : DateTime) (max_date : Timestamp) :
  series_max (column date df) = Some max_date ->
  max_date mod ns_per_day = 0 ->
  exists ui, default_sidebar df view clicked t = Some ui
             /\ filtered_df df ui = df.
Proof.
  intros Hb Hmid.
  destruct (default_sidebar_some df view clicked t _ Hb) as (a & Ha & Hui).
  eexists. split; [exact Hui|].
  unfold filtered_df, getitem_mask.
  cbn [date_range selected_categories selected_regions].
  apply filter_all. apply Forall_forall. intros ir Hin.
  rewrite (default_mask df a max_date ir Ha Hin).
  apply Z.leb_le.
  destruct (to_datetime_date_of max_date) as (_ & E & _).
  rewrite (E Hmid).
  pose proof (series_max_ge _ _ Hb) as Hmax. rewrite Forall_forall in Hmax.
  apply Hmax. apply (In_column date df ir Hin).
Qed.

(** X1. With the filters left at their defaults (the whole date span,
    every category, every region) and the latest timestamp of the data at
    midnight, as in date-only data, the filtered view is the whole frame. *)
Theorem default_selection_shows_every_row (df : DataFrame) (view : string)
  (clicked : bool) (t : DateTime) (max_date : Timestamp) :
  series_max (column date df) = Some max_date ->
  max_date mod ns_per_day = 0 ->
  exists ui, default_sidebar df view clicked t = Some ui
             /\ filtered_df df ui = df.
Proof. apply default_view_whole. Qed.

(** X2. The upper end of the date filter is midnight of the selected end
    date.  With the filters at their defaults and the latest timestamp of
    the data later than midnight, every row of the view is at or before
    midnight of the last day, so the latest rows of the data are missing
    from the view although nothing was deselected. *)
Theorem default_selection_hides_late_rows (df : DataFrame) (view : string)
  (clicked : bool) (t : DateTime) (max_date : Timestamp) :
  series_max (column date df) = Some max_date ->
  max_date mod ns_per_day <> 0 ->
  exists ui,
    default_sidebar df view clicked t = Some ui
    /\ Forall (fun r => date (sale r) <= to_datetime (date_of max_date)
                        /\ date (sale r) < max_date)
              (records (filtered_df df ui))
    /\ exists ir, In ir df /\ date (sale (snd ir)) = max_date
                  /\ ~ In ir (filtered_df df ui).
Proof.
  intros Hb Hlate.
  destruct (default_sidebar_some df view clicked t _ Hb) as (a & Ha & Hui).
  destruct (to_datetime_date_of max_date) as (_ & _ & L).
  specialize (L Hlate).
  eexists. split; [exact Hui|].
  unfold filtered_df, getitem_mask.
  cbn [date_range selected_categories selected_regions].
  split.
  - unfold records. apply Forall_map. apply Forall_forall. intros ir Hin.
    apply filter_In in Hin as [Hin Hm].
    rewrite (default_mask df a max_date ir Ha Hin) in Hm.
    apply Z.leb_le in Hm. lia.
  - pose proof (series_max_In _ _ Hb) as Hin.
    unfold column, records in Hin. rewrite map_map in Hin.
    apply in_map_iff in Hin as (ir & E & Hin).
    exists ir. split; [exact Hin|]. split; [exact E|].
    intros Hf. apply filter_In in Hf as [_ Hm].
    rewrite (default_mask df a max_date ir Ha Hin) in Hm.
    apply Z.leb_le in Hm. lia.
Qed.

(** ** Filtering again *)

Lemma filter_filter {A} (p q : A -> bool) (l : list A) :
  filter p (filter q l) = filter (fun x => p x && q x) l.
Proof.
  induction l as [|x l IH]; [reflexivity|].
  cbn [filter]. destruct (q x); cbn [filter]; rewrite IH.
  - now rewrite andb_true_r.
  - now rewrite andb_false_r.
Qed.

Lemma isin_incl (x : string) (l l' : list string) :
  incl l l' -> isin x l = true -> isin x l' = true.
Proof. intros H Hx. apply isin_In. apply H. now apply isin_In. Qed.

(** X3. Filtering composes.  Filtering the filtered view again with the
    same selection changes nothing, and applying a narrower selection (a
    date range inside the first, fewer categories, fewer regions) to an
    already filtered view gives the view that selection gives on the whole
    frame. *)
Theorem filtering_composes (df : DataFrame) :
  (forall ui, filtered_df (filtered_df df ui) ui = filtered_df df ui)
  /\ (forall d0 d1 cats regs d0' d1' cats' regs' view clicked t
             view' clicked' t',
        d0 <= d0' -> d1' <= d1 -> incl cats' cats -> incl regs' regs ->
        filtered_df
          (filtered_df df (mkSidebar [d0; d1] cats regs view clicked t))
          (mkSidebar [d0'; d1'] cats' regs' view' clicked' t')
        = filtered_df df (mkSidebar [d0'; d1'] cats' regs' view' clicked' t')).
Proof.
  assert (narrow : forall d0 d1 cats regs d0' d1' cats' regs',
             d0 <= d0' -> d1' <= d1 -> incl cats' cats -> incl regs' regs ->
             getitem_mask (getitem_mask df (mask d0 d1 cats regs))
                          (mask d0' d1' cats' regs')
             = getitem_mask df (mask d0' d1' cats' regs')).
  { intros d0 d1 cats regs d0' d1' cats' regs' H0 H1 Hc Hr.
    unfold getitem_mask. rewrite filter_filter. apply filter_ext.
    intros ir. destruct (mask d0' d1' cats' regs' (snd ir)) eqn:M;
      [|reflexivity].
    cbn [andb]. apply mask_selected in M. apply mask_selected.
    destruct M as (Hd & Hcat & Hreg). unfold selected, to_datetime in *.
    assert (0 < ns_per_day) by reflexivity.
    repeat split; try nia; auto. }
  split.
  - intros ui. unfold filtered_df.
    destruct (date_range ui) as [|d0 [|d1 [|d2 l]]]; try reflexivity.
    apply narrow; try lia; apply incl_refl.
  - intros. unfold filtered_df.
    cbn [date_range selected_categories selected_regions].
    now apply narrow.
Qed.

(** ** The KPIs of a filtered view *)

Lemma wrap64_small (z : Z) : - 2 ^ 63 <= z < 2 ^ 63 -> wrap64 z = z.
Proof.
  intros H. unfold wrap64.
  rewrite Z.mod_small by (change (2 ^ 64) with (2 * 2 ^ 63); lia). lia.
Qed.

Lemma Subseq_length {A} (l1 l2 : list A) :
  Subseq l1 l2 -> (length l1 <= length l2)%nat.
Proof. induction 1; cbn [length]; lia. Qed.

Lemma Subseq_map {A B} (f : A -> B) (l1 l2 : list A) :
  Subseq l1 l2 -> Subseq (map f l1) (map f l2).
Proof. induction 1; cbn [map]; constructor; assumption. Qed.

Lemma Subseq_Zsum (l1 l2 : list Z) :
  Subseq l1 l2 -> Forall (fun x => 0 <= x) l2 ->
  0 <= Zsum l1 <= Zsum l2.
Proof.
  induction 1 as [|x l1 l2 H IH|x l1 l2 H IH]; intros Hpos.
  - cbn. lia.
  - inversion Hpos as [|? ? Hx Hl]; subst.
    change (Zsum (x :: l2)) with (x + Zsum l2).
    specialize (IH Hl). lia.
  - inversion Hpos as [|? ? Hx Hl]; subst.
    change (Zsum (x :: l1)) with (x + Zsum l1).
    change (Zsum (x :: l2)) with (x + Zsum l2).
    specialize (IH Hl). lia.
Qed.

Lemma Subseq_Forall {A} (P : A -> Prop) (l1 l2 : list A) :
  Subseq l1 l2 -> Forall P l2 -> Forall P l1.
Proof.
  intros H HP. apply Forall_forall. intros x Hx.
  rewrite Forall_forall in HP. apply HP. eapply Subseq_In; eassumption.
Qed.

Lemma filtered_df_Subseq (df : DataFrame) (ui : Sidebar) :
  Subseq (filtered_df df ui) df.
Proof.
  unfold filtered_df.
  destruct (date_range ui) as [|d0 [|d1 [|d2 l]]]; try apply Subseq_refl.
  apply Subseq_filter.
Qed.

Lemma column_Subseq {A} (f : Sale Timestamp -> A) (df : DataFrame)
  (ui : Sidebar) :
  Subseq (column f (filtered_df df ui)) (column f df).
Proof.
  unfold column, records. rewrite !map_map.
  apply Subseq_map, filtered_df_Subseq.
Qed.

Lemma filtered_total_sales_bounds_aux (df : DataFrame) (ui : Sidebar) :
  Forall (fun r => 0 <= sales (sale r)) (records df) ->
  Zsum (column sales df) < 2 ^ 63 ->
  total_sales (filtered_df df ui) = Zsum (column sales (filtered_df df ui))
  /\ 0 <= total_sales (filtered_df df ui) <= total_sales df.
Proof.
  intros Hpos Hfit.
  assert (Hcol : Forall (fun x => 0 <= x) (column sales df)).
  { unfold column. apply Forall_map. exact Hpos. }
  pose proof (Subseq_Zsum _ _ (column_Subseq sales df ui) Hcol) as Hf.
  pose proof (Subseq_Zsum _ _ (Subseq_refl (column sales df)) Hcol) as Hd.
  unfold total_sales. rewrite !int64_sum_Zsum.
  rewrite !wrap64_small by lia. lia.
Qed.

(** X4. Where no sales value is negative and the total of the whole frame
    fits an [int64], the total sales of any filtered view is the exact sum
    of its sales (the additions do not wrap), is not negative and does not
    exceed the total of the whole frame. *)
Theorem filtered_total_sales_within_total (df : DataFrame) (ui : Sidebar) :
  Forall (fun r => 0 <= sales (sale r)) (records df) ->
  Zsum (column sales df) < 2 ^ 63 ->
  total_sales (filtered_df df ui) = Zsum (column sales (filtered_df df ui))
  /\ 0 <= total_sales (filtered_df df ui) <= total_sales df.
Proof. apply filtered_total_sales_bounds_aux. Qed.

Lemma length_unique_le (l : list string) :
  (length (unique l) <= length l)%nat.
Proof.
  induction l as [|x l IH]; [apply Nat.le_refl|].
  cbn [unique length].
  pose proof (filter_length_le (fun y => negb (String.eqb y x)) (unique l)).
  lia.
Qed.

Lemma unique_incl (l1 l2 : list string) :
  incl l1 l2 -> (length (unique l1) <= length (unique l2))%nat.
Proof.
  intros H. apply NoDup_incl_length; [apply unique_NoDup|].
  intros x Hx. apply (proj2 (unique_In l2 x)). apply H.
  exact (proj1 (unique_In l1 x) Hx).
Qed.

Lemma view_products_bounds (df : DataFrame) (ui : Sidebar) :
  let f := filtered_df df ui in
  (unique_products f <= length f)%nat
  /\ (unique_products f <= unique_products df)%nat
  /\ (length f <= length df)%nat
  /\ (unique_products f = 0%nat <-> f = []).
Proof.
  intros f. unfold unique_products. repeat split.
  - pose proof (length_unique_le (column product f)) as H.
    assert (L : length (column product f) = length f)
      by (unfold column, records; now rewrite !length_map).
    now rewrite L in H.
  - apply unique_incl. intros x Hx.
    eapply Subseq_In; [apply column_Subseq|exact Hx].
  - apply Subseq_length, filtered_df_Subseq.
  - destruct f as [|ir f']; [reflexivity|]. cbn. discriminate.
  - intros ->. reflexivity.
Qed.

(** X5. The fourth card.  In any filtered view the number of distinct
    products is at most the number of transactions and at most the number
    of distinct products of the whole frame, the number of transactions is
    at most that of the whole frame, and the card shows 0 products exactly
    when the view is empty. *)
Theorem unique_products_bounds (df : DataFrame) (ui : Sidebar) :
  let f := filtered_df df ui in
  (unique_products f <= length f)%nat
  /\ (unique_products f <= unique_products df)%nat
  /\ (length f <= length df)%nat
  /\ (unique_products f = 0%nat <-> f = []).
Proof. apply view_products_bounds. Qed.

Lemma Zsum_bounds (l : list Z) (lo hi : Z) :
  Forall (fun x => lo <= x <= hi) l ->
  lo * Z.of_nat (length l) <= Zsum l <= hi * Z.of_nat (length l).
Proof.
  induction 1 as [|x l Hx _ IH].
  - cbn. lia.
  - change (Zsum (x :: l)) with (x + Zsum l). cbn [length]. lia.
Qed.

Lemma sample_sales_range (g : RandomState) :
  Forall (fun x => 1000 <= x <= 19999) (column sales (fst (create_sample_data g))).
Proof.
  rewrite column_sample. apply Forall_map.
  eapply Forall_impl; [|apply (sample_records_ok g)].
  intros s (_ & _ & _ & d & (Hs & _) & E). rewrite E. cbn [sale_of_draws sales].
  lia.
Qed.

Lemma sample_products (g : RandomState) :
  column product (fst (create_sample_data g)) = map snd grid.
Proof.
  rewrite column_sample, <- (sample_records_keys g), map_map. reflexivity.
Qed.

Lemma sample_unique_products (g : RandomState) :
  unique_products (fst (create_sample_data g)) = 13%nat.
Proof.
  unfold unique_products. rewrite sample_products. vm_compute. reflexivity.
Qed.

(** X6. The cards of the generated sample.  Whatever the generator draws
    and whatever is selected, the total sales of the view is the exact sum
    of its sales, between 1000 and 19999 times its number of transactions
    and at most the total of the whole sample; the view has at most 403
    transactions and at most 13 distinct products, and the whole sample has
    exactly 13. *)
Theorem sample_view_kpis (g : RandomState) (ui : Sidebar) :
  let d := fst (create_sample_data g) in
  let f := filtered_df d ui in
  total_sales f = Zsum (column sales f)
  /\ 1000 * Z.of_nat (length f) <= total_sales f
     <= 19999 * Z.of_nat (length f)
  /\ total_sales f <= total_sales d
  /\ (length f <= 403)%nat
  /\ unique_products d = 13%nat
  /\ (unique_products f <= 13)%nat.
Proof.
  intros d f.
  pose proof (sample_sales_range g) as Hd. fold d in Hd.
  pose proof (sample_length g) as Hlen. fold d in Hlen.
  assert (Hf : Forall (fun x => 1000 <= x <= 19999) (column sales f))
    by (eapply Subseq_Forall; [apply column_Subseq|exact Hd]).
  pose proof (Zsum_bounds _ _ _ Hd) as Bd.
  pose proof (Zsum_bounds _ _ _ Hf) as Bf.
  assert (Lc : forall x : DataFrame, length (column sales x) = length x).
  { intros x. unfold column, records. now rewrite !length_map. }
  rewrite !Lc in Bd, Bf. rewrite Hlen in Bd.
  pose proof (Subseq_length _ _ (filtered_df_Subseq d ui)) as Lf.
  fold f in Lf. rewrite Hlen in Lf.
  assert (Hpos : Forall (fun r => 0 <= sales (sale r)) (records d)).
  { unfold column in Hd. rewrite Forall_map in Hd.
    eapply Forall_impl; [|exact Hd]. cbv beta. intros; lia. }
  destruct (filtered_total_sales_bounds_aux d ui Hpos ltac:(lia)) as (E & _ & Le).
  fold f in E, Le.
  pose proof (sample_unique_products g) as P13. fold d in P13.
  split; [exact E|]. split; [rewrite E; lia|].
  split; [exact Le|]. split; [exact Lf|]. split; [exact P13|].
  rewrite <- P13.
  exact (proj1 (proj2 (view_products_bounds d ui))).
Qed.

(** ** How a run ends *)

Lemma series_min_none (l : list Timestamp) : series_min l = None <-> l = [].
Proof. destruct l; split; intros H; try reflexivity; discriminate. Qed.

Lemma column_nil {A} (f : Sale Timestamp -> A) (df : DataFrame) :
  column f df = [] <-> df = [].
Proof.
  unfold column, records. rewrite map_map.
  destruct df; split; intros H; try reflexivity; discriminate.
Qed.

(** An empty view has no marker sizes to validate. *)
Lemma sizes_valid_nil : sizes_valid [] = true.
Proof. reflexivity. Qed.

(** Sales that are not negative and do not wrap give no negative size. *)
Lemma sizes_valid_nonneg (f : DataFrame) :
  Forall (fun r => 0 <= sales (sale r)) (records f) ->
  Zsum (column sales f) < 2 ^ 63 ->
  sizes_valid f = true.
Proof.
  intros Hpos Hfit. unfold sizes_valid, product_sales, groupby_sum.
  apply forallb_forall. intros [k z] Hin.
  apply in_map_iff in Hin as (k' & E & _). injection E as _ <-.
  cbn [snd]. apply Z.leb_le.
  assert (Hcol : Forall (fun x => 0 <= x) (column sales f)).
  { unfold column. apply Forall_map. exact Hpos. }
  assert (Hsub : Subseq
                   (map (fun r => sales (sale r))
                      (records (getitem_mask f
                         (fun r => String.eqb (product (sale r)) k'))))
                   (column sales f)).
  { unfold column, records, getitem_mask. rewrite !map_map.
    apply Subseq_map, Subseq_filter. }
  pose proof (Subseq_Zsum _ _ Hsub Hcol) as B.
  rewrite int64_sum_Zsum, wrap64_small; lia.
Qed.

(** The generated sample has sales from 1000 up, 403 rows of them. *)
Lemma sample_sizes_valid (g : RandomState) :
  sizes_valid (fst (create_sample_data g)) = true.
Proof.
  set (d := fst (create_sample_data g)).
  pose proof (sample_sales_range g) as Hd. fold d in Hd.
  pose proof (sample_length g) as Hlen. fold d in Hlen.
  pose proof (Zsum_bounds _ _ _ Hd) as Bd.
  assert (Lc : length (column sales d) = length d)
    by (unfold column, records; now rewrite !length_map).
  rewrite Lc, Hlen in Bd.
  apply sizes_valid_nonneg.
  - unfold column in Hd. rewrite Forall_map in Hd.
    eapply Forall_impl; [|exact Hd]. cbv beta. intros; lia.
  - apply Z.le_lt_trans with (19999 * Z.of_nat 403); [apply Bd|reflexivity].
Qed.

Lemma run_outcome format_float format_datetime strftime
  groupby_agg nlargest sort_values (df : nat) (ui : Sidebar) (w : World)
  (d : DataFrame) :
  nth_error (heap w) df = Some (OFrame d) ->
  let f := filtered_df d ui in
  let run := render format_float format_datetime strftime groupby_agg
               nlargest sort_values df ui w in
  let shown := events_before_info format_float format_datetime groupby_agg
                 nlargest sort_values d f ui in
  let early := events_before_scatter groupby_agg nlargest d f in
  length early = 8%nat
  /\ length shown = (if button ui then 11 else 10)%nat
  /\ (sizes_valid f = false ->
      f <> []
      /\ fst run = Raise ValueError /\ page (snd run) = page w ++ early)
  /\ (f = [] ->
      fst run = Raise ValueError /\ page (snd run) = page w ++ shown)
  /\ (sizes_valid f = true -> f <> [] ->
      exists fdf max_date first_day last_day,
        series_max (column date d) = Some max_date
        /\ series_min (column date f) = Some first_day
        /\ series_max (column date f) = Some last_day
        /\ fst run = Return fdf
        /\ page (snd run)
           = page w ++ shown
             ++ [Info (strftime "%d/%m/%Y" max_date) (length f)
                      (strftime "%d/%m" first_day)
                      (strftime "%d/%m" last_day)]).
Proof.
  intros Hdf f run shown early.
  destruct (render_run format_float format_datetime strftime groupby_agg
              nlargest sort_values df ui w d Hdf) as (fdf & h & Hrun).
  fold f in Hrun. fold run in Hrun. cbv zeta in Hrun. fold shown in Hrun.
  fold early in Hrun.
  split; [reflexivity|]. split; [|split; [|split]].
  - unfold shown, events_before_info, kpi_events, chart_events, table_events,
      export_events.
    rewrite !length_app. destruct (button ui); reflexivity.
  - intros Hs. rewrite Hs in Hrun. rewrite Hrun.
    split; [|split; reflexivity].
    intros E. rewrite E in Hs. discriminate Hs.
  - intros E.
    assert (Hs : sizes_valid f = true) by (rewrite E; reflexivity).
    rewrite Hs in Hrun.
    assert (N : info_event strftime d f = None).
    { unfold info_event. rewrite E. cbn [column records map series_min].
      destruct (series_max (column date d)); reflexivity. }
    rewrite N in Hrun. rewrite Hrun. split; reflexivity.
  - intros Hs NE. rewrite Hs in Hrun.
    assert (Hd : d <> []).
    { intros ->. apply NE. unfold f.
      pose proof (filtered_df_Subseq [] ui) as S. now inversion S. }
    destruct (column date d) as [|x l] eqn:Ed;
      [now apply column_nil in Ed|].
    destruct (column date f) as [|y k] eqn:Ef;
      [now apply column_nil in Ef|].
    unfold info_event in Hrun. rewrite Ed, Ef in Hrun.
    cbn [series_max series_min] in Hrun.
    exists fdf, (fold_left Z.max l x), (fold_left Z.min k y),
      (fold_left Z.max k y).
    rewrite Hrun. cbn [fst snd page series_max series_min].
    repeat split; reflexivity.
Qed.

(** X7. How a run of the script from the filter on ends.  It ends in
    [ValueError] in two cases.  Where a product of the view has summed
    sales below 0, [px.scatter] refuses the marker size: the four cards
    and the first four charts are on the page, 8 elements, and neither the
    table nor the download follows.  Where the view is empty, formatting
    its missing first date fails: the four cards, the five charts, the
    table and (if the button was clicked) the download are on the page, 10
    or 11 elements.  In every other case these 10 or 11 elements are
    followed by the information panel, and the run returns. *)
Theorem how_a_run_ends format_float format_datetime strftime
  groupby_agg nlargest sort_values (df : nat) (ui : Sidebar) (w : World)
  (d : DataFrame) :
  nth_error (heap w) df = Some (OFrame d) ->
  let f := filtered_df d ui in
  let run := render format_float format_datetime strftime groupby_agg
               nlargest sort_values df ui w in
  let shown := events_before_info format_float format_datetime groupby_agg
                 nlargest sort_values d f ui in
  let early := events_before_scatter groupby_agg nlargest d f in
  length early = 8%nat
  /\ length shown = (if button ui then 11 else 10)%nat
  /\ (sizes_valid f = false ->
      f <> []
      /\ fst run = Raise ValueError /\ page (snd run) = page w ++ early)
  /\ (f = [] ->
      fst run = Raise ValueError /\ page (snd run) = page w ++ shown)
  /\ (sizes_valid f = true -> f <> [] ->
      exists fdf max_date first_day last_day,
        series_max (column date d) = Some max_date
        /\ series_min (column date f) = Some first_day
        /\ series_max (column date f) = Some last_day
        /\ fst run = Return fdf
        /\ page (snd run)
           = page w ++ shown
             ++ [Info (strftime "%d/%m/%Y" max_date) (length f)
                      (strftime "%d/%m" first_day)
                      (strftime "%d/%m" last_day)]).
Proof. apply run_outcome. Qed.

(** ** Loading a file that can be read *)

(** The row of the frame that comes from the file row [s]. *)
Definition row_of (parse : string -> option Timestamp) (s : Sale string)
  (r : Row) : Prop :=
  parse (date s) = Some (date (sale r))
  /\ category (sale r) = category s
  /\ product (sale r) = product s
  /\ sales (sale r) = sales s
  /\ profit (sale r) = profit s
  /\ customers (sale r) = customers s
  /\ region (sale r) = region s.

Lemma to_datetime_column_returns parse (l : Frame (Sale string)) :
  Forall (fun s => parse (date s) <> None) (records l) ->
  exists d,
    to_datetime_column parse l = Return d
    /\ index d = index l
    /\ Forall2 (fun s r => row_of parse s (add_margin r))
               (records l) (records d).
Proof.
  induction l as [|[i s] l IH]; intros H.
  - exists []. repeat split. constructor.
  - cbn [records map snd] in H. inversion H as [|? ? Hs Hl]; subst.
    destruct (IH Hl) as (d & E & Hi & Hr).
    cbn [to_datetime_column]. destruct (parse (date s)) as [ts|] eqn:P;
      [|congruence].
    rewrite E. eexists. split; [reflexivity|]. split.
    + cbn [index map fst]. unfold index in Hi. now rewrite Hi.
    + cbn [records map snd]. constructor; [|exact Hr].
      unfold row_of, add_margin. cbn [sale date category product sales
        profit customers region]. repeat split. exact P.
Qed.

(** X8. Where every date of the file can be parsed, [load_data] returns a
    frame with one row per row of the file, in the order of the file and
    labelled 0, 1, ...: the date parsed, the other six columns as read.
    It puts nothing on the page and draws no random number. *)
Theorem load_data_keeps_file_rows parse (rows : list (Sale string))
  (w : World) :
  Forall (fun s => parse (date s) <> None) rows ->
  exists df,
    load_data (Return rows) parse w = (Return df, w)
    /\ index df = seq 0 (length rows)
    /\ Forall2 (row_of parse) rows (records df).
Proof.
  intros H.
  destruct (to_datetime_column_returns parse (range_index rows)) as
    (d & E & Hi & Hr); [now rewrite records_range_index|].
  exists (assign_margin d). rewrite load_data_read, E.
  split; [reflexivity|]. split.
  - now rewrite index_assign_margin, Hi, index_range_index.
  - rewrite records_assign_margin. rewrite records_range_index in Hr.
    clear - Hr. induction Hr; cbn [map]; constructor; assumption.
Qed.

(** ** The sales delta at the two ends *)

Lemma div_proxy_self (m : positive) : div_proxy (Zpos m) (Zpos m) = 2 ^ 55.
Proof.
  unfold div_proxy.
  pose proof (Z.div_mul (2 ^ 53) (Zpos m) ltac:(lia)) as Q.
  pose proof (Z.mod_mul (2 ^ 53) (Zpos m) ltac:(lia)) as R.
  unfold Z.div, Z.modulo in Q, R.
  rewrite (Z.mul_comm (Zpos m)).
  destruct (Z.div_eucl (2 ^ 53 * Zpos m) (Zpos m)) as [q r].
  cbn [fst snd] in Q, R. subst q r.
  unfold new_location, new_location_even, new_location_odd.
  destruct (Z.even (Zpos m)); reflexivity.
Qed.

(** A positive normal number over itself is 1. *)
Lemma div_self (x : float) : fnice x = true -> (x / x)%float = 1%float.
Proof.
  intros Hx. apply fnice_inv in Hx as (m & e & E & D & B & _).
  rewrite <- (SF2Prim_Prim2SF (x / x)), div_spec, E.
  unfold SF64div. rewrite SFdiv_fin by (auto; lia).
  rewrite div_proxy_self. replace (e - e - 55) with (-55) by lia.
  reflexivity.
Qed.

(** Zero over a positive normal number is zero. *)
Lemma div_zero_l (x : float) : fnice x = true -> (0 / x)%float = 0%float.
Proof.
  intros Hx. apply fnice_inv in Hx as (m & e & E & _).
  rewrite <- (SF2Prim_Prim2SF (0 / x)), div_spec, E. reflexivity.
Qed.

Lemma wrap64_range (z : Z) : - 2 ^ 63 <= wrap64 z < 2 ^ 63.
Proof.
  unfold wrap64.
  pose proof (Z.mod_pos_bound (z + 2 ^ 63) (2 ^ 64) eq_refl) as B.
  change (2 ^ 64) with (2 * 2 ^ 63) in *. lia.
Qed.

Lemma of_Z_int64_nice (z : Z) : 0 < z < 2 ^ 63 -> fnice (of_Z z) = true.
Proof.
  intros Hz.
  apply (fnice_between (of_Z 1) (of_Z (2 ^ 63))).
  - vm_compute. reflexivity.
  - vm_compute. reflexivity.
  - apply of_Z_le; [lia|]. apply Z.lt_trans with (2 ^ 63); [lia|reflexivity].
  - apply of_Z_le; [lia|reflexivity].
Qed.

(** X9. The delta of the first card at the two ends.  Where the total
    sales of the loaded frame is positive, the delta is exactly 0 for the
    view that is the whole frame (nothing filtered out), and exactly -100
    for the empty view. *)
Theorem delta_sales_whole_and_empty_view (d : DataFrame) :
  0 < total_sales d ->
  delta_sales d d = 0%float /\ delta_sales d [] = (-100)%float.
Proof.
  intros Hpos. unfold total_sales in Hpos.
  assert (N : fnice (of_Z (int64_sum (column sales d))) = true).
  { apply of_Z_int64_nice. split; [exact Hpos|].
    rewrite int64_sum_Zsum. apply wrap64_range. }
  unfold delta_sales. split.
  - rewrite (div_self _ N). reflexivity.
  - change (of_Z (int64_sum (column sales []))) with 0%float.
    rewrite (div_zero_l _ N). reflexivity.
Qed.

(** ** The customers and the profit of a generated record *)

Lemma forall_from_spec (f : Z -> bool) (lo : Z) (n : nat) (z : Z) :
  forall_from f lo n = true -> lo <= z < lo + Z.of_nat n -> f z = true.
Proof.
  intros H Hz. rewrite <- forallb_Zseq, forallb_forall in H.
  apply H. now apply Zseq_In.
Qed.

Lemma binade_facts (e : Z) :
  -400 <= e <= 400 ->
  fnice (binade_bottom e) = true /\ fnice (binade_top e) = true
  /\ exponent_of (binade_bottom e) = e /\ exponent_of (binade_top e) = e
  /\ Prim2SF (binade_bottom e) = fin 4503599627370496 e.
Proof.
  intros B.
  assert (Hb : Prim2SF (binade_bottom e) = fin 4503599627370496 e).
  { apply Prim2SF_SF2Prim. apply (fin_of_valid (2 ^ 52, e)); cbn; lia. }
  assert (Ht : Prim2SF (binade_top e) = fin 9007199254740991 e).
  { apply Prim2SF_SF2Prim. apply (fin_of_valid (2 ^ 53 - 1, e)); cbn; lia. }
  unfold fnice, exponent_of. rewrite Hb, Ht.
  unfold fin. cbn [nice].
  change (Zdigits2 4503599627370496) with 53.
  change (Zdigits2 9007199254740991) with 53.
  repeat split; rewrite !andb_true_iff, Z.eqb_eq, !Z.leb_le; lia.
Qed.

(** Division by [c] is monotone from one binade to the next ones, once it
    is across every binade boundary in between. *)
Lemma div_mono_chain (c : float) (n : nat) :
  fnice c = true ->
  forall x y : float,
    fnice x = true -> fnice y = true -> fle x y ->
    exponent_of y - exponent_of x = Z.of_nat n ->
    (forall e, exponent_of x <= e < exponent_of y ->
               fle (binade_top e / c) (binade_bottom (e + 1) / c)) ->
    fle (x / c) (y / c).
Proof.
  intros Hc. induction n as [|n IH]; intros x y Hx Hy Hle He Hstep.
  - apply div_mono_binade; auto. lia.
  - set (e := exponent_of x) in *.
    destruct (fnice_inv y Hy) as (my & ey & Ey & Dy & By & Ey').
    destruct (fnice_inv x Hx) as (mx & ex & Ex & Dx & Bx & Ex').
    fold e in Ex'. subst ex.
    assert (Be : -400 <= e + 1 <= 400) by lia.
    destruct (binade_facts (e + 1) Be) as (Nb & _ & Eb & _ & Pb).
    destruct (binade_facts e Bx) as (_ & Nt & _ & _ & _).
    destruct (div_in_binade x c Hx Hc) as [_ Dt]. fold e in Dt.
    assert (Lb : fle (binade_bottom (e + 1)) y).
    { apply fle_SFleb. rewrite Pb, Ey. apply SFleb_finite_pos.
      unfold le53. cbn [fst snd].
      pose proof (digits53_bounds my Dy) as Bm.
      change (2 ^ 52) with 4503599627370496 in Bm. lia. }
    assert (Hrest : fle (binade_bottom (e + 1) / c) (y / c)).
    { apply IH; auto.
      - rewrite Eb. lia.
      - intros e' He'. rewrite Eb in He'. apply Hstep. lia. }
    eapply fle_trans; [|exact Dt|].
    + now apply div_fpos.
    + eapply fle_trans; [|apply Hstep; lia|exact Hrest].
      now apply div_fpos.
Qed.

(** The quotient of two positive normal numbers of moderate exponents. *)
Lemma div_fnice (x c : float) :
  fnice x = true -> fnice c = true ->
  -300 <= exponent_of x - exponent_of c <= 300 ->
  fnice (x / c) = true
  /\ exponent_of (x / c) <= exponent_of x - exponent_of c - 51.
Proof.
  intros Hx Hc He.
  apply fnice_inv in Hx as (mx & ex & Ex & Dx & Bx & Ex').
  apply fnice_inv in Hc as (mc & ec & Ec & Dc & Bc & Ec').
  rewrite Ex', Ec' in *. clear Ex' Ec'.
  unfold fnice, exponent_of. rewrite div_spec, Ex, Ec.
  unfold SF64div. rewrite SFdiv_fin by (auto; lia).
  destruct (div_proxy_bits mx mc Dx Dc) as (P & Dp & _).
  destruct (div_proxy (Zpos mx) (Zpos mc)) as [|p|p]; try lia.
  destruct (round53_shape p (ex - ec - 55) ltac:(lia)) as [Sm Se].
  cbv zeta in Sm, Se.
  set (o := round53 (Zpos p) (ex - ec - 55)) in *.
  unfold fin_of, fin. cbn [nice].
  destruct (fst o) as [|q|q] eqn:Eo; try lia.
  cbn [Z.to_pos].
  assert (Dq : Zdigits2 (Zpos q) = 53).
  { apply Zdigits2_unique; [lia|].
    replace (53 - 1) with 52 by lia. exact Sm. }
  rewrite Dq. split.
  - rewrite !andb_true_iff, Z.eqb_eq, !Z.leb_le. lia.
  - lia.
Qed.

(** Python's [int] is monotone on the positive normal numbers of negative
    exponent. *)
Lemma int_mono (x y : float) :
  fnice x = true -> fnice y = true -> fle x y -> exponent_of y < 0 ->
  int x <= int y.
Proof.
  intros Hx Hy Hle Hneg. apply fle_SFleb in Hle.
  apply fnice_inv in Hx as (mx & ex & Ex & Dx & Bx & Ex').
  apply fnice_inv in Hy as (my & ey & Ey & Dy & By & Ey').
  rewrite Ey' in Hneg. rewrite Ex, Ey in Hle.
  apply SFleb_finite_pos in Hle. unfold le53 in Hle. cbn [fst snd] in Hle.
  pose proof (digits53_bounds mx Dx) as Bmx.
  pose proof (digits53_bounds my Dy) as Bmy.
  unfold int, to_Z_trunc. rewrite Ex, Ey. unfold fin.
  destruct ex as [|px|px]; try lia. destruct ey as [|py|py]; try lia.
  destruct Hle as [Hlt|[Heq Hm]].
  - assert (E : 2 ^ Zpos px = 2 ^ (Zpos px - Zpos py) * 2 ^ Zpos py).
    { rewrite <- Z.pow_add_r by lia. f_equal. lia. }
    rewrite E.
    pose proof (pow2_pos (Zpos px - Zpos py) ltac:(lia)) as P1.
    pose proof (pow2_pos (Zpos py) ltac:(lia)) as P2.
    rewrite <- Z.div_div by lia.
    apply Z.div_le_mono; [lia|].
    apply Z.lt_le_incl, Z.div_lt_upper_bound; [lia|].
    assert (2 <= 2 ^ (Zpos px - Zpos py)).
    { change 2 with (2 ^ 1) at 1. apply Z.pow_le_mono_r; lia. }
    change (2 ^ 53) with (2 * 2 ^ 52) in Bmx. nia.
  - injection Heq as ->.
    apply Z.div_le_mono; [apply pow2_pos; lia|exact Hm].
Qed.

(** For the divisor [dv]: division by it is monotone across the binade
    boundaries between 512 and 32768, and for the quotient [k] the least
    and the greatest numerator with that integer quotient give it. *)
Definition check_quotient (dv k : Z) : bool :=
  let D := of_Z dv in
  (int (of_Z (k * dv) / D) =? k) && (int (of_Z (k * dv + dv - 1) / D) =? k).

Definition check_boundary (dv e : Z) : bool :=
  (binade_top e / of_Z dv <=? binade_bottom (e + 1) / of_Z dv)%float.

Definition check_divisor (dv : Z) : bool :=
  forall_from (check_boundary dv) (-43) 5
  && forall_from (check_quotient dv) (1000 / dv)
       (Z.to_nat (19999 / dv - 1000 / dv + 1)).

Lemma check_all_divisors : forall_from check_divisor 40 20 = true.
Proof. vm_compute. reflexivity. Qed.

(** [int(sales / divisor)] of the generator is the floor division. *)
Lemma customers_floor (s dv : Z) :
  1000 <= s < 20000 -> 40 <= dv < 60 ->
  int (of_Z s / of_Z dv) = s / dv.
Proof.
  intros Hs Hdv.
  pose proof (forall_from_spec _ _ _ dv check_all_divisors
                ltac:(change (Z.of_nat 20) with 20; lia)) as Hc.
  unfold check_divisor in Hc. apply andb_true_iff in Hc as [Hb Hq].
  set (k := s / dv).
  pose proof (Z.div_mod s dv ltac:(lia)) as Edm.
  pose proof (Z.mod_pos_bound s dv ltac:(lia)) as Bm.
  fold k in Edm.
  assert (Hk1 : 1000 / dv <= k) by (apply Z.div_le_mono; lia).
  assert (Hk2 : k <= 19999 / dv) by (apply Z.div_le_mono; lia).
  assert (Hk : 16 <= k <= 499).
  { pose proof (Z.mul_div_le s dv ltac:(lia)). fold k in H. split; nia. }
  pose proof (forall_from_spec _ _ _ k Hq
                ltac:(rewrite Z2Nat.id by lia; lia)) as Hck.
  unfold check_quotient in Hck. cbv zeta in Hck.
  apply andb_true_iff in Hck as [Hlo Hhi].
  apply Z.eqb_eq in Hlo, Hhi.
  set (D := of_Z dv) in *.
  set (L := of_Z (k * dv)) in *. set (H := of_Z (k * dv + dv - 1)) in *.
  assert (ND : fnice D = true) by (apply of_Z_int64_nice; lia).
  assert (NL : fnice L = true) by (apply of_Z_int64_nice; nia).
  assert (NH : fnice H = true) by (apply of_Z_int64_nice; nia).
  assert (NS : fnice (of_Z s) = true) by (apply of_Z_int64_nice; lia).
  assert (N512 : fnice (of_Z 512) = true) by (vm_compute; reflexivity).
  assert (N32k : fnice (of_Z 32767) = true) by (vm_compute; reflexivity).
  assert (LS : fle L (of_Z s)) by (apply of_Z_le; [nia|reflexivity || lia]).
  assert (SH : fle (of_Z s) H) by (apply of_Z_le; [nia|nia]).
  assert (L0 : fle (of_Z 512) L) by (apply of_Z_le; [nia|nia]).
  assert (H0 : fle H (of_Z 32767)) by (apply of_Z_le; [nia|reflexivity]).
  assert (S0 : fle (of_Z 512) (of_Z s)) by (apply of_Z_le; lia).
  assert (S1 : fle (of_Z s) (of_Z 32767)) by (apply of_Z_le; [lia|reflexivity]).
  pose proof (exponent_between _ _ _ N512 N32k L0
                (fle_trans _ _ _ (fnice_fpos _ NS) LS S1)) as EL.
  pose proof (exponent_between _ _ _ N512 N32k S0 S1) as ES.
  pose proof (exponent_between _ _ _ N512 N32k
                (fle_trans _ _ _ (fnice_fpos _ NS) S0 SH) H0) as EH.
  change (exponent_of (of_Z 512)) with (-43) in *.
  change (exponent_of (of_Z 32767)) with (-38) in *.
  assert (ED : exponent_of D = -47).
  { assert (N40 : fnice (of_Z 40) = true) by (vm_compute; reflexivity).
    assert (N59 : fnice (of_Z 59) = true) by (vm_compute; reflexivity).
    pose proof (exponent_between (of_Z 40) (of_Z 59) D N40 N59
                  ltac:(apply of_Z_le; lia) ltac:(apply of_Z_le; lia)) as E.
    change (exponent_of (of_Z 40)) with (-47) in E.
    change (exponent_of (of_Z 59)) with (-47) in E. lia. }
  assert (Hstep : forall e, -43 <= e < -38 ->
                    fle (binade_top e / D) (binade_bottom (e + 1) / D)).
  { intros e He.
    exact (forall_from_spec _ _ _ e Hb
             ltac:(change (Z.of_nat 5) with 5; lia)). }
  pose proof (exponent_between _ _ _ NL NH LS SH) as ELS.
  assert (Q1 : fle (L / D) (of_Z s / D)).
  { apply (div_mono_chain D (Z.to_nat (exponent_of (of_Z s) - exponent_of L)));
      auto; [rewrite Z2Nat.id; lia|].
    intros e He. apply Hstep. lia. }
  assert (Q2 : fle (of_Z s / D) (H / D)).
  { apply (div_mono_chain D (Z.to_nat (exponent_of H - exponent_of (of_Z s))));
      auto; [rewrite Z2Nat.id; lia|].
    intros e He. apply Hstep. lia. }
  destruct (div_fnice L D NL ND ltac:(lia)) as [NqL _].
  destruct (div_fnice (of_Z s) D NS ND ltac:(lia)) as [NqS EqS].
  destruct (div_fnice H D NH ND ltac:(lia)) as [NqH EqH].
  pose proof (int_mono _ _ NqL NqS Q1 ltac:(lia)) as I1.
  pose proof (int_mono _ _ NqS NqH Q2 ltac:(lia)) as I2.
  lia.
Qed.

(** X10. Every record [create_sample_data] produces has as customers the
    floor of its sales over the divisor drawn by [randint(40, 60)]: the
    float division and [int] lose nothing.  So the customers are between
    16 and 499, never zero. *)
Theorem sample_customers_floor_division (g : RandomState) :
  Forall (fun r : Row =>
            exists divisor : Z,
              40 <= divisor < 60
              /\ customers (sale r) = sales (sale r) / divisor
              /\ 16 <= customers (sale r) <= 499)
         (records (fst (create_sample_data g))).
Proof.
  rewrite create_sample_data_fst, records_assign_margin, records_range_index.
  apply Forall_map.
  eapply Forall_impl; [|apply (sample_records_ok g)].
  intros s (_ & _ & _ & d & (Hsales & _ & Hdiv & _) & Hs).
  assert (Es : sales s = drawn_sales d) by (rewrite Hs; reflexivity).
  assert (Ec : customers s
               = int (of_Z (drawn_sales d) / of_Z (drawn_divisor d))%float)
    by (rewrite Hs; reflexivity).
  unfold add_margin. cbn [sale].
  exists (drawn_divisor d). rewrite Ec, Es, customers_floor by assumption.
  split; [exact Hdiv|]. split; [reflexivity|].
  pose proof (Z.div_mod (drawn_sales d) (drawn_divisor d) ltac:(lia)) as E.
  pose proof (Z.mod_pos_bound (drawn_sales d) (drawn_divisor d) ltac:(lia)).
  split; nia.
Qed.

Lemma profit_of_draws_range (d : Draws) :
  draws_ok d ->
  fle (of_Z (250 * 1)) (of_Z (drawn_sales d) * factor_of (drawn_k d))
  /\ fle (of_Z (drawn_sales d) * factor_of (drawn_k d)) (of_Z (7000 * 1)).
Proof.
  intros (Hsales & Hk & _ & _).
  destruct (factor_range _ Hk) as [F1 F2].
  assert (N25 : fnice 0.25 = true) by (vm_compute; reflexivity).
  assert (N35 : fnice 0.35 = true) by (vm_compute; reflexivity).
  pose proof (fnice_between _ _ _ N25 N35 F1 F2) as Nf.
  set (S := of_Z (drawn_sales d)).
  assert (NS : fnice S = true) by (apply of_Z_int64_nice; lia).
  assert (Nlo : fnice (of_Z 1000) = true) by (vm_compute; reflexivity).
  assert (Nhi : fnice (of_Z 19999) = true) by (vm_compute; reflexivity).
  assert (S1 : fle (of_Z 1000) S) by (apply of_Z_le; lia).
  assert (S2 : fle S (of_Z 19999)) by (apply of_Z_le; [lia|reflexivity]).
  pose proof (mul_mono_r S _ _ NS N25 Nf F1) as P1.
  pose proof (mul_mono_r S _ _ NS Nf N35 F2) as P2.
  pose proof (mul_mono_l 0.25 _ _ N25 Nlo NS S1) as A1.
  pose proof (mul_mono_l 0.25 _ _ N25 NS Nhi S2) as A2.
  pose proof (mul_mono_l 0.35 _ _ N35 Nlo NS S1) as B1.
  pose proof (mul_mono_l 0.35 _ _ N35 NS Nhi S2) as B2.
  assert (Na1 : fnice (of_Z 1000 * 0.25) = true) by (vm_compute; reflexivity).
  assert (Na2 : fnice (of_Z 19999 * 0.25) = true) by (vm_compute; reflexivity).
  assert (Nb1 : fnice (of_Z 1000 * 0.35) = true) by (vm_compute; reflexivity).
  assert (Nb2 : fnice (of_Z 19999 * 0.35) = true) by (vm_compute; reflexivity).
  pose proof (fnice_between _ _ _ Na1 Na2 A1 A2) as NA.
  pose proof (fnice_between _ _ _ Nb1 Nb2 B1 B2) as NB.
  split.
  - apply (fle_trans _ (S * 0.25)); [now apply fnice_fpos| |exact P1].
    apply (fle_trans _ (of_Z 1000 * 0.25)); [|vm_compute; reflexivity|exact A1].
    now apply fnice_fpos.
  - apply (fle_trans _ (S * 0.35)); [now apply fnice_fpos|exact P2|].
    apply (fle_trans _ (of_Z 19999 * 0.35)); [|exact B2|vm_compute; reflexivity].
    now apply fnice_fpos.
Qed.

(** X11. Every record [create_sample_data] produces has a profit between
    250 and 7000, the bounds of a quarter of the least and 35 percent of
    the greatest sales value. *)
Theorem sample_profit_range (g : RandomState) :
  Forall (fun r : Row =>
            (250 <=? profit (sale r))%float = true
            /\ (profit (sale r) <=? 7000)%float = true)
         (records (fst (create_sample_data g))).
Proof.
  rewrite create_sample_data_fst, records_assign_margin, records_range_index.
  apply Forall_map.
  eapply Forall_impl; [|apply (sample_records_ok g)].
  intros s (_ & _ & _ & d & Hd & Hs).
  assert (Ep : profit s = (of_Z (drawn_sales d) * factor_of (drawn_k d))%float)
    by (rewrite Hs; reflexivity).
  unfold add_margin. cbn [sale]. rewrite Ep.
  exact (profit_of_draws_range d Hd).
Qed.

(** ** The period of the information panel *)

Lemma fold_min_In (l : list Z) (a : Z) :
  fold_left Z.min l a = a \/ In (fold_left Z.min l a) l.
Proof.
  revert a. induction l as [|x l IH]; intros a; cbn [fold_left]; [now left|].
  destruct (IH (Z.min a x)) as [E|H].
  - rewrite E. destruct (Z.min_spec a x) as [[_ M]|[_ M]]; rewrite M.
    + now left.
    + right. now left.
  - right. now right.
Qed.

Lemma series_min_In (l : list Timestamp) (a : Timestamp) :
  series_min l = Some a -> In a l.
Proof.
  destruct l as [|x l]; [discriminate|]. intros H. injection H as <-.
  destruct (fold_min_In l x) as [E|H]; [rewrite E; now left|now right].
Qed.

(** X12. The period the information panel shows.  With a complete date
    range selected and a view that is not empty, the first and the last
    day of the panel are dates of rows of the view, the first not after
    the last, both inside the selected range, and the last not after the
    latest date of the loaded data (the "updated" date of the panel). *)
Theorem info_period_within_selection (d : DataFrame) (d0 d1 : Z)
  (cats regs : list string) (view : string) (clicked : bool) (t : DateTime)
  (first_day last_day : Timestamp) :
  let f := filtered_df d (mkSidebar [d0; d1] cats regs view clicked t) in
  series_min (column date f) = Some first_day ->
  series_max (column date f) = Some last_day ->
  In first_day (column date f) /\ In last_day (column date f)
  /\ to_datetime d0 <= first_day <= last_day
  /\ last_day <= to_datetime d1
  /\ exists max_date, series_max (column date d) = Some max_date
                      /\ last_day <= max_date.
Proof.
  intros f Hmin Hmax.
  pose proof (series_min_In _ _ Hmin) as I1.
  pose proof (series_max_In _ _ Hmax) as I2.
  pose proof (series_min_le _ _ Hmin) as L1. rewrite Forall_forall in L1.
  assert (Hsel : forall x, In x (column date f) ->
                           to_datetime d0 <= x <= to_datetime d1).
  { intros x Hx. unfold column, records in Hx. rewrite map_map in Hx.
    apply in_map_iff in Hx as (ir & <- & Hin).
    unfold f, filtered_df, getitem_mask in Hin.
    cbn [date_range selected_categories selected_regions] in Hin.
    apply filter_In in Hin as [_ Hm]. apply mask_selected in Hm.
    exact (proj1 Hm). }
  pose proof (Hsel _ I1). pose proof (Hsel _ I2). pose proof (L1 _ I2).
  split; [exact I1|]. split; [exact I2|]. split; [lia|]. split; [lia|].
  assert (Id : In last_day (column date d))
    by (eapply Subseq_In; [apply column_Subseq|exact I2]).
  destruct (column date d) as [|x l] eqn:E; [destruct Id|].
  eexists. split; [reflexivity|].
  assert (Hs : series_max (x :: l) = Some (fold_left Z.max l x)) by reflexivity.
  pose proof (series_max_ge _ _ Hs) as G. rewrite Forall_forall in G.
  now apply G.
Qed.

(** ** The options of the multiselects *)

Lemma sample_categories_column (g : RandomState) :
  column category (fst (create_sample_data g))
  = map (fun k => snd (fst k)) grid.
Proof.
  rewrite column_sample, <- (sample_records_keys g), map_map. reflexivity.
Qed.

Lemma sample_dates_column (g : RandomState) :
  column date (fst (create_sample_data g)) = map (fun k => fst (fst k)) grid.
Proof.
  rewrite column_sample, <- (sample_records_keys g), map_map. reflexivity.
Qed.

Lemma sample_regions_column (g : RandomState) :
  Forall (fun r => In r Sample.regions)
         (column region (fst (create_sample_data g))).
Proof.
  rewrite column_sample. apply Forall_map.
  eapply Forall_impl; [|apply (sample_records_ok g)].
  intros s (_ & _ & _ & dr & (_ & _ & _ & Hreg) & E).
  rewrite E. exact Hreg.
Qed.

(** X13. The category and region options of the sidebar are the distinct
    values of the loaded data: no value twice, and a value is offered
    exactly when some row has it.  For the generated sample the categories
    offered are always the three of the generator, in its order, and the
    regions offered are among its three. *)
Theorem sidebar_options (df : DataFrame) :
  NoDup (categories df) /\ NoDup (regions df)
  /\ (forall c, In c (categories df) <-> In c (column category df))
  /\ (forall r, In r (regions df) <-> In r (column region df))
  /\ forall g : RandomState,
       categories (fst (create_sample_data g)) = Sample.categories
       /\ incl (regions (fst (create_sample_data g))) Sample.regions
       /\ (1 <= length (regions (fst (create_sample_data g))) <= 3)%nat.
Proof.
  unfold categories, regions.
  split; [apply unique_NoDup|]. split; [apply unique_NoDup|].
  split; [intros c; apply unique_In|]. split; [intros r; apply unique_In|].
  intros g. pose proof (sample_regions_column g) as Hreg.
  rewrite Forall_forall in Hreg.
  assert (Hincl : incl (unique (column region (fst (create_sample_data g))))
                       Sample.regions).
  { intros r Hr. apply Hreg. exact (proj1 (unique_In _ _) Hr). }
  split; [|split; [exact Hincl|split]].
  - rewrite sample_categories_column. vm_compute. reflexivity.
  - destruct (fst (create_sample_data g)) as [|ir l] eqn:E.
    + pose proof (sample_length g) as L. rewrite E in L. discriminate L.
    + cbn. lia.
  - change 3%nat with (length Sample.regions).
    apply NoDup_incl_length; [apply unique_NoDup|exact Hincl].
Qed.

(** ** The first run without a file *)

Definition jan (d : Z) : Timestamp := to_datetime (days_from_civil 2024 1 d).

Lemma sample_date_span (g : RandomState) :
  series_min (column date (fst (create_sample_data g))) = Some (jan 1)
  /\ series_max (column date (fst (create_sample_data g))) = Some (jan 31).
Proof.
  rewrite sample_dates_column. split; vm_compute; reflexivity.
Qed.

(** X14. A run with [data.csv] missing and the filters untouched.  The
    page gets the warning, then the cards, charts, table and (if asked)
    the download computed over the whole generated sample, then the
    information panel for 403 records from 1 to 31 January 2024; the run
    returns, and the fourth card shows 13 products in 403 transactions. *)
Theorem first_run_without_file parse format_float format_datetime strftime
  groupby_agg nlargest sort_values (view : string) (clicked : bool)
  (t : DateTime) (w : World) :
  let d := fst (create_sample_data (rng w)) in
  exists ui fdf w',
    default_sidebar d view clicked t = Some ui
    /\ filtered_df d ui = d
    /\ dashboard (Raise FileNotFoundError) parse format_float format_datetime
         strftime groupby_agg nlargest sort_values ui w
       = (Return fdf, w')
    /\ page w'
       = page w ++ [Warning warning_msg]
         ++ events_before_info format_float format_datetime groupby_agg
              nlargest sort_values d d ui
         ++ [Info (strftime "%d/%m/%Y" (jan 31)) 403
                  (strftime "%d/%m" (jan 1)) (strftime "%d/%m" (jan 31))]
    /\ nth_error (kpi_events d d) 3
       = Some (Metric "Prodotti Venduti" (CInt 13) (CInt 403)).
Proof.
  intros d.
  destruct (sample_date_span (rng w)) as [Hmin Hmax]. fold d in Hmin, Hmax.
  destruct (default_view_whole d view clicked t (jan 31) Hmax eq_refl)
    as (ui & Hui & Hf).
  pose proof (sample_length (rng w)) as Hlen. fold d in Hlen.
  set (w1 := mkWorld (snd (create_sample_data (rng w)))
                     (page w ++ [Warning warning_msg]) (heap w)).
  set (w2 := mkWorld (rng w1) (page w1) (heap w1 ++ [OFrame d])).
  assert (Hdf : nth_error (heap w2) (length (heap w1)) = Some (OFrame d)).
  { unfold w2. cbn [heap]. rewrite nth_error_app2 by lia.
    now rewrite Nat.sub_diag. }
  destruct (render_run format_float format_datetime strftime groupby_agg
              nlargest sort_values (length (heap w1)) ui w2 d Hdf)
    as (fdf & h & Hrun).
  cbv zeta in Hrun. rewrite Hf in Hrun.
  unfold d in Hrun at 1. rewrite sample_sizes_valid in Hrun. fold d in Hrun.
  assert (Hinfo : info_event strftime d d
                  = Some (Info (strftime "%d/%m/%Y" (jan 31)) 403
                               (strftime "%d/%m" (jan 1))
                               (strftime "%d/%m" (jan 31)))).
  { unfold info_event. now rewrite Hmax, Hmin, Hlen. }
  rewrite Hinfo in Hrun.
  exists ui, fdf. eexists. split; [exact Hui|]. split; [exact Hf|]. split.
  - unfold dashboard.
    rewrite (bind_run _ _ _ _ _ (load_data_missing parse w)).
    fold d. fold w1.
    assert (Hnew : new (OFrame d) w1 = (Return (length (heap w1)), w2))
      by reflexivity.
    rewrite (bind_run _ _ _ _ _ Hnew). exact Hrun.
  - split.
    + cbn [page]. unfold w2, w1. cbn [page]. now rewrite <- !app_assoc.
    + unfold kpi_events. cbn [nth_error].
      pose proof (sample_unique_products (rng w)) as P13. fold d in P13.
      now rewrite P13, Hlen.
Qed.

(** ** The tables behind the charts *)

Lemma insert_sorted_perm (x : string) (l : list string) :
  Permutation (insert_sorted x l) (x :: l).
Proof.
  induction l as [|y t IH]; cbn [insert_sorted]; [reflexivity|].
  destruct (String.leb x y); [reflexivity|].
  rewrite IH. apply perm_swap.
Qed.

Lemma sorted_perm (l : list string) : Permutation (sorted l) l.
Proof.
  induction l as [|x l IH]; cbn [sorted fold_right]; [reflexivity|].
  fold (sorted l). rewrite insert_sorted_perm. now constructor.
Qed.

Definition ascending (a b : string) : Prop := String.leb a b = true.

Lemma insert_sorted_Sorted (x : string) (l : list string) :
  Sorted ascending l -> Sorted ascending (insert_sorted x l).
Proof.
  induction 1 as [|y t Hs IH Hhd]; cbn [insert_sorted].
  - repeat constructor.
  - destruct (String.leb x y) eqn:E.
    + constructor; [now constructor|]. now constructor.
    + constructor; [exact IH|].
      assert (Hyx : ascending y x).
      { destruct (String.leb_total x y) as [H|H]; [congruence|exact H]. }
      destruct t as [|z t]; cbn [insert_sorted].
      * now constructor.
      * destruct (String.leb x z); constructor; auto.
        now inversion Hhd.
Qed.

Lemma sorted_Sorted (l : list string) : Sorted ascending (sorted l).
Proof.
  induction l as [|x l IH]; cbn [sorted fold_right]; [constructor|].
  now apply insert_sorted_Sorted.
Qed.

Lemma Zsum_perm (l1 l2 : list Z) : Permutation l1 l2 -> Zsum l1 = Zsum l2.
Proof.
  induction 1 as [|x l1 l2 _ IH|x y l|l1 l2 l3 _ IH1 _ IH2].
  - reflexivity.
  - change (x + Zsum l1 = x + Zsum l2). now rewrite IH.
  - change (y + (x + Zsum l) = x + (y + Zsum l)). lia.
  - congruence.
Qed.

Lemma groupby_sum_keys (key : Row -> string) (value : Row -> Z)
  (df : DataFrame) :
  map fst (groupby_sum key value df) = sorted (unique (map key (records df))).
Proof.
  unfold groupby_sum. rewrite map_map. cbn [fst]. apply map_id.
Qed.

Lemma groupby_sum_total (key : Row -> string) (value : Row -> Z)
  (df : DataFrame) :
  int64_sum (map snd (groupby_sum key value df))
  = int64_sum (map value (records df)).
Proof.
  unfold groupby_sum. rewrite map_map. cbn [snd].
  set (ks := sorted (unique (map key (records df)))).
  assert (Hp : Permutation ks (unique (map key (records df))))
    by apply sorted_perm.
  rewrite (int64_sum_Zsum (map value (records df))).
  rewrite (Zsum_partition key value ks df).
  - rewrite int64_sum_Zsum.
    rewrite (map_ext _ (fun k => wrap64 (Zsum (map value (records
               (getitem_mask df (fun r => String.eqb (key r) k)))))))
      by (intros k; apply int64_sum_Zsum).
    rewrite <- (map_map (fun k => Zsum (map value (records (getitem_mask df
                           (fun r => String.eqb (key r) k))))) wrap64).
    now rewrite wrap64_Zsum_wrap.
  - eapply Permutation_NoDup; [symmetry; exact Hp|apply unique_NoDup].
  - intros ir Hin. eapply Permutation_in; [symmetry; exact Hp|].
    apply unique_In. unfold records. rewrite map_map.
    apply (in_map (fun x => key (snd x))). exact Hin.
Qed.

(** X15. The table of a chart that sums by a key (the pie chart by
    category, the bars by region, the products).  It has one row per
    distinct key of the view, in ascending order and none twice; a key has
    a row exactly when some row of the view has that key; and the sums of
    the rows add up to the [int64] total of the whole view, so the slices
    of the pie add up to the total sales card. *)
Theorem groupby_sum_rows (key : Row -> string) (value : Row -> Z)
  (fdf : DataFrame) :
  let t := groupby_sum key value fdf in
  Sorted ascending (map fst t)
  /\ NoDup (map fst t)
  /\ (forall k, In k (map fst t) <-> In k (map key (records fdf)))
  /\ (forall k v, In (k, v) t ->
        v = int64_sum (map value
                         (filter (fun r => String.eqb (key r) k)
                                 (records fdf))))
  /\ int64_sum (map snd t) = int64_sum (map value (records fdf))
  /\ int64_sum (map snd (category_sales fdf)) = total_sales fdf.
Proof.
  intros t. unfold t. rewrite groupby_sum_keys.
  pose proof (sorted_perm (unique (map key (records fdf)))) as Hp.
  split; [apply sorted_Sorted|].
  split; [eapply Permutation_NoDup; [symmetry; exact Hp|apply unique_NoDup]|].
  split.
  { intros k. split; intros H.
    - apply (proj1 (unique_In _ k)).
      eapply Permutation_in; [exact Hp|exact H].
    - eapply Permutation_in; [symmetry; exact Hp|].
      apply (proj2 (unique_In _ k)). exact H. }
  split.
  { intros k v Hin. unfold groupby_sum in Hin.
    apply in_map_iff in Hin as (k' & E & _). injection E as <- <-.
    f_equal. f_equal. unfold records, getitem_mask.
    clear. induction fdf as [|ir l IH]; [reflexivity|].
    cbn [filter map]. destruct (String.eqb (key (snd ir)) k');
      cbn [map filter]; now rewrite IH. }
  split; [apply groupby_sum_total|].
  unfold category_sales, total_sales, column.
  rewrite groupby_sum_total. reflexivity.
Qed.

Definition falling (a b : string * Z) : Prop := snd b <= snd a.

Lemma insert_desc_perm (x : string * Z) (l : list (string * Z)) :
  Permutation (insert_desc x l) (x :: l).
Proof.
  induction l as [|y t IH]; cbn [insert_desc]; [reflexivity|].
  destruct (snd x <? snd y); [|reflexivity].
  rewrite IH. apply perm_swap.
Qed.

Lemma sort_desc_perm (l : list (string * Z)) : Permutation (sort_desc l) l.
Proof.
  induction l as [|x l IH]; cbn [sort_desc fold_right]; [reflexivity|].
  fold (sort_desc l). rewrite insert_desc_perm. now constructor.
Qed.

Lemma insert_desc_sorted (x : string * Z) (l : list (string * Z)) :
  StronglySorted falling l -> StronglySorted falling (insert_desc x l).
Proof.
  induction 1 as [|y t Hs IH Hall]; cbn [insert_desc].
  - repeat constructor.
  - destruct (snd x <? snd y) eqn:E.
    + apply Z.ltb_lt in E. constructor; [exact IH|].
      apply Forall_forall. intros z Hz.
      apply (Permutation_in _ (insert_desc_perm x t)) in Hz.
      destruct Hz as [<-|Hz]; [unfold falling; lia|].
      rewrite Forall_forall in Hall. now apply Hall.
    + apply Z.ltb_ge in E. constructor; [now constructor|].
      constructor; [exact E|].
      eapply Forall_impl; [|exact Hall]. unfold falling. intros; lia.
Qed.

Lemma sort_desc_sorted (l : list (string * Z)) :
  StronglySorted falling (sort_desc l).
Proof.
  induction l as [|x l IH]; cbn [sort_desc fold_right]; [constructor|].
  now apply insert_desc_sorted.
Qed.

Lemma StronglySorted_split {A} (R : A -> A -> Prop) (l1 l2 : list A) :
  StronglySorted R (l1 ++ l2) ->
  StronglySorted R l1
  /\ Forall (fun x => Forall (fun y => R x y) l2) l1.
Proof.
  induction l1 as [|x l1 IH]; cbn [app]; intros H.
  - split; constructor.
  - inversion H as [|? ? Hs Hall]; subst.
    destruct (IH Hs) as [S1 F1]. apply Forall_app in Hall as [Ha Hb].
    split; constructor; auto.
Qed.

(** X16. The top-products table.  [nlargest(n, 'sales')] keeps [n] rows,
    or all of them if there are fewer; they come in falling order of
    sales; every row left out has sales no greater than every row kept;
    and the kept and the left-out rows together are the rows of the
    table.  For the whole generated sample, 10 of the 13 products are
    kept. *)
Theorem nlargest_sales_rows (n : nat) (t : list (string * Z)) :
  let top := nlargest_sales n t in
  length top = Nat.min n (length t)
  /\ StronglySorted falling top
  /\ (exists rest,
        Permutation t (top ++ rest)
        /\ Forall (fun kept => Forall (fun out => snd out <= snd kept) rest)
                  top)
  /\ forall g : RandomState,
       length (top_products (fst (create_sample_data g))) = 10%nat.
Proof.
  intros top. unfold top, nlargest_sales.
  pose proof (sort_desc_perm t) as Hp.
  pose proof (sort_desc_sorted t) as Hs.
  rewrite <- (firstn_skipn n (sort_desc t)) in Hs.
  destruct (StronglySorted_split _ _ _ Hs) as [S1 F1].
  split; [|split; [exact S1|split]].
  - rewrite length_firstn. now rewrite (Permutation_length Hp).
  - exists (skipn n (sort_desc t)). split; [|exact F1].
    rewrite firstn_skipn. now symmetry.
  - intros g. unfold top_products, nlargest_sales.
    rewrite length_firstn.
    rewrite (Permutation_length (sort_desc_perm _)).
    unfold groupby_sum. rewrite length_map.
    rewrite (Permutation_length (sorted_perm _)).
    pose proof (sample_unique_products g) as P.
    unfold unique_products, column in P. rewrite P. reflexivity.
Qed.

(** ** Reading the export back *)




Lemma length_append (a b : string) :
  String.length (a ++ b) = (String.length a + String.length b)%nat.
Proof. induction a as [|x a IH]; cbn; [reflexivity|now rewrite IH]. Qed.





















(** The proviso is needed: a carriage return in a field that has no comma,
    quote or line feed is written as it is, and read as the end of the
    record. *)
Example line_breaks_of_the_reader :
  let crlf := String cr (String newline EmptyString) in
  read_text ("a,b" ++ crlf ++ crlf ++ "c" ++ String cr "d,")%string
  = Some [["a"; "b"]; []; ["c"]; ["d"; ""]].
Proof. reflexivity. Qed.

Example bare_carriage_return_splits_record :
  let field := String "a" (String cr (String "b" EmptyString)) in
  bare_cr field = true
  /\ read_text (csv_line [field; "c"]) = Some [["a"]; ["b"; "c"]].
Proof. split; reflexivity. Qed.

(** ** Selections that match nothing *)

Lemma filter_none {A} (p : A -> bool) (l : list A) :
  (forall x, In x l -> p x = false) -> filter p l = [].
Proof.
  induction l as [|x l IH]; intros H; [reflexivity|].
  cbn [filter]. rewrite (H x (or_introl eq_refl)).
  apply IH. intros y Hy. apply H. now right.
Qed.

(** X18. A date range whose end is before its start, or one with every
    category or every region deselected, selects nothing: the view is
    empty, and the run from the filter on ends in [ValueError] after the
    cards, the charts and the table were shown. *)
Theorem empty_selection_ends_run format_float format_datetime strftime
  groupby_agg nlargest sort_values (df : nat) (w : World) (d : DataFrame)
  (d0 d1 : Z) (cats regs : list string) (view : string) (clicked : bool)
  (t : DateTime) :
  nth_error (heap w) df = Some (OFrame d) ->
  d1 < d0 \/ cats = [] \/ regs = [] ->
  let ui := mkSidebar [d0; d1] cats regs view clicked t in
  filtered_df d ui = []
  /\ fst (render format_float format_datetime strftime groupby_agg nlargest
            sort_values df ui w)
     = Raise ValueError.
Proof.
  intros Hdf Hsel ui.
  assert (E : filtered_df d ui = []).
  { unfold ui, filtered_df, getitem_mask.
    cbn [date_range selected_categories selected_regions].
    apply filter_none. intros ir _.
    destruct (mask d0 d1 cats regs (snd ir)) eqn:M; [|reflexivity].
    apply mask_selected in M. destruct M as (Hd & Hc & Hr).
    unfold to_datetime in Hd. assert (0 < ns_per_day) by reflexivity.
    destruct Hsel as [H1|[->| ->]]; [nia|destruct Hc|destruct Hr]. }
  split; [exact E|].
  destruct (run_outcome format_float format_datetime strftime groupby_agg
              nlargest sort_values df ui w d Hdf) as (_ & _ & _ & Hempty & _).
  exact (proj1 (Hempty E)).
Qed.

(** ** The numerals of the export *)

Lemma value_of_digit (d : Z) (s : string) (v : Z) :
  0 <= d <= 9 ->
  value_of_digits (String (digit d) s) v = value_of_digits s (v * 10 + d).
Proof.
  intros Hd. cbn [value_of_digits]. unfold digit.
  rewrite nat_ascii_embedding by lia.
  replace (Z.of_nat (48 + Z.to_nat d)) with (48 + d) by lia.
  replace ((48 <=? 48 + d) && (48 + d <=? 57)) with true
    by (symmetry; apply andb_true_iff; split; apply Z.leb_le; lia).
  f_equal. lia.
Qed.

Lemma digits_value (fuel : nat) :
  forall (n : Z) (acc : string),
    0 <= n < 2 ^ Z.of_nat fuel -> (1 <= fuel)%nat ->
    exists k, 0 < k /\ n < 10 ^ k
              /\ String.length (digits fuel n acc)
                 = (Z.to_nat k + String.length acc)%nat
              /\ forall v, value_of_digits (digits fuel n acc) v
                           = value_of_digits acc (v * 10 ^ k + n).
Proof.
  induction fuel as [|fuel IH]; intros n acc Hn Hf; [lia|].
  cbn [digits].
  pose proof (Z.div_mod n 10 ltac:(lia)) as Edm.
  pose proof (Z.mod_pos_bound n 10 ltac:(lia)) as Bm.
  destruct (n / 10 =? 0) eqn:E.
  - apply Z.eqb_eq in E. exists 1. split; [lia|]. split; [lia|]. split.
    + reflexivity.
    + intros v. rewrite value_of_digit by lia. f_equal. lia.
  - apply Z.eqb_neq in E.
    assert (Hq : 0 <= n / 10 < 2 ^ Z.of_nat fuel).
    { split; [apply Z.div_pos; lia|].
      apply Z.div_lt_upper_bound; [lia|].
      rewrite Nat2Z.inj_succ, Z.pow_succ_r in Hn by lia. lia. }
    assert (Hfuel : (1 <= fuel)%nat).
    { destruct fuel; [|lia]. cbn in Hq. lia. }
    destruct (IH (n / 10) (String (digit (n mod 10)) acc) Hq Hfuel)
      as (k & Hk & Hlt & Hlen & Hv).
    exists (k + 1). split; [lia|]. split; [|split].
    + rewrite Z.pow_add_r by lia. lia.
    + rewrite Hlen. cbn [String.length]. rewrite Z2Nat.inj_add by lia.
      change (Z.to_nat 1) with 1%nat. lia.
    + intros v. rewrite Hv, value_of_digit by lia. f_equal.
      rewrite Z.pow_add_r by lia. lia.
Qed.

Lemma str_nonneg_value (n : Z) :
  0 <= n ->
  exists k, 0 < k /\ n < 10 ^ k
            /\ String.length (str_nonneg n) = Z.to_nat k
            /\ forall v, value_of_digits (str_nonneg n) v
                         = Some (v * 10 ^ k + n).
Proof.
  intros Hn. unfold str_nonneg.
  assert (Hfuel : 0 <= n < 2 ^ Z.of_nat (S (Z.to_nat (Z.log2 n)))).
  { rewrite Nat2Z.inj_succ, Z2Nat.id by apply Z.log2_nonneg.
    destruct (Z.eq_dec n 0) as [->|Hnz]; [cbn; lia|].
    pose proof (Z.log2_spec n ltac:(lia)). lia. }
  destruct (digits_value _ n "" Hfuel ltac:(lia)) as (k & Hk & Hlt & Hlen & Hv).
  exists k. repeat split; auto.
  rewrite Hlen. cbn [String.length]. lia.
Qed.

Lemma str_nonneg_reads (n : Z) :
  0 <= n -> value_of_digits (str_nonneg n) 0 = Some n
            /\ exists c s, str_nonneg n = String c s.
Proof.
  intros Hn. destruct (str_nonneg_value n Hn) as (k & Hk & _ & Hlen & Hv).
  split; [rewrite Hv; f_equal; lia|].
  destruct (str_nonneg n) as [|c s]; [|eauto].
  cbn in Hlen. lia.
Qed.

Lemma int_of_str_str (z : Z) : int_of_str (str z) = Some z.
Proof.
  unfold str. destruct (z <? 0) eqn:E.
  - apply Z.ltb_lt in E.
    destruct (str_nonneg_reads (- z) ltac:(lia)) as (Hv & c & s & Es).
    rewrite Es in *. cbn [int_of_str]. rewrite Ascii.eqb_refl, Hv.
    cbn [option_map]. f_equal. lia.
  - apply Z.ltb_ge in E.
    destruct (str_nonneg_reads z E) as (Hv & c & s & Es).
    rewrite Es in *. cbn [int_of_str].
    destruct (Ascii.eqb c (ascii_of_nat 45)) eqn:Ec; [|exact Hv].
    apply Ascii.eqb_eq in Ec. subst c. discriminate Hv.
Qed.

(** X19. The integers of the export are decimal numerals of the values.
    In every record of the export the fourth and the sixth field are the
    sales and the customers of the row written so that [int] reads them
    back exactly, negative values included. *)
Theorem export_integers_read_back format_float format_datetime
  (dates : list Timestamp) (r : Row) :
  let fields := csv_fields format_float format_datetime dates r in
  length fields = 8%nat
  /\ option_map int_of_str (nth_error fields 3)
     = Some (Some (sales (sale r)))
  /\ option_map int_of_str (nth_error fields 5)
     = Some (Some (customers (sale r))).
Proof.
  intros fields. unfold fields, csv_fields. cbn [length nth_error option_map].
  now rewrite !int_of_str_str.
Qed.

(** ** The name of the download *)

Lemma value_shift (s : string) :
  forall (n v : Z),
    value_of_digits s 0 = Some n ->
    value_of_digits s v
    = Some (v * 10 ^ Z.of_nat (String.length s) + n).
Proof.
  assert (G : forall (s : string) (a n : Z),
             value_of_digits s a = Some n ->
             forall v, value_of_digits s (a + v)
                       = Some (v * 10 ^ Z.of_nat (String.length s) + n)).
  { induction s0 as [|c s0 IH]; intros a n H v.
    - cbn in *. injection H as <-. f_equal. lia.
    - cbn [value_of_digits] in *.
      destruct ((48 <=? Z.of_nat (nat_of_ascii c))
                && (Z.of_nat (nat_of_ascii c) <=? 57)); [|discriminate].
      replace ((a + v) * 10 + (Z.of_nat (nat_of_ascii c) - 48))
        with ((a * 10 + (Z.of_nat (nat_of_ascii c) - 48)) + v * 10) by lia.
      rewrite (IH _ _ H). f_equal. cbn [String.length].
      rewrite Nat2Z.inj_succ, Z.pow_succ_r by lia. lia. }
  intros n v H. exact (G s 0 n H v).
Qed.

Lemma value_append (a b : string) (x y : Z) :
  value_of_digits a 0 = Some x -> value_of_digits b 0 = Some y ->
  value_of_digits (a ++ b) 0
  = Some (x * 10 ^ Z.of_nat (String.length b) + y).
Proof.
  intros Ha Hb.
  assert (G : forall (a : string) (v x : Z),
             value_of_digits a v = Some x ->
             value_of_digits (a ++ b) v = value_of_digits b x).
  { induction a0 as [|c a0 IH]; intros v x0 H.
    - cbn in *. now injection H as <-.
    - cbn [append value_of_digits] in *.
      destruct ((48 <=? Z.of_nat (nat_of_ascii c))
                && (Z.of_nat (nat_of_ascii c) <=? 57)); [|discriminate].
      now apply IH. }
  rewrite (G a 0 x Ha). now apply value_shift.
Qed.

(** The number [n] padded to [w] digits has [w] digits and reads [n]. *)
Definition check_padded (w : nat) (n : Z) : bool :=
  let s := zero_pad w (str n) in
  (String.length s =? w)%nat
  && match value_of_digits s 0 with Some v => v =? n | None => false end.

Lemma check_years :
  forall_from (check_padded 4) 1000 (Z.to_nat 9000) = true.
Proof. vm_compute. reflexivity. Qed.

Lemma check_months_days : forall_from (check_padded 2) 1 31 = true.
Proof. vm_compute. reflexivity. Qed.

Lemma check_padded_spec (w : nat) (n : Z) :
  check_padded w n = true ->
  String.length (zero_pad w (str n)) = w
  /\ value_of_digits (zero_pad w (str n)) 0 = Some n.
Proof.
  unfold check_padded. cbv zeta. intros H.
  apply andb_true_iff in H as [H1 H2]. apply Nat.eqb_eq in H1.
  split; [exact H1|].
  destruct (value_of_digits (zero_pad w (str n)) 0); [|discriminate].
  apply Z.eqb_eq in H2. now subst.
Qed.

(** The date stamp has eight digits, which read as the date. *)
Lemma stamp_reads_as_date (t : DateTime) :
  1000 <= year t <= 9999 -> 1 <= month t <= 12 -> 1 <= day t <= 31 ->
  String.length (strftime_Ymd t) = 8%nat
  /\ value_of_digits (strftime_Ymd t) 0
     = Some (year t * 10000 + month t * 100 + day t).
Proof.
  intros Hy Hm Hd.
  assert (Cy : check_padded 4 (year t) = true).
  { apply (forall_from_spec _ _ _ _ check_years).
    rewrite Z2Nat.id by lia. lia. }
  assert (Cm : check_padded 2 (month t) = true).
  { apply (forall_from_spec _ _ _ _ check_months_days).
    change (Z.of_nat 31) with 31. lia. }
  assert (Cd : check_padded 2 (day t) = true).
  { apply (forall_from_spec _ _ _ _ check_months_days).
    change (Z.of_nat 31) with 31. lia. }
  destruct (check_padded_spec 4 (year t) Cy) as [Ly Vy].
  destruct (check_padded_spec 2 (month t) Cm) as [Lm Vm].
  destruct (check_padded_spec 2 (day t) Cd) as [Ld Vd].
  assert (L8 : String.length (strftime_Ymd t) = 8%nat).
  { unfold strftime_Ymd. rewrite !length_append, Ly, Lm, Ld. reflexivity. }
  split; [exact L8|].
  unfold strftime_Ymd.
  pose proof (value_append _ _ _ _ Vm Vd) as Vmd. rewrite Ld in Vmd.
  rewrite (value_append _ _ _ _ Vy Vmd).
  rewrite length_append, Lm, Ld. f_equal.
  change (10 ^ Z.of_nat 2) with 100. change (10 ^ Z.of_nat (2 + 2)) with 10000.
  lia.
Qed.

(** X20. The name of the download.  For a current date with a four-digit
    year, the name is [dashboard_data_], eight digits and [.csv], 27
    characters in all, and the eight digits read as the number
    year * 10000 + month * 100 + day: the names of different days differ
    and sort by date. *)
Theorem file_name_has_the_date (t : DateTime) :
  1000 <= year t <= 9999 -> 1 <= month t <= 12 -> 1 <= day t <= 31 ->
  file_name t = ("dashboard_data_" ++ strftime_Ymd t ++ ".csv")%string
  /\ String.length (strftime_Ymd t) = 8%nat
  /\ String.length (file_name t) = 27%nat
  /\ value_of_digits (strftime_Ymd t) 0
     = Some (year t * 10000 + month t * 100 + day t).
Proof.
  intros Hy Hm Hd.
  destruct (stamp_reads_as_date t Hy Hm Hd) as [L8 V].
  split; [reflexivity|]. split; [exact L8|]. split; [|exact V].
  unfold file_name. rewrite !length_append, L8. reflexivity.
Qed.

(** ** The export is the filtered view *)


(** ** Rows without sales *)

(** X21. A row with sales 0 does not stop the load: its margin is the
    [float64] the division by zero gives, plus or minus infinity for a
    profit or a loss and NaN for no profit, and the rounding keeps it. *)
Theorem margin_of_zero_sales (p : float) :
  margin_of p 0
  = match Prim2SF p with
    | S754_finite s _ _ => if s then neg_infinity else infinity
    | S754_infinity s => if s then neg_infinity else infinity
    | _ => nan
    end.
Proof.
  unfold margin_of, round2.
  assert (E : (p / of_Z 0)%float
              = match Prim2SF p with
                | S754_finite s _ _ => if s then neg_infinity else infinity
                | S754_infinity s => if s then neg_infinity else infinity
                | _ => nan
                end).
  { rewrite <- (SF2Prim_Prim2SF (p / of_Z 0)), div_spec.
    change (Prim2SF (of_Z 0)) with (S754_zero false).
    destruct (Prim2SF p) as [s|s| |s m e]; try destruct s; reflexivity. }
  rewrite E.
  destruct (Prim2SF p) as [s|s| |s m e]; try destruct s; reflexivity.
Qed.

(** ** A run with a file of dates *)

Lemma Forall2_In_r {A B} (R : A -> B -> Prop) (l1 : list A) (l2 : list B)
  (y : B) :
  Forall2 R l1 l2 -> In y l2 -> exists x, In x l1 /\ R x y.
Proof.
  induction 1 as [|a b l1 l2 Hab _ IH]; intros Hin; [destruct Hin|].
  destruct Hin as [<-|Hin].
  - exists a. split; [now left|exact Hab].
  - destruct (IH Hin) as (x & Hx & Hr). exists x. split; [now right|exact Hr].
Qed.

(** X22. A run with a [data.csv] that has rows, every date of which is
    read as a midnight, no sales value of which is negative and whose
    sales add up to less than [2^63], and the filters untouched: nothing
    is filtered out, no warning is shown, no chart fails, the page gets
    the cards, charts, table and (if asked) the download over all rows of
    the file and then the information panel counting them, and the run
    returns. *)
Theorem run_with_file_of_dates parse format_float format_datetime strftime
  groupby_agg nlargest sort_values (rows : list (Sale string))
  (view : string) (clicked : bool) (t : DateTime) (w : World) :
  rows <> [] ->
  Forall (fun s => exists ts, parse (date s) = Some ts
                              /\ ts mod ns_per_day = 0) rows ->
  Forall (fun s => 0 <= sales s) rows ->
  Zsum (map sales rows) < 2 ^ 63 ->
  exists d ui fdf w' first_day last_day,
    load_data (Return rows) parse w = (Return d, w)
    /\ length d = length rows
    /\ default_sidebar d view clicked t = Some ui
    /\ filtered_df d ui = d
    /\ dashboard (Return rows) parse format_float format_datetime strftime
         groupby_agg nlargest sort_values ui w
       = (Return fdf, w')
    /\ series_min (column date d) = Some first_day
    /\ series_max (column date d) = Some last_day
    /\ page w'
       = page w
         ++ events_before_info format_float format_datetime groupby_agg
              nlargest sort_values d d ui
         ++ [Info (strftime "%d/%m/%Y" last_day) (length rows)
                  (strftime "%d/%m" first_day) (strftime "%d/%m" last_day)].
Proof.
  intros Hne Hrows Hpos Hfit.
  assert (Hparse : Forall (fun s => parse (date s) <> None) rows).
  { eapply Forall_impl; [|exact Hrows]. intros s (ts & E & _). congruence. }
  destruct (to_datetime_column_returns parse (range_index rows)) as
    (d0 & E0 & Hi & Hr); [now rewrite records_range_index|].
  rewrite records_range_index in Hr.
  set (d := assign_margin d0).
  assert (Hload : load_data (Return rows) parse w = (Return d, w))
    by (rewrite load_data_read, E0; reflexivity).
  assert (Hrec : Forall2 (row_of parse) rows (records d)).
  { unfold d. rewrite records_assign_margin.
    clear - Hr. induction Hr; cbn [map]; constructor; assumption. }
  assert (Hlen : length d = length rows).
  { rewrite <- (length_records d). symmetry.
    exact (Forall2_length Hrec). }
  assert (Hmid : Forall (fun x => x mod ns_per_day = 0) (column date d)).
  { unfold column. apply Forall_map. apply Forall_forall. intros r Hin.
    destruct (Forall2_In_r _ _ _ _ Hrec Hin) as (s & Hs & Hrow).
    rewrite Forall_forall in Hrows. destruct (Hrows s Hs) as (ts & Ets & Hts).
    destruct Hrow as (Ep & _). congruence. }
  destruct (column date d) as [|x l] eqn:Ecol.
  { apply column_nil in Ecol. rewrite Ecol in Hlen.
    destruct rows; [congruence|discriminate Hlen]. }
  rewrite <- Ecol in Hmid.
  assert (Hmax : series_max (column date d) = Some (fold_left Z.max l x))
    by (now rewrite Ecol).
  assert (Hmin : series_min (column date d) = Some (fold_left Z.min l x))
    by (now rewrite Ecol).
  assert (Hb : fold_left Z.max l x mod ns_per_day = 0).
  { rewrite Forall_forall in Hmid.
    exact (Hmid _ (series_max_In _ _ Hmax)). }
  destruct (default_view_whole d view clicked t _ Hmax Hb) as (ui & Hui & Hf).
  set (w2 := mkWorld (rng w) (page w) (heap w ++ [OFrame d])).
  assert (Hdf : nth_error (heap w2) (length (heap w)) = Some (OFrame d)).
  { unfold w2. cbn [heap]. rewrite nth_error_app2 by lia.
    now rewrite Nat.sub_diag. }
  destruct (render_run format_float format_datetime strftime groupby_agg
              nlargest sort_values (length (heap w)) ui w2 d Hdf)
    as (fdf & h & Hrun).
  cbv zeta in Hrun. rewrite Hf in Hrun.
  assert (Hsales : map (fun r => sales (sale r)) (records d) = map sales rows).
  { clear - Hrec. induction Hrec as [|s r rows' rs Hrow _ IH];
      [reflexivity|].
    cbn [map]. rewrite IH. f_equal.
    exact (proj1 (proj2 (proj2 (proj2 Hrow)))). }
  assert (Hvalid : sizes_valid d = true).
  { apply sizes_valid_nonneg.
    - apply (proj1 (Forall_map (fun r => sales (sale r))
                               (fun z => 0 <= z) (records d))).
      rewrite Hsales. apply Forall_map. exact Hpos.
    - unfold column. rewrite Hsales. exact Hfit. }
  rewrite Hvalid in Hrun.
  assert (Hinfo : info_event strftime d d
                  = Some (Info (strftime "%d/%m/%Y" (fold_left Z.max l x))
                               (length rows)
                               (strftime "%d/%m" (fold_left Z.min l x))
                               (strftime "%d/%m" (fold_left Z.max l x)))).
  { unfold info_event. now rewrite Hmax, Hmin, Hlen. }
  rewrite Hinfo in Hrun.
  exists d, ui, fdf. eexists. exists (fold_left Z.min l x), (fold_left Z.max l x).
  split; [exact Hload|]. split; [exact Hlen|]. split; [exact Hui|].
  split; [exact Hf|]. split.
  - unfold dashboard. rewrite (bind_run _ _ _ _ _ Hload).
    assert (Hnew : new (OFrame d) w = (Return (length (heap w)), w2))
      by reflexivity.
    rewrite (bind_run _ _ _ _ _ Hnew). exact Hrun.
  - split; [exact Hmin|]. split; [exact Hmax|].
    cbn [page]. unfold w2. cbn [page]. reflexivity.
Qed.

(** ** Sums of integers in [float64] *)

Lemma le53_antisym (a b : Z * Z) : le53 a b -> le53 b a -> a = b.
Proof.
  destruct a as [m1 e1], b as [m2 e2]. unfold le53. cbn [fst snd].
  intros H1 H2. f_equal; lia.
Qed.

(** Two roundings of the same value agree. *)
Lemma binary_round_eq (m1 m2 : positive) (e1 e2 E : Z) :
  -1074 <= Zdigits2 (Zpos m1) + e1 - 53 <= 970 ->
  -1074 <= Zdigits2 (Zpos m2) + e2 - 53 <= 970 ->
  E <= e1 -> E <= e2 -> E <= Zdigits2 (Zpos m1) + e1 - 53 ->
  E <= Zdigits2 (Zpos m2) + e2 - 53 ->
  Zpos m1 * 2 ^ (e1 - E) = Zpos m2 * 2 ^ (e2 - E) ->
  binary_round prec emax false m1 e1 = binary_round prec emax false m2 e2.
Proof.
  intros R1 R2 L1 L2 D1 D2 Hv.
  pose proof (binary_round_mono m1 m2 e1 e2 E R1 R2 L1 L2 D1 D2
                ltac:(lia)) as A.
  pose proof (binary_round_mono m2 m1 e2 e1 E R2 R1 L2 L1 D2 D1
                ltac:(lia)) as B.
  rewrite !binary_round_normal in * by assumption.
  destruct (aligned_spec m1 e1) as (P1 & G1 & _).
  destruct (aligned_spec m2 e2) as (P2 & G2 & _).
  set (a1 := aligned (Zpos m1) e1) in *. set (a2 := aligned (Zpos m2) e2) in *.
  destruct (fst a1) as [|p1|p1] eqn:E1; try lia.
  destruct (fst a2) as [|p2|p2] eqn:E2; try lia.
  destruct (round53_shape p1 (snd a1) G1) as [S1 _].
  destruct (round53_shape p2 (snd a2) G2) as [S2 _].
  cbv zeta in S1, S2.
  apply SFleb_fin_of in A; try lia. apply SFleb_fin_of in B; try lia.
  now rewrite (le53_antisym _ _ A B).
Qed.

(** An integer below [2^53] is a [float64]: its mantissa is the integer
    shifted to 53 bits. *)
Lemma of_Z_exact (a : positive) :
  Zpos a < 2 ^ 53 ->
  let e := Zdigits2 (Zpos a) - 53 in
  binary_round prec emax false a 0 = fin (Z.to_pos (Zpos a * 2 ^ (- e))) e
  /\ e <= 0 /\ Zdigits2 (Zpos a * 2 ^ (- e)) = 53.
Proof.
  intros Ha e.
  destruct (Zdigits2_pos_bounds a) as [Pd _].
  assert (Hd : Zdigits2 (Zpos a) <= 53) by (apply digits_le; lia).
  assert (He : e <= 0) by (unfold e; lia).
  assert (D53 : Zdigits2 (Zpos a * 2 ^ (- e)) = 53)
    by (rewrite digits_shift by lia; unfold e; lia).
  split; [|split; [exact He|exact D53]].
  rewrite binary_round_normal by lia.
  unfold aligned. cbn [fst snd].
  replace (Z.min 0 (Zdigits2 (Zpos a) + 0 - 53)) with e by (unfold e; lia).
  replace (0 - e) with (- e) by lia.
  unfold round53. rewrite D53. replace (53 - 53) with 0 by lia.
  assert (Hq : rne (Zpos a * 2 ^ (- e)) 0 = Zpos a * 2 ^ (- e)).
  { unfold rne, loc_of. change (2 ^ 0) with 1.
    rewrite Z.mod_1_r, Z.div_1_r. reflexivity. }
  rewrite Hq.
  pose proof (pow2_pos (- e) ltac:(lia)) as P2.
  assert (B : 2 ^ 52 <= Zpos a * 2 ^ (- e) < 2 ^ 53).
  { destruct (Zdigits2_pos_bounds (Z.to_pos (Zpos a * 2 ^ (- e))))
      as [_ Bd].
    rewrite Z2Pos.id in Bd by nia. rewrite D53 in Bd. exact Bd. }
  destruct (Zpos a * 2 ^ (- e) =? 2 ^ 53) eqn:Q;
    [apply Z.eqb_eq in Q; lia|].
  unfold fin_of. cbn [fst snd]. f_equal. lia.
Qed.

(** The sum of two positive integers that stays below [2^53] is exact. *)
Lemma add_of_Z (a b : Z) :
  0 < a -> 0 < b -> a + b < 2 ^ 53 ->
  (of_Z a + of_Z b)%float = of_Z (a + b).
Proof.
  intros Ha Hb Hab.
  destruct a as [|pa|pa]; try lia. destruct b as [|pb|pb]; try lia.
  destruct (of_Z_exact pa ltac:(lia)) as (Ea & La & Da).
  destruct (of_Z_exact pb ltac:(lia)) as (Eb & Lb & Db).
  cbv zeta in *.
  set (ea := Zdigits2 (Zpos pa) - 53) in *.
  set (eb := Zdigits2 (Zpos pb) - 53) in *.
  pose proof (pow2_pos (- ea) ltac:(lia)) as Pa.
  pose proof (pow2_pos (- eb) ltac:(lia)) as Pb.
  set (ma := Z.to_pos (Zpos pa * 2 ^ (- ea))) in *.
  set (mb := Z.to_pos (Zpos pb * 2 ^ (- eb))) in *.
  assert (Ema : Zpos ma = Zpos pa * 2 ^ (- ea))
    by (unfold ma; rewrite Z2Pos.id; nia).
  assert (Emb : Zpos mb = Zpos pb * 2 ^ (- eb))
    by (unfold mb; rewrite Z2Pos.id; nia).
  assert (Pfa : Prim2SF (of_Z (Zpos pa)) = fin ma ea).
  { rewrite Prim2SF_of_Z by (split; [lia|];
      apply Z.lt_trans with (2 ^ 53); [lia|reflexivity]).
    exact Ea. }
  assert (Pfb : Prim2SF (of_Z (Zpos pb)) = fin mb eb).
  { rewrite Prim2SF_of_Z by (split; [lia|];
      apply Z.lt_trans with (2 ^ 53); [lia|reflexivity]).
    exact Eb. }
  rewrite <- (SF2Prim_Prim2SF (of_Z (Zpos pa) + of_Z (Zpos pb))).
  rewrite add_spec, Pfa, Pfb. unfold SF64add. rewrite SFadd_fin.
  unfold of_Z at 1. f_equal.
  change (binary_normalize prec emax (Zpos pa + Zpos pb) 0 false)
    with (binary_round prec emax false (pa + pb) 0).
  set (E := Z.min ea eb).
  set (S := Zpos ma * 2 ^ (ea - E) + Zpos mb * 2 ^ (eb - E)).
  assert (HS : S = (Zpos pa + Zpos pb) * 2 ^ (- E)).
  { unfold S. rewrite Ema, Emb, <- !Z.mul_assoc, <- !Z.pow_add_r
      by (unfold E; lia).
    replace (- ea + (ea - E)) with (- E) by lia.
    replace (- eb + (eb - E)) with (- E) by lia. lia. }
  assert (PE : 0 < 2 ^ (- E)) by (apply pow2_pos; unfold E; lia).
  assert (Spos : 0 < S) by (rewrite HS; nia).
  assert (DS : Zdigits2 S = Zdigits2 (Zpos (pa + pb)) - E).
  { rewrite HS. change (Zpos pa + Zpos pb) with (Zpos (pa + pb)).
    rewrite digits_shift by (unfold E; lia). lia. }
  destruct (Zdigits2_pos_bounds pa) as [Ppa [Blo_a _]].
  destruct (Zdigits2_pos_bounds pb) as [Ppb [Blo_b _]].
  assert (Dab : Zdigits2 (Zpos (pa + pb)) <= 53)
    by (apply digits_le; lia).
  assert (Dab_a : Zdigits2 (Zpos pa) <= Zdigits2 (Zpos (pa + pb))).
  { pose proof (digits_ge (Zpos (pa + pb)) (Zdigits2 (Zpos pa) - 1)
                  ltac:(lia) ltac:(lia)). lia. }
  assert (Dab_b : Zdigits2 (Zpos pb) <= Zdigits2 (Zpos (pa + pb))).
  { pose proof (digits_ge (Zpos (pa + pb)) (Zdigits2 (Zpos pb) - 1)
                  ltac:(lia) ltac:(lia)). lia. }
  apply (binary_round_eq _ _ _ _ E); rewrite ?Z2Pos.id by lia;
    rewrite ?DS; unfold E, ea, eb in *; try lia.
  rewrite HS. rewrite Z.sub_diag. change (2 ^ 0) with 1.
  replace (0 - Z.min (Zdigits2 (Zpos pa) - 53) (Zdigits2 (Zpos pb) - 53))
    with (- Z.min (Zdigits2 (Zpos pa) - 53) (Zdigits2 (Zpos pb) - 53)) by lia.
  change (Zpos (pa + pb)) with (Zpos pa + Zpos pb). lia.
Qed.

Lemma add_zero_l (x : float) : fpos x -> (0 + x)%float = x.
Proof.
  intros (m & e & E).
  assert (H : Prim2SF (0 + x) = Prim2SF x)
    by (rewrite add_spec, E; reflexivity).
  now rewrite <- (SF2Prim_Prim2SF (0 + x)), H, SF2Prim_Prim2SF.
Qed.

Lemma add_zero_r (x : float) : fpos x -> (x + 0)%float = x.
Proof.
  intros (m & e & E).
  assert (H : Prim2SF (x + 0) = Prim2SF x)
    by (rewrite add_spec, E; reflexivity).
  now rewrite <- (SF2Prim_Prim2SF (x + 0)), H, SF2Prim_Prim2SF.
Qed.

Lemma of_Z_fpos (z : Z) : 0 < z < 2 ^ 63 -> fpos (of_Z z).
Proof. intros H. apply fnice_fpos. now apply of_Z_int64_nice. Qed.

Lemma add_of_Z_nonneg (a b : Z) :
  0 <= a -> 0 <= b -> a + b < 2 ^ 53 ->
  (of_Z a + of_Z b)%float = of_Z (a + b).
Proof.
  intros Ha Hb Hab.
  assert (B : 2 ^ 53 < 2 ^ 63) by reflexivity.
  destruct (Z.eq_dec a 0) as [->|Na].
  - change (of_Z 0) with 0%float. rewrite Z.add_0_l.
    destruct (Z.eq_dec b 0) as [->|Nb]; [reflexivity|].
    apply add_zero_l, of_Z_fpos. lia.
  - destruct (Z.eq_dec b 0) as [->|Nb].
    + change (of_Z 0) with 0%float. rewrite Z.add_0_r.
      apply add_zero_r, of_Z_fpos. lia.
    + apply add_of_Z; lia.
Qed.

Lemma Forall_firstn_skipn {A} (Q : A -> Prop) (n : nat) (l : list A) :
  Forall Q l -> Forall Q (firstn n l) /\ Forall Q (skipn n l).
Proof.
  intros H. rewrite <- (firstn_skipn n l) in H. now apply Forall_app in H.
Qed.

(** *** What numpy's summation keeps *)

(** Values with a weight each: a property of weighted values that addition
    keeps, adding the weights, is kept by the whole summation, in whatever
    order it adds. *)
Section Summation.

Variable P : Z -> float -> Prop.
Variable N : Z.

Hypothesis P_add : forall z1 z2 u v,
  0 <= z1 -> 0 <= z2 -> z1 + z2 <= N ->
  P z1 u -> P z2 v -> P (z1 + z2) (u + v)%float.
Hypothesis P_zero : forall z v, P z v -> (0 + v)%float = v.

Definition weighed (p : Z * float) : Prop := 0 <= fst p /\ P (fst p) (snd p).
Definition weight (l : list (Z * float)) : Z := Zsum (map fst l).
Definition values (l : list (Z * float)) : list float := map snd l.

Lemma weight_cons (p : Z * float) (l : list (Z * float)) :
  weight (p :: l) = fst p + weight l.
Proof. reflexivity. Qed.

Lemma weight_nonneg (l : list (Z * float)) :
  Forall weighed l -> 0 <= weight l.
Proof.
  induction 1 as [|p l [Hp _] _ IH]; [cbn; lia|].
  rewrite weight_cons. lia.
Qed.

Lemma weight_app (l1 l2 : list (Z * float)) :
  weight (l1 ++ l2) = weight l1 + weight l2.
Proof.
  induction l1 as [|p l1 IH]; [reflexivity|].
  cbn [app]. rewrite !weight_cons, IH. lia.
Qed.

Lemma weight_split (n : nat) (l : list (Z * float)) :
  weight l = weight (firstn n l) + weight (skipn n l).
Proof. now rewrite <- weight_app, firstn_skipn. Qed.

Lemma add_seq_weighed (l : list (Z * float)) :
  forall z acc,
    0 <= z -> P z acc -> Forall weighed l -> z + weight l <= N ->
    P (z + weight l) (add_seq acc (values l)).
Proof.
  induction l as [|p l IH]; intros z acc Hz Hacc Hl Hn.
  - cbn. now rewrite Z.add_0_r.
  - inversion Hl as [|? ? [Hp HP] Hl']; subst.
    rewrite weight_cons in *.
    pose proof (weight_nonneg l Hl').
    change (add_seq acc (values (p :: l)))
      with (add_seq (acc + snd p) (values l)).
    replace (z + (fst p + weight l)) with ((z + fst p) + weight l) by lia.
    apply IH; auto; try lia. apply P_add; auto. lia.
Qed.

Lemma add_seq_zero (l : list (Z * float)) :
  l <> [] -> Forall weighed l -> weight l <= N ->
  P (weight l) (add_seq 0 (values l)).
Proof.
  destruct l as [|p l]; [congruence|]. intros _ Hl Hn.
  inversion Hl as [|? ? [Hp HP] Hl']; subst.
  change (add_seq 0 (values (p :: l)))
    with (add_seq (0 + snd p) (values l)).
  rewrite (P_zero _ _ HP). rewrite weight_cons in *.
  now apply add_seq_weighed.
Qed.

(** The lanes after one more group of eight. *)
Definition zip_weighed (r a : list (Z * float)) : list (Z * float) :=
  map (fun p => (fst (fst p) + fst (snd p), (snd (fst p) + snd (snd p))%float))
      (combine r a).

Lemma zip_add_values (r a : list (Z * float)) :
  zip_add (values r) (values a) = values (zip_weighed r a).
Proof.
  unfold zip_add, values, zip_weighed. revert a.
  induction r as [|x r IH]; intros [|y a]; cbn [map combine]; try reflexivity.
  now rewrite IH.
Qed.

Lemma zip_weighed_spec (r a : list (Z * float)) :
  length r = length a -> Forall weighed r -> Forall weighed a ->
  weight r + weight a <= N ->
  length (zip_weighed r a) = length r
  /\ Forall weighed (zip_weighed r a)
  /\ weight (zip_weighed r a) = weight r + weight a.
Proof.
  revert a. induction r as [|x r IH]; intros [|y a] Hlen Hr Ha Hn;
    try discriminate.
  - repeat split. constructor.
  - inversion Hr as [|? ? [Hx HPx] Hr']; subst.
    inversion Ha as [|? ? [Hy HPy] Ha']; subst.
    rewrite !weight_cons in Hn.
    pose proof (weight_nonneg r Hr'). pose proof (weight_nonneg a Ha').
    destruct (IH a) as (L & F & W); auto; try lia.
    unfold zip_weighed in *. cbn [combine map length].
    split; [now rewrite L|]. split.
    + constructor; [|exact F]. split; cbn [fst snd]; [lia|].
      apply P_add; auto. lia.
    + rewrite !weight_cons. cbn [fst snd]. rewrite W. lia.
Qed.

Lemma lanes_weighed (fuel : nat) :
  forall r a : list (Z * float),
    length r = 8%nat -> Forall weighed r -> Forall weighed a ->
    weight r + weight a <= N ->
    exists r' a',
      lanes fuel (values r) (values a) = (values r', values a')
      /\ length r' = 8%nat /\ Forall weighed r' /\ Forall weighed a'
      /\ weight r' + weight a' = weight r + weight a.
Proof.
  induction fuel as [|fuel IH]; intros r a Hlen Hr Ha Hn.
  - exists r, a. cbn [lanes]. auto.
  - assert (Lv : length (values a) = length a)
      by (unfold values; apply length_map).
    cbn [lanes]. rewrite Lv.
    destruct (8 <=? length a)%nat eqn:E.
    + apply Nat.leb_le in E.
      assert (L8 : length (firstn 8 a) = 8%nat)
        by (rewrite length_firstn; lia).
      destruct (Forall_firstn_skipn weighed 8 a Ha) as [F1 F2].
      pose proof (weight_split 8 a) as Ws.
      pose proof (weight_nonneg _ F2).
      destruct (zip_weighed_spec r (firstn 8 a)) as (L & F & W);
        auto; try lia.
      assert (Ev : firstn 8 (values a) = values (firstn 8 a))
        by (unfold values; now rewrite firstn_map).
      assert (Es : skipn 8 (values a) = values (skipn 8 a))
        by (unfold values; now rewrite skipn_map).
      rewrite Ev, Es, zip_add_values.
      destruct (IH (zip_weighed r (firstn 8 a)) (skipn 8 a))
        as (r' & a' & El & L' & Fr & Fa & W'); auto; try lia.
      exists r', a'. rewrite El. repeat split; auto. lia.
    + exists r, a. auto.
Qed.

Lemma block_sum_weighed (a : list (Z * float)) :
  (8 <= length a)%nat -> Forall weighed a -> weight a <= N ->
  P (weight a) (block_sum (values a)).
Proof.
  intros Hlen Ha Hn. unfold block_sum.
  assert (L8 : length (firstn 8 a) = 8%nat) by (rewrite length_firstn; lia).
  destruct (Forall_firstn_skipn weighed 8 a Ha) as [F1 F2].
  pose proof (weight_split 8 a) as Ws.
  assert (Ev : firstn 8 (values a) = values (firstn 8 a))
    by (unfold values; now rewrite firstn_map).
  assert (Es : skipn 8 (values a) = values (skipn 8 a))
    by (unfold values; now rewrite skipn_map).
  rewrite Ev, Es.
  destruct (lanes_weighed (length (values a)) (firstn 8 a) (skipn 8 a))
    as (r & rest & El & Lr & Fr & Frest & W); auto; try lia.
  rewrite El.
  destruct r as [|r0 [|r1 [|r2 [|r3 [|r4 [|r5 [|r6 [|r7 [|r8 r]]]]]]]]];
    try discriminate Lr.
  cbn [values map].
  repeat match goal with
         | H : Forall weighed (_ :: _) |- _ =>
             let Hp := fresh "Hp" in let HP := fresh "HP" in
             inversion H as [|? ? [Hp HP] ?]; subst; clear H
         end.
  rewrite !weight_cons in W. change (weight []) with 0 in W.
  pose proof (weight_nonneg rest Frest) as Wr.
  assert (T : P (fst r0 + fst r1 + (fst r2 + fst r3)
                 + (fst r4 + fst r5 + (fst r6 + fst r7)))
                (snd r0 + snd r1 + (snd r2 + snd r3)
                 + (snd r4 + snd r5 + (snd r6 + snd r7)))%float).
  { repeat (apply P_add; try lia; auto). }
  replace (weight a)
    with ((fst r0 + fst r1 + (fst r2 + fst r3)
           + (fst r4 + fst r5 + (fst r6 + fst r7))) + weight rest) by lia.
  apply add_seq_weighed; auto; lia.
Qed.

Lemma pairwise_sum_weighed (fuel : nat) :
  forall a : list (Z * float),
    (length a <= fuel)%nat -> a <> [] -> Forall weighed a -> weight a <= N ->
    P (weight a) (pairwise_sum fuel (values a)).
Proof.
  induction fuel as [|fuel IH]; intros a Hfuel Hne Ha Hn.
  - destruct a; [congruence|cbn in Hfuel; lia].
  - assert (Lv : length (values a) = length a)
      by (unfold values; apply length_map).
    cbn [pairwise_sum]. cbv zeta. rewrite Lv.
    destruct (length a <? 8)%nat eqn:E8; [now apply add_seq_zero|].
    apply Nat.ltb_ge in E8.
    destruct (length a <=? 128)%nat eqn:E128; [now apply block_sum_weighed|].
    apply Nat.leb_gt in E128.
    set (n2 := (length a / 2 - (length a / 2) mod 8)%nat).
    assert (Hn2 : (1 <= n2 < length a)%nat).
    { unfold n2.
      pose proof (Nat.mod_upper_bound (length a / 2) 8 ltac:(lia)).
      pose proof (Nat.div_mod_eq (length a) 2).
      pose proof (Nat.mod_upper_bound (length a) 2 ltac:(lia)). lia. }
    assert (Ev : firstn n2 (values a) = values (firstn n2 a))
      by (unfold values; now rewrite firstn_map).
    assert (Es : skipn n2 (values a) = values (skipn n2 a))
      by (unfold values; now rewrite skipn_map).
    rewrite Ev, Es.
    destruct (Forall_firstn_skipn weighed n2 a Ha) as [F1 F2].
    pose proof (weight_split n2 a) as Ws.
    pose proof (weight_nonneg _ F1). pose proof (weight_nonneg _ F2).
    rewrite Ws. apply P_add; try lia.
    + apply IH; auto; try lia.
      * rewrite length_firstn. lia.
      * intros E. apply (f_equal (@length _)) in E.
        rewrite length_firstn in E. cbn [length] in E. lia.
    + apply IH; auto; try lia.
      * rewrite length_skipn. lia.
      * intros E. apply (f_equal (@length _)) in E.
        rewrite length_skipn in E. cbn [length] in E. lia.
Qed.

Lemma np_sum_weighed (a : list (Z * float)) :
  a <> [] -> Forall weighed a -> weight a <= N ->
  P (weight a) (np_sum (values a)).
Proof.
  intros Hne Ha Hn. unfold np_sum.
  assert (H : P (weight a) (pairwise_sum (length (values a)) (values a))).
  { apply pairwise_sum_weighed; auto.
    unfold values. now rewrite length_map. }
  now rewrite (P_zero _ _ H).
Qed.

End Summation.

(** *** Sums and means of integer columns *)

Definition exact_int (z : Z) (v : float) : Prop :=
  0 <= z < 2 ^ 53 /\ v = of_Z z.

Lemma exact_int_add (N : Z) :
  N < 2 ^ 53 ->
  forall z1 z2 u v,
    0 <= z1 -> 0 <= z2 -> z1 + z2 <= N ->
    exact_int z1 u -> exact_int z2 v -> exact_int (z1 + z2) (u + v)%float.
Proof.
  intros HN z1 z2 u v H1 H2 H [_ ->] [_ ->]. split; [lia|].
  apply add_of_Z_nonneg; lia.
Qed.

Lemma exact_int_zero (z : Z) (v : float) :
  exact_int z v -> (0 + v)%float = v.
Proof.
  intros [Hz ->]. destruct (Z.eq_dec z 0) as [->|Nz]; [reflexivity|].
  apply add_zero_l, of_Z_fpos.
  split; [lia|]. apply Z.lt_trans with (2 ^ 53); [lia|reflexivity].
Qed.

Lemma Zsum_ge_In (l : list Z) (z : Z) :
  Forall (fun x => 0 <= x) l -> In z l -> z <= Zsum l /\ 0 <= Zsum l.
Proof.
  induction 1 as [|x l Hx Hl IH]; intros Hin; [destruct Hin|].
  change (Zsum (x :: l)) with (x + Zsum l).
  assert (0 <= Zsum l).
  { clear - Hl. induction Hl as [|y l Hy _ IH]; [cbn; lia|].
    change (Zsum (y :: l)) with (y + Zsum l). lia. }
  destruct Hin as [->|Hin]; [lia|]. specialize (IH Hin). lia.
Qed.

(** The [float64] sum of a column of integers that are not negative and
    add up to less than [2^53] is their sum. *)
Lemma np_sum_of_Z (l : list Z) :
  Forall (fun x => 0 <= x) l -> Zsum l < 2 ^ 53 ->
  np_sum (map of_Z l) = of_Z (Zsum l).
Proof.
  intros Hpos Hsum.
  destruct l as [|x l]; [reflexivity|].
  set (l' := x :: l) in *.
  set (a := map (fun z => (z, of_Z z)) l').
  assert (Ev : values a = map of_Z l')
    by (unfold values, a; rewrite map_map; reflexivity).
  assert (Ew : weight a = Zsum l')
    by (unfold weight, a; rewrite map_map; cbn [fst]; now rewrite map_id).
  assert (Ha : Forall (weighed exact_int) a).
  { unfold a. apply Forall_map. apply Forall_forall. intros z Hz.
    destruct (Zsum_ge_In l' z Hpos Hz) as [Hle _].
    rewrite Forall_forall in Hpos. specialize (Hpos z Hz).
    unfold weighed, exact_int. cbn [fst snd]. repeat split; lia. }
  assert (Hne : a <> []) by (unfold a, l'; discriminate).
  pose proof (np_sum_weighed exact_int (Zsum l')
                (exact_int_add (Zsum l') Hsum) exact_int_zero a Hne Ha
                ltac:(lia)) as H.
  rewrite Ev, Ew in H. exact (proj2 H).
Qed.

(** X23. The customers card.  Where no customers value is negative and
    they add up to less than [2^53], the [float64] sum behind the mean is
    exact: the mean of a view that is not empty is the total of its
    customers over its number of rows, rounded once; the mean of an empty
    view is NaN. *)
Theorem avg_customers_exact_total (fdf : DataFrame) :
  Forall (fun r => 0 <= customers (sale r)) (records fdf) ->
  Zsum (column customers fdf) < 2 ^ 53 ->
  avg_customers fdf
  = match fdf with
    | [] => nan
    | _ :: _ => (of_Z (Zsum (column customers fdf))
                 / of_Z (Z.of_nat (length fdf)))%float
    end.
Proof.
  intros Hpos Hsum. unfold avg_customers, int64_mean.
  assert (Hcol : Forall (fun x => 0 <= x) (column customers fdf))
    by (unfold column; apply Forall_map; exact Hpos).
  assert (L : length (column customers fdf) = length fdf)
    by (unfold column, records; now rewrite !length_map).
  rewrite L, (np_sum_of_Z _ Hcol Hsum).
  destruct fdf; reflexivity.
Qed.

(** *** The customers mean of the generated sample *)

Lemma sample_customers_column (g : RandomState) :
  Forall (fun c => 16 <= c <= 499)
         (column customers (fst (create_sample_data g))).
Proof.
  rewrite column_sample. apply Forall_map.
  eapply Forall_impl; [|apply (sample_records_ok g)].
  intros s (_ & _ & _ & d & (Hsales & _ & Hdiv & _) & Hs).
  assert (Ec : customers s
               = int (of_Z (drawn_sales d) / of_Z (drawn_divisor d))%float)
    by (rewrite Hs; reflexivity).
  rewrite Ec, customers_floor by assumption.
  pose proof (Z.div_mod (drawn_sales d) (drawn_divisor d) ltac:(lia)) as E.
  pose proof (Z.mod_pos_bound (drawn_sales d) (drawn_divisor d) ltac:(lia)).
  split; nia.
Qed.

(** For [n] rows: the means of [n] times 16 and of [n] times 499 are 16
    and 499, and division by [n] is monotone across the binade boundaries
    between those two totals. *)
Definition check_mean (n : Z) : bool :=
  let D := of_Z n in
  let lo := of_Z (16 * n) in
  let hi := of_Z (499 * n) in
  (16 <=? lo / D)%float && (hi / D <=? 499)%float
  && forall_from (check_boundary n) (exponent_of lo)
       (Z.to_nat (exponent_of hi - exponent_of lo)).

Lemma check_all_means : forall_from check_mean 1 403 = true.
Proof. vm_compute. reflexivity. Qed.

Lemma mean_range (n total : Z) :
  1 <= n <= 403 -> 16 * n <= total <= 499 * n ->
  fle 16 (of_Z total / of_Z n) /\ fle (of_Z total / of_Z n) 499.
Proof.
  intros Hn Ht.
  assert (Hin : 1 <= n < 1 + Z.of_nat 403)
    by (change (Z.of_nat 403) with 403; lia).
  pose proof (forall_from_spec _ _ _ n check_all_means Hin) as Hc.
  unfold check_mean in Hc. cbv zeta in Hc.
  apply andb_true_iff in Hc as [Hc Hb]. apply andb_true_iff in Hc as [C1 C2].
  set (D := of_Z n) in *. set (lo := of_Z (16 * n)) in *.
  set (hi := of_Z (499 * n)) in *. set (X := of_Z total).
  assert (ND : fnice D = true) by (apply of_Z_int64_nice; lia).
  assert (Nlo : fnice lo = true) by (apply of_Z_int64_nice; lia).
  assert (Nhi : fnice hi = true) by (apply of_Z_int64_nice; lia).
  assert (NX : fnice X = true) by (apply of_Z_int64_nice; lia).
  assert (L1 : fle lo X) by (apply of_Z_le; [lia|reflexivity || lia]).
  assert (L2 : fle X hi) by (apply of_Z_le; [lia|reflexivity || lia]).
  pose proof (exponent_between _ _ _ Nlo Nhi L1 L2) as EX.
  assert (Hstep : forall e, exponent_of lo <= e < exponent_of hi ->
                    fle (binade_top e / D) (binade_bottom (e + 1) / D)).
  { intros e He.
    assert (Hr : exponent_of lo <= e
                 < exponent_of lo
                   + Z.of_nat (Z.to_nat (exponent_of hi - exponent_of lo)))
      by (rewrite Z2Nat.id by lia; lia).
    exact (forall_from_spec _ _ _ e Hb Hr). }
  assert (Q1 : fle (lo / D) (X / D)).
  { apply (div_mono_chain D (Z.to_nat (exponent_of X - exponent_of lo)));
      auto; [rewrite Z2Nat.id; lia|].
    intros e He. apply Hstep. lia. }
  assert (Q2 : fle (X / D) (hi / D)).
  { apply (div_mono_chain D (Z.to_nat (exponent_of hi - exponent_of X)));
      auto; [rewrite Z2Nat.id; lia|].
    intros e He. apply Hstep. lia. }
  split.
  - apply (fle_trans _ (lo / D)); [now apply div_fpos|exact C1|exact Q1].
  - apply (fle_trans _ (hi / D)); [now apply div_fpos|exact Q2|exact C2].
Qed.

(** X24. The customers card of the generated sample.  Whatever the
    generator draws and whatever is selected, a view that is not empty
    shows a mean between 16 and 499 customers. *)
Theorem sample_avg_customers_range (g : RandomState) (ui : Sidebar) :
  let f := filtered_df (fst (create_sample_data g)) ui in
  f <> [] ->
  (16 <=? avg_customers f)%float = true
  /\ (avg_customers f <=? 499)%float = true.
Proof.
  intros f Hne.
  pose proof (sample_customers_column g) as Hd.
  assert (Hf : Forall (fun c => 16 <= c <= 499) (column customers f))
    by (eapply Subseq_Forall; [apply column_Subseq|exact Hd]).
  pose proof (Zsum_bounds _ _ _ Hf) as B.
  assert (L : length (column customers f) = length f)
    by (unfold column, records; now rewrite !length_map).
  rewrite L in B.
  pose proof (Subseq_length _ _ (filtered_df_Subseq
                                   (fst (create_sample_data g)) ui)) as Lf.
  fold f in Lf. rewrite sample_length in Lf.
  assert (Hn : 1 <= Z.of_nat (length f) <= 403)
    by (destruct f; [congruence|cbn [length] in *; lia]).
  unfold avg_customers, int64_mean. rewrite L.
  rewrite np_sum_of_Z.
  - destruct f as [|r f']; [congruence|].
    change (0 <? length (r :: f'))%nat with true. cbv iota.
    apply mean_range; lia.
  - eapply Forall_impl; [|exact Hf]. cbv beta. intros; lia.
  - apply Z.le_lt_trans with (499 * 403); [lia|reflexivity].
Qed.

(** *** The total profit of the generated sample *)

Lemma fnice_not_nan (x : float) : fnice x = true -> is_nan x = false.
Proof.
  intros H. apply fnice_inv in H as (m & e & E & _).
  unfold is_nan. rewrite eqb_spec, E. unfold SFeqb, SFcompare, fin.
  now rewrite Z.compare_refl, Pos.compare_refl.
Qed.

(** A sum of [k] values between 250 and 7000. *)
Definition profit_sum (k : Z) (v : float) : Prop :=
  1 <= k <= 1000000 /\ fle (of_Z (250 * k)) v /\ fle v (of_Z (7000 * k)).

Lemma profit_sum_nice (k : Z) (v : float) :
  profit_sum k v -> fnice v = true.
Proof.
  intros (H1 & Hlo & Hhi).
  apply (fnice_between (of_Z (250 * k)) (of_Z (7000 * k))); auto;
    apply of_Z_int64_nice; lia.
Qed.

Lemma profit_sum_add (N : Z) :
  N <= 1000000 ->
  forall z1 z2 u v,
    0 <= z1 -> 0 <= z2 -> z1 + z2 <= N ->
    profit_sum z1 u -> profit_sum z2 v -> profit_sum (z1 + z2) (u + v)%float.
Proof.
  intros HN z1 z2 u v _ _ Hsum Pu Pv.
  pose proof (profit_sum_nice z1 u Pu) as Nu.
  pose proof (profit_sum_nice z2 v Pv) as Nv.
  destruct Pu as (K1 & Ua & Ub). destruct Pv as (K2 & Va & Vb).
  assert (B53 : 7000 * 1000000 < 2 ^ 53) by reflexivity.
  assert (Nice : forall z, 0 < z <= 7000 * 1000000 -> fnice (of_Z z) = true)
    by (intros z Hz; apply of_Z_int64_nice; lia).
  assert (Add : forall a b, 0 < a -> 0 < b -> a + b <= 7000 * 1000000 ->
                  (of_Z a + of_Z b)%float = of_Z (a + b))
    by (intros a b Ha Hb Hab; apply add_of_Z; lia).
  assert (Na1 : fnice (of_Z (250 * z1)) = true) by (apply Nice; lia).
  assert (Na2 : fnice (of_Z (250 * z2)) = true) by (apply Nice; lia).
  assert (Nb1 : fnice (of_Z (7000 * z1)) = true) by (apply Nice; lia).
  assert (Nb2 : fnice (of_Z (7000 * z2)) = true) by (apply Nice; lia).
  split; [lia|]. split.
  - replace (250 * (z1 + z2)) with (250 * z1 + 250 * z2) by lia.
    pose proof (add_mono_l (of_Z (250 * z2)) _ _ Na2 Na1 Nu Ua) as S1.
    pose proof (add_mono_r u _ _ Nu Na2 Nv Va) as S2.
    pose proof (add_mono_l (of_Z (250 * z2)) _ _ Na2 Nu Nb1 Ub) as S3.
    rewrite Add in S1, S3 by lia.
    assert (Nlo : fnice (of_Z (250 * z1 + 250 * z2)) = true)
      by (apply Nice; lia).
    assert (Nhi : fnice (of_Z (7000 * z1 + 250 * z2)) = true)
      by (apply Nice; lia).
    pose proof (fnice_between _ _ _ Nlo Nhi S1 S3) as Nm.
    exact (fle_trans _ _ _ (fnice_fpos _ Nm) S1 S2).
  - replace (7000 * (z1 + z2)) with (7000 * z1 + 7000 * z2) by lia.
    pose proof (add_mono_r u _ _ Nu Nv Nb2 Vb) as S1.
    pose proof (add_mono_l (of_Z (7000 * z2)) _ _ Nb2 Nu Nb1 Ub) as S2.
    pose proof (add_mono_l (of_Z (7000 * z2)) _ _ Nb2 Na1 Nu Ua) as S3.
    rewrite Add in S2, S3 by lia.
    assert (Nlo : fnice (of_Z (250 * z1 + 7000 * z2)) = true)
      by (apply Nice; lia).
    assert (Nhi : fnice (of_Z (7000 * z1 + 7000 * z2)) = true)
      by (apply Nice; lia).
    pose proof (fnice_between _ _ _ Nlo Nhi S3 S2) as Nm.
    exact (fle_trans _ _ _ (fnice_fpos _ Nm) S1 S2).
Qed.

Lemma profit_sum_zero (z : Z) (v : float) :
  profit_sum z v -> (0 + v)%float = v.
Proof.
  intros H. apply add_zero_l, fnice_fpos. exact (profit_sum_nice z v H).
Qed.

Lemma sample_profit_column (g : RandomState) :
  Forall (profit_sum 1) (column profit (fst (create_sample_data g))).
Proof.
  rewrite column_sample. apply Forall_map.
  eapply Forall_impl; [|apply (sample_records_ok g)].
  intros s (_ & _ & _ & d & Hd & Hs).
  assert (Ep : profit s = (of_Z (drawn_sales d) * factor_of (drawn_k d))%float)
    by (rewrite Hs; reflexivity).
  rewrite Ep. unfold profit_sum. split; [lia|].
  exact (profit_of_draws_range d Hd).
Qed.

(** X25. The profit card of the generated sample.  Whatever the generator
    draws and whatever is selected, the total profit of a view that is not
    empty is between 250 and 7000 times its number of rows, so it is
    positive. *)
Theorem sample_total_profit_range (g : RandomState) (ui : Sidebar) :
  let f := filtered_df (fst (create_sample_data g)) ui in
  f <> [] ->
  (of_Z (250 * Z.of_nat (length f)) <=? total_profit f)%float = true
  /\ (total_profit f <=? of_Z (7000 * Z.of_nat (length f)))%float = true
  /\ (0 <? total_profit f)%float = true.
Proof.
  intros f Hne.
  pose proof (sample_profit_column g) as Hd.
  assert (Hf : Forall (profit_sum 1) (column profit f))
    by (eapply Subseq_Forall; [apply column_Subseq|exact Hd]).
  pose proof (Subseq_length _ _ (filtered_df_Subseq
                                   (fst (create_sample_data g)) ui)) as Lf.
  fold f in Lf. rewrite sample_length in Lf.
  assert (L : length (column profit f) = length f)
    by (unfold column, records; now rewrite !length_map).
  unfold total_profit, float64_sum.
  assert (Enan : map (fun x => if is_nan x then 0%float else x)
                     (column profit f) = column profit f).
  { rewrite <- (map_id (column profit f)) at 2. apply map_ext_in.
    intros x Hx. rewrite Forall_forall in Hf.
    now rewrite (fnice_not_nan x (profit_sum_nice 1 x (Hf x Hx))). }
  rewrite Enan.
  set (a := map (fun p : float => (1, p)) (column profit f)).
  assert (Ev : values a = column profit f)
    by (unfold values, a; rewrite map_map; apply map_id).
  assert (Ew : weight a = Z.of_nat (length f)).
  { unfold weight, a. rewrite map_map. cbn [fst]. rewrite <- L.
    clear. induction (column profit f) as [|x l IH]; [reflexivity|].
    cbn [map length]. change (Zsum (1 :: map (fun _ => 1) l))
      with (1 + Zsum (map (fun _ : float => 1) l)).
    rewrite IH. lia. }
  assert (Ha : Forall (weighed profit_sum) a).
  { unfold a. apply Forall_map. eapply Forall_impl; [|exact Hf].
    intros x Hx. split; [cbn; lia|exact Hx]. }
  assert (Hna : a <> []).
  { unfold a. destruct (column profit f) eqn:E; [|discriminate].
    apply column_nil in E. congruence. }
  pose proof (np_sum_weighed profit_sum 403 (profit_sum_add 403 ltac:(lia))
                profit_sum_zero a Hna Ha ltac:(lia)) as H.
  rewrite Ev, Ew in H. destruct H as (Hk & Hlo & Hhi).
  split; [exact Hlo|]. split; [exact Hhi|].
  assert (Nt : fnice (np_sum (column profit f)) = true).
  { apply (profit_sum_nice (Z.of_nat (length f))). repeat split; auto; lia. }
  apply fnice_inv in Nt as (m & e & E & _).
  rewrite ltb_spec, E. reflexivity.
Qed.

(** ** The totals over a partition, with the profit *)

Lemma of_Z_not_nan (z : Z) : 0 <= z < 2 ^ 53 -> is_nan (of_Z z) = false.
Proof.
  intros Hz. destruct (Z.eq_dec z 0) as [->|N]; [reflexivity|].
  apply fnice_not_nan, of_Z_int64_nice. split; [lia|].
  apply Z.lt_trans with (2 ^ 53); [lia|reflexivity].
Qed.

(** [Series.sum()] of whole numbers that are not negative and add up to
    less than [2^53]: no addition rounds. *)
Lemma float64_sum_of_Z (l : list Z) :
  Forall (fun x => 0 <= x) l -> Zsum l < 2 ^ 53 ->
  float64_sum (map of_Z l) = of_Z (Zsum l).
Proof.
  intros Hpos Hsum. unfold float64_sum. rewrite map_map.
  rewrite (map_ext_in _ of_Z); [now apply np_sum_of_Z|].
  intros z Hz. rewrite of_Z_not_nan; [reflexivity|].
  destruct (Zsum_ge_In l z Hpos Hz) as [Hle _].
  rewrite Forall_forall in Hpos. specialize (Hpos z Hz). lia.
Qed.

Lemma whole_profit_total (whole : Row -> Z) (df : DataFrame) :
  Forall (fun r => 0 <= whole r /\ profit (sale r) = of_Z (whole r))
         (records df) ->
  Zsum (map whole (records df)) < 2 ^ 53 ->
  total_profit df = of_Z (Zsum (map whole (records df))).
Proof.
  intros H Hsum. unfold total_profit, column.
  rewrite (map_ext_in _ (fun r => of_Z (whole r)))
    by (intros r Hr; rewrite Forall_forall in H; apply H; exact Hr).
  rewrite <- (map_map whole of_Z). apply float64_sum_of_Z; [|exact Hsum].
  apply Forall_map. eapply Forall_impl; [|exact H].
  intros r [Hr _]; exact Hr.
Qed.

Lemma records_getitem_mask_Subseq (df : DataFrame) (m : Row -> bool) :
  Subseq (records (getitem_mask df m)) (records df).
Proof. unfold records, getitem_mask. apply Subseq_map, Subseq_filter. Qed.

Lemma whole_profit_partition (key : Row -> string) (whole : Row -> Z)
  (df : DataFrame) :
  Forall (fun r => 0 <= whole r /\ profit (sale r) = of_Z (whole r))
         (records df) ->
  Zsum (map whole (records df)) < 2 ^ 53 ->
  total_profit df = float64_sum (map total_profit (partition_by key df)).
Proof.
  intros H Hsum.
  assert (Hpos : Forall (fun x => 0 <= x) (map whole (records df))).
  { apply Forall_map. eapply Forall_impl; [|exact H].
    intros r [Hr _]; exact Hr. }
  set (cell := fun k => getitem_mask df (fun r => String.eqb (key r) k)).
  set (ks := unique (map key (records df))).
  assert (Hcell : forall k,
             0 <= Zsum (map whole (records (cell k)))
                <= Zsum (map whole (records df))).
  { intros k. apply Subseq_Zsum; [|exact Hpos].
    apply Subseq_map, records_getitem_mask_Subseq. }
  assert (Ecell : forall k,
             total_profit (cell k)
             = of_Z (Zsum (map whole (records (cell k))))).
  { intros k. apply whole_profit_total.
    - eapply Subseq_Forall; [apply records_getitem_mask_Subseq|exact H].
    - specialize (Hcell k). lia. }
  assert (Epart : Zsum (map whole (records df))
                  = Zsum (map (fun k => Zsum (map whole (records (cell k))))
                              ks)).
  { apply Zsum_partition; [apply unique_NoDup|].
    intros ir Hin. apply (proj2 (unique_In _ _)). unfold records.
    rewrite map_map. now apply (in_map (fun x => key (snd x))). }
  rewrite (whole_profit_total whole df H Hsum).
  unfold partition_by. fold cell. fold ks. rewrite map_map.
  rewrite (map_ext _ (fun k => of_Z (Zsum (map whole (records (cell k))))))
    by exact Ecell.
  rewrite <- (map_map (fun k => Zsum (map whole (records (cell k)))) of_Z).
  rewrite float64_sum_of_Z.
  - now rewrite <- Epart.
  - apply Forall_map. apply Forall_forall. intros k _.
    exact (proj1 (Hcell k)).
  - now rewrite <- Epart.
Qed.

(** C3, amended. For a frame whose sales and customers are [int64]
    columns, the totals of those columns and the number of transactions
    are additive over partitions: for the partition of the frame by
    category, by region, or by any other key, each is the ([int64]) sum of
    the same total over the cells.  The total profit, a [float64] sum, is
    additive when every profit is a whole number that is not negative and
    the profits add up to less than [2^53], so that no addition rounds; in
    general it is not. *)
Theorem totals_additive_over_partitions (key : Row -> string)
  (df : DataFrame) :
  let cells := partition_by key df in
  total_sales df = int64_sum (map total_sales cells)
  /\ int64_sum (column customers df)
     = int64_sum (map (fun cell => int64_sum (column customers cell)) cells)
  /\ wrap64 (Z.of_nat (length df))
     = int64_sum (map (fun cell => Z.of_nat (length cell)) cells)
  /\ (forall whole : Row -> Z,
        Forall (fun r => 0 <= whole r /\ profit (sale r) = of_Z (whole r))
               (records df) ->
        Zsum (map whole (records df)) < 2 ^ 53 ->
        total_profit df = float64_sum (map total_profit cells)).
Proof.
  intros cells.
  destruct (integer_totals_partition key df) as (H1 & H2 & H3).
  split; [exact H1|]. split; [exact H2|]. split; [exact H3|].
  intros whole. apply whole_profit_partition.
Qed.

(** ** The line chart *)

Lemma unique_dates_In (l : list Timestamp) (x : Timestamp) :
  In x (unique_dates l) <-> In x l.
Proof.
  induction l as [|y l IH]; cbn [unique_dates In]; [tauto|].
  rewrite filter_In, IH, negb_true_iff, Z.eqb_neq.
  destruct (Z.eq_dec x y); subst; intuition.
Qed.

Lemma unique_dates_NoDup (l : list Timestamp) : NoDup (unique_dates l).
Proof.
  induction l as [|y l IH]; cbn [unique_dates]; constructor.
  - rewrite filter_In, Z.eqb_refl. intros [_ H]. discriminate.
  - now apply NoDup_filter.
Qed.

Lemma insert_date_perm (x : Timestamp) (l : list Timestamp) :
  Permutation (insert_date x l) (x :: l).
Proof.
  induction l as [|y t IH]; cbn [insert_date]; [reflexivity|].
  destruct (x <=? y); [reflexivity|].
  rewrite IH. apply perm_swap.
Qed.

Lemma sorted_dates_perm (l : list Timestamp) : Permutation (sorted_dates l) l.
Proof.
  induction l as [|x l IH]; cbn [sorted_dates fold_right]; [reflexivity|].
  fold (sorted_dates l). rewrite insert_date_perm. now constructor.
Qed.

Lemma insert_date_sorted (x : Timestamp) (l : list Timestamp) :
  ~ In x l -> StronglySorted Z.lt l -> StronglySorted Z.lt (insert_date x l).
Proof.
  intros Hx Hs. induction Hs as [|y t Hs IH Hall]; cbn [insert_date].
  - repeat constructor.
  - assert (Hxy : x <> y) by (intros ->; apply Hx; now left).
    destruct (x <=? y) eqn:E.
    + apply Z.leb_le in E. constructor; [now constructor|].
      constructor; [lia|].
      eapply Forall_impl; [|exact Hall]. cbv beta. intros; lia.
    + apply Z.leb_gt in E. constructor.
      * apply IH. intros H. apply Hx. now right.
      * apply Forall_forall. intros z Hz.
        apply (Permutation_in _ (insert_date_perm x t)) in Hz.
        destruct Hz as [<-|Hz]; [lia|].
        rewrite Forall_forall in Hall. now apply Hall.
Qed.

Lemma sorted_dates_sorted (l : list Timestamp) :
  NoDup l -> StronglySorted Z.lt (sorted_dates l).
Proof.
  induction 1 as [|x l Hx _ IH]; cbn [sorted_dates fold_right];
    [constructor|].
  apply insert_date_sorted; [|exact IH].
  intros H. apply Hx.
  exact (Permutation_in _ (sorted_dates_perm l) H).
Qed.

Lemma Z_indicator (ks : list Z) (x v : Z) :
  NoDup ks -> In x ks ->
  Zsum (map (fun k => if x =? k then v else 0) ks) = v.
Proof.
  induction 1 as [|k ks Hk Hnd IH]; intros Hin; [destruct Hin|].
  cbn [map]. change (Zsum (?a :: ?l)) with (a + Zsum l).
  destruct Hin as [->|Hin].
  - rewrite Z.eqb_refl.
    assert (E : Zsum (map (fun k0 => if x =? k0 then v else 0) ks) = 0).
    { clear IH Hnd. induction ks as [|k' ks IH']; [reflexivity|].
      cbn [map]. change (Zsum (?a :: ?l)) with (a + Zsum l).
      destruct (Z.eqb_spec x k').
      - subst. exfalso. apply Hk. now left.
      - rewrite IH'; [reflexivity|]. intros H. apply Hk. now right. }
    rewrite E. lia.
  - destruct (Z.eqb_spec x k).
    + subst. contradiction.
    + rewrite IH by assumption. lia.
Qed.

Lemma Zsum_groups {A} (key v : A -> Z) (ks : list Z) (l : list A) :
  NoDup ks -> (forall x, In x l -> In (key x) ks) ->
  Zsum (map v l)
  = Zsum (map (fun k => Zsum (map v (filter (fun x => key x =? k) l))) ks).
Proof.
  intros Hnd. induction l as [|x l IH]; intros Hin.
  - cbn [filter map]. change (Zsum []) with 0. now rewrite Zsum_zeros.
  - cbn [map]. change (Zsum (v x :: map v l)) with (v x + Zsum (map v l)).
    rewrite IH by (intros; apply Hin; now right).
    rewrite <- (Z_indicator ks (key x) (v x) Hnd) at 1
      by (apply Hin; now left).
    rewrite <- Zsum_add_map. f_equal. apply map_ext. intros k.
    cbn [filter]. destruct (key x =? k); reflexivity.
Qed.

(** X26. The table of the line chart.  It has one point per date of the
    view, in chronological order and no date twice; a date has a point
    exactly when some row of the view has it; the sales of the points add
    up to the total sales card; and for the whole generated sample the
    points are the 31 days of January 2024. *)
Theorem daily_sales_points (fdf : DataFrame) :
  let t := daily_sales fdf in
  StronglySorted Z.lt (map fst t)
  /\ (forall d, In d (map fst t) <-> In d (column date fdf))
  /\ int64_sum (map snd t) = total_sales fdf
  /\ forall g : RandomState,
       map fst (daily_sales (fst (create_sample_data g))) = Sample.date_range.
Proof.
  intros t.
  assert (Ek : forall f, map fst (daily_sales f)
                         = sorted_dates (unique_dates (column date f))).
  { intros f. unfold daily_sales. rewrite map_map. cbn [fst]. apply map_id. }
  unfold t. rewrite Ek.
  pose proof (sorted_dates_perm (unique_dates (column date fdf))) as Hp.
  split; [apply sorted_dates_sorted, unique_dates_NoDup|].
  split.
  { intros d. split; intros H.
    - apply (proj1 (unique_dates_In _ d)).
      eapply Permutation_in; [exact Hp|exact H].
    - eapply Permutation_in; [symmetry; exact Hp|].
      apply (proj2 (unique_dates_In _ d)). exact H. }
  split.
  - unfold daily_sales, total_sales. rewrite map_map. cbn [snd].
    set (ks := sorted_dates (unique_dates (column date fdf))) in *.
    rewrite (int64_sum_Zsum (column sales fdf)).
    unfold column at 1.
    rewrite (Zsum_groups (fun r => date (sale r)) (fun r => sales (sale r))
               ks (records fdf)).
    + rewrite int64_sum_Zsum.
      rewrite (map_ext _ (fun k => wrap64 (Zsum (map (fun r => sales (sale r))
                 (filter (fun r => date (sale r) =? k) (records fdf))))))
        by (intros k; apply int64_sum_Zsum).
      rewrite <- (map_map (fun k => Zsum (map (fun r => sales (sale r))
                    (filter (fun r => date (sale r) =? k) (records fdf))))
                          wrap64).
      now rewrite wrap64_Zsum_wrap.
    + eapply Permutation_NoDup; [symmetry; exact Hp|apply unique_dates_NoDup].
    + intros r Hr. eapply Permutation_in; [symmetry; exact Hp|].
      apply (proj2 (unique_dates_In _ _)). unfold column.
      apply (in_map (fun r => date (sale r))). exact Hr.
  - intros g. rewrite Ek, sample_dates_column. vm_compute. reflexivity.
Qed.

(* ================================================================= *)
(** * Worked runs *)

(** A two-line [data.csv], a reader of its two dates, and stand-ins for
    the formatters and table operations of the libraries. *)
Definition demo_csv : list (Sale string) :=
  [ mkSale "2024-01-05" "Casa" "Forno" 1200 300.5 20 "Nord";
    mkSale "2024-01-06" "Elettronica" "TV" 800 210.25 11 "Sud" ].

Definition demo_parse (s : string) : option Timestamp :=
  if String.eqb s "2024-01-05" then Some (to_datetime 19727)
  else if String.eqb s "2024-01-06" then Some (to_datetime 19728)
  else None.

Definition demo_frame : DataFrame :=
  [ (0%nat, add_margin (mkSale (to_datetime 19727) "Casa" "Forno"
                               1200 300.5 20 "Nord"));
    (1%nat, add_margin (mkSale (to_datetime 19728) "Elettronica" "TV"
                               800 210.25 11 "Sud")) ].

Definition demo_world : World := mkWorld (fun _ => 0) [] [OFrame demo_frame].

Definition demo_float (x : float) : string := "<float>".
Definition demo_datetime (col : list Timestamp) (t : Timestamp) : string :=
  str (t / ns_per_day).
Definition demo_strftime (fmt : string) (t : Timestamp) : string :=
  str (t / ns_per_day).
Definition demo_groupby (keys : list string) (aggs : list (string * string))
  (df : DataFrame) : Table := [].
Definition demo_nlargest (n : nat) (col : string) (t : Table) : Table := t.
Definition demo_sort (col : string) (ascending : bool) (t : Table) : Table := t.

Definition demo_render (ui : Sidebar) : result nat * World :=
  render demo_float demo_datetime demo_strftime demo_groupby demo_nlargest
    demo_sort 0 ui demo_world.

(** Only a start date picked, one category and one region selected. *)
Definition demo_one_date : Sidebar :=
  mkSidebar [19727] ["Casa"] ["Nord"] "Dettaglio Completo" true
    (mkDateTime 2026 11 3 9 5).

(** A complete range, every category deselected. *)
Definition demo_no_category : Sidebar :=
  mkSidebar [19727; 19728] [] ["Nord"; "Sud"] "Sintesi" true
    (mkDateTime 2026 11 3 9 5).

Example demo_margins :
  map margin (records demo_frame) = [25.04; 26.28]%float.
Proof. reflexivity. Qed.

(** [rint] rounds ties to even and keeps the sign, of zero too; so does
    the margin of a row with no profit and negative sales. *)
Example demo_rint :
  rint 2.5 = 2%float /\ rint 3.5 = 4%float /\ rint (-2.5) = (-2)%float
  /\ Prim2SF (rint 0.3) = S754_zero false
  /\ Prim2SF (rint (-0.3)) = S754_zero true
  /\ Prim2SF (rint (- 0)) = S754_zero true
  /\ Prim2SF (margin_of (- 0) 1000) = S754_zero true
  /\ Prim2SF (margin_of 0 (-1000)) = S754_zero true.
Proof. repeat split; reflexivity. Qed.

Lemma load_data_margin_witness :
  Forall (fun r =>
            let quotient :=
              (profit (sale r) / of_Z (sales (sale r)) * 100)%float in
            margin r = (nearest_integer (quotient * 100) / 100)%float)
         (records demo_frame).
Proof.
  apply (load_data_margin (Return demo_csv) demo_parse demo_world demo_world
           demo_frame).
  reflexivity.
Defined.

(** A file with one row, of profit 250.15 on sales of 1000. *)
Definition near_tie_csv : list (Sale string) :=
  [ mkSale "2024-01-05" "Casa" "Forno" 1000 250.15 20 "Nord" ].

(** C1, as stated, fails where the [float64] operations round across a
    tie.  The profit 250.15 is the [float64]
    250.150000000000005684...; over 1000 and times 100 it is exactly
    25.0150000000000005684..., which rounds to 25.02 (2502 hundredths).
    [load_data] gives the row the margin 25.01: the [float64] quotient
    times 100 is 25.014999999999997, below the tie. *)
Lemma margin_not_exact_quotient_rounded :
  load_data (Return near_tie_csv) demo_parse demo_world
  = (Return [ (0%nat,
               mkRow (mkSale (to_datetime 19727) "Casa" "Forno" 1000 250.15
                             20 "Nord")
                     25.01) ],
     demo_world)
  /\ exact_margin_cents 250.15 1000 = Some 2502
  /\ (of_Z 2502 / 100 =? 25.02)%float = true
  /\ (250.15 / of_Z 1000 * 100 =? 25.014999999999997)%float = true
  /\ (25.01 =? 25.02)%float = false.
Proof. repeat split; reflexivity. Qed.

(** Three rows, two categories, with whole profits. *)
Definition whole_profit_frame : DataFrame :=
  range_index
    (map add_margin
       [ mkSale (to_datetime 19723) "Casa" "Forno" 400 120 9 "Nord";
         mkSale (to_datetime 19723) "Elettronica" "TV" 150 45 3 "Nord";
         mkSale (to_datetime 19724) "Casa" "Forno" 800 250 17 "Sud" ]).

Lemma totals_additive_witness :
  let cells := partition_by (fun r => category (sale r)) whole_profit_frame in
  map total_profit cells = [370; 45]%float
  /\ total_profit whole_profit_frame = 415%float
  /\ total_profit whole_profit_frame = float64_sum (map total_profit cells).
Proof.
  cbv zeta. split; [reflexivity|]. split; [reflexivity|].
  apply (proj2 (proj2 (proj2
           (totals_additive_over_partitions (fun r => category (sale r))
              whole_profit_frame)))
           (fun r => match to_Z_trunc (profit (sale r)) with
                     | Some z => z
                     | None => 0
                     end)).
  - repeat (constructor;
            [split; [vm_compute; discriminate|vm_compute; reflexivity]|]).
    constructor.
  - reflexivity.
Defined.

Lemma incomplete_date_range_witness :
  filtered_df demo_frame demo_one_date = demo_frame
  /\ In (add_margin (mkSale (to_datetime 19728) "Elettronica" "TV"
                            800 210.25 11 "Sud"))
        (records (filtered_df demo_frame demo_one_date)).
Proof.
  destruct (incomplete_date_range_ignores_filters demo_frame demo_one_date)
    as [E H]; [simpl; lia|].
  split; [exact E|].
  apply H.
  - right. left. reflexivity.
  - intros [[Hc|[]] _]. discriminate Hc.
Defined.

Lemma loaded_frame_unchanged_witness :
  nth_error (heap (snd (demo_render demo_one_date))) 0 = Some (OFrame demo_frame)
  /\ nth_error (heap (snd (demo_render demo_no_category))) 0
     = Some (OFrame demo_frame).
Proof.
  split.
  - exact (proj1 (loaded_frame_unchanged demo_float demo_datetime
                    demo_strftime demo_groupby demo_nlargest demo_sort
                    0 demo_one_date demo_world demo_frame eq_refl)).
  - exact (proj1 (loaded_frame_unchanged demo_float demo_datetime
                    demo_strftime demo_groupby demo_nlargest demo_sort
                    0 demo_no_category demo_world demo_frame eq_refl)).
Defined.


Example demo_export_text :
  to_csv demo_float demo_datetime false (filtered_df demo_frame demo_one_date)
  = String.concat (String newline EmptyString)
      [ "date,category,product,sales,profit,customers,region,margin";
        "19727,Casa,Forno,1200,<float>,20,Nord,<float>";
        "19728,Elettronica,TV,800,<float>,11,Sud,<float>";
        "" ].
Proof. reflexivity. Qed.

Definition demo_empty_world : World :=
  mkWorld (fun _ => 0) [] [OFrame demo_frame; OFrame []].

Lemma empty_view_witness :
  profit_margin (filtered_df demo_frame demo_no_category) = nan
  /\ is_finite (profit_margin (filtered_df demo_frame demo_no_category))
     = false.
Proof.
  pose proof (empty_view_profit_margin_not_finite 0 1 demo_frame
                demo_empty_world 19727 19728 ["Nord"; "Sud"] "Sintesi" true
                (mkDateTime 2026 11 3 9 5) eq_refl eq_refl) as H.
  split; [exact (proj1 (proj2 (proj2 (proj2 H))))
         | exact (proj1 (proj2 (proj2 (proj2 (proj2 H)))))].
Defined.

(** With an empty view the run ends in the [ValueError] of [NaT.strftime],
    after the KPIs, the charts, the table and the export were shown. *)
Example demo_empty_view_raises :
  fst (demo_render demo_no_category) = Raise ValueError
  /\ length (page (snd (demo_render demo_no_category))) = 11%nat.
Proof. split; reflexivity. Qed.

(** ** Worked runs of the further properties *)

Definition demo_now : DateTime := mkDateTime 2026 11 3 9 5.

(** The two-row frame with the second row at one o'clock in the morning. *)
Definition demo_late_frame : DataFrame :=
  [ (0%nat, add_margin (mkSale (to_datetime 19727) "Casa" "Forno"
                               1200 300.5 20 "Nord"));
    (1%nat, add_margin (mkSale (to_datetime 19728 + 3600000000000)
                               "Elettronica" "TV" 800 210.25 11 "Sud")) ].

(** A complete range, everything selected. *)
Definition demo_everything : Sidebar :=
  mkSidebar [19727; 19728] ["Casa"; "Elettronica"] ["Nord"; "Sud"]
    "Sintesi" false demo_now.

(** A range that ends before it starts. *)
Definition demo_backwards : Sidebar :=
  mkSidebar [19728; 19727] ["Casa"; "Elettronica"] ["Nord"; "Sud"]
    "Sintesi" false demo_now.

Lemma default_selection_shows_every_row_witness :
  exists ui, default_sidebar demo_frame "Sintesi" false demo_now = Some ui
             /\ filtered_df demo_frame ui = demo_frame.
Proof.
  exact (default_selection_shows_every_row demo_frame "Sintesi" false demo_now
           (to_datetime 19728) eq_refl eq_refl).
Defined.

Lemma default_selection_hides_late_rows_witness :
  exists ui,
    default_sidebar demo_late_frame "Sintesi" false demo_now = Some ui
    /\ Forall (fun r => date (sale r)
                        <= to_datetime
                             (date_of (to_datetime 19728 + 3600000000000))
                        /\ date (sale r) < to_datetime 19728 + 3600000000000)
              (records (filtered_df demo_late_frame ui))
    /\ exists ir, In ir demo_late_frame
                  /\ date (sale (snd ir)) = to_datetime 19728 + 3600000000000
                  /\ ~ In ir (filtered_df demo_late_frame ui).
Proof.
  apply (default_selection_hides_late_rows demo_late_frame "Sintesi" false
           demo_now (to_datetime 19728 + 3600000000000)).
  - reflexivity.
  - vm_compute. lia.
Defined.

Example demo_late_view :
  exists ui,
    default_sidebar demo_late_frame "Sintesi" false demo_now = Some ui
    /\ length (filtered_df demo_late_frame ui) = 1%nat.
Proof. eexists. split; reflexivity. Qed.

Lemma filtered_total_sales_witness :
  total_sales (filtered_df demo_frame demo_everything) = 2000
  /\ 0 <= total_sales (filtered_df demo_frame demo_everything)
     <= total_sales demo_frame.
Proof.
  apply (filtered_total_sales_within_total demo_frame demo_everything).
  - repeat constructor; simpl; lia.
  - vm_compute. reflexivity.
Defined.

(** The two-row frame with a return booked as negative sales. *)
Definition demo_refund_frame : DataFrame :=
  [ (0%nat, add_margin (mkSale (to_datetime 19727) "Casa" "Forno"
                               (-500) (-120.5) 1 "Nord"));
    (1%nat, add_margin (mkSale (to_datetime 19728) "Elettronica" "TV"
                               800 210.25 11 "Sud")) ].

Definition demo_refund_world : World :=
  mkWorld (fun _ => 0) [] [OFrame demo_refund_frame].

Lemma how_a_run_ends_witness :
  (fst (demo_render demo_no_category) = Raise ValueError
   /\ page (snd (demo_render demo_no_category))
      = page demo_world
        ++ events_before_info demo_float demo_datetime demo_groupby
             demo_nlargest demo_sort demo_frame
             (filtered_df demo_frame demo_no_category) demo_no_category)
  /\ (let run := render demo_float demo_datetime demo_strftime demo_groupby
                   demo_nlargest demo_sort 0 demo_everything
                   demo_refund_world in
      product_sales (filtered_df demo_refund_frame demo_everything)
      = [("Forno", -500); ("TV", 800)]
      /\ fst run = Raise ValueError
      /\ page (snd run)
         = page demo_refund_world
           ++ events_before_scatter demo_groupby demo_nlargest
                demo_refund_frame
                (filtered_df demo_refund_frame demo_everything)).
Proof.
  split.
  - exact (proj1 (proj2 (proj2 (proj2
             (how_a_run_ends demo_float demo_datetime demo_strftime
                demo_groupby demo_nlargest demo_sort 0 demo_no_category
                demo_world demo_frame eq_refl))))
             eq_refl).
  - cbv zeta. split; [reflexivity|].
    exact (proj2 (proj1 (proj2 (proj2
             (how_a_run_ends demo_float demo_datetime demo_strftime
                demo_groupby demo_nlargest demo_sort 0 demo_everything
                demo_refund_world demo_refund_frame eq_refl)))
             eq_refl)).
Defined.

Lemma load_data_keeps_file_rows_witness :
  exists df,
    load_data (Return demo_csv) demo_parse demo_world = (Return df, demo_world)
    /\ index df = seq 0 (length demo_csv)
    /\ Forall2 (row_of demo_parse) demo_csv (records df).
Proof.
  apply (load_data_keeps_file_rows demo_parse demo_csv demo_world).
  repeat constructor; vm_compute; discriminate.
Defined.

Lemma delta_sales_witness :
  delta_sales demo_frame demo_frame = 0%float
  /\ delta_sales demo_frame [] = (-100)%float.
Proof.
  apply (delta_sales_whole_and_empty_view demo_frame).
  vm_compute. reflexivity.
Defined.

Lemma info_period_witness :
  In (to_datetime 19727) (column date (filtered_df demo_frame demo_everything))
  /\ In (to_datetime 19728)
        (column date (filtered_df demo_frame demo_everything))
  /\ to_datetime 19727 <= to_datetime 19727 <= to_datetime 19728
  /\ to_datetime 19728 <= to_datetime 19728
  /\ exists max_date, series_max (column date demo_frame) = Some max_date
                      /\ to_datetime 19728 <= max_date.
Proof.
  exact (info_period_within_selection demo_frame 19727 19728
           ["Casa"; "Elettronica"] ["Nord"; "Sud"] "Sintesi" false demo_now
           (to_datetime 19727) (to_datetime 19728) eq_refl eq_refl).
Defined.


Lemma empty_selection_witness :
  filtered_df demo_frame demo_backwards = []
  /\ fst (demo_render demo_backwards) = Raise ValueError.
Proof.
  apply (empty_selection_ends_run demo_float demo_datetime demo_strftime
           demo_groupby demo_nlargest demo_sort 0 demo_world demo_frame
           19728 19727 ["Casa"; "Elettronica"] ["Nord"; "Sud"] "Sintesi"
           false demo_now eq_refl).
  left. lia.
Defined.

Lemma file_name_witness :
  file_name demo_now = "dashboard_data_20261103.csv"
  /\ String.length (strftime_Ymd demo_now) = 8%nat
  /\ String.length (file_name demo_now) = 27%nat
  /\ value_of_digits (strftime_Ymd demo_now) 0 = Some 20261103.
Proof.
  apply (file_name_has_the_date demo_now); simpl; lia.
Defined.

(** The tables of the charts and the export of the two-row frame. *)
Example demo_category_sales :
  category_sales demo_frame = [("Casa", 1200); ("Elettronica", 800)]
  /\ top_products demo_frame = [("Forno", 1200); ("TV", 800)].
Proof. split; reflexivity. Qed.

Lemma run_with_file_witness :
  exists d ui fdf w' first_day last_day,
    load_data (Return demo_csv) demo_parse demo_world = (Return d, demo_world)
    /\ length d = length demo_csv
    /\ default_sidebar d "Sintesi" false demo_now = Some ui
    /\ filtered_df d ui = d
    /\ dashboard (Return demo_csv) demo_parse demo_float demo_datetime
         demo_strftime demo_groupby demo_nlargest demo_sort ui demo_world
       = (Return fdf, w')
    /\ series_min (column date d) = Some first_day
    /\ series_max (column date d) = Some last_day
    /\ page w'
       = page demo_world
         ++ events_before_info demo_float demo_datetime demo_groupby
              demo_nlargest demo_sort d d ui
         ++ [Info (demo_strftime "%d/%m/%Y" last_day) (length demo_csv)
                  (demo_strftime "%d/%m" first_day)
                  (demo_strftime "%d/%m" last_day)].
Proof.
  apply (run_with_file_of_dates demo_parse demo_float demo_datetime
           demo_strftime demo_groupby demo_nlargest demo_sort demo_csv
           "Sintesi" false demo_now demo_world).
  - discriminate.
  - repeat constructor; eexists; split; reflexivity.
  - repeat constructor; cbn; lia.
  - reflexivity.
Defined.

Lemma avg_customers_witness :
  avg_customers demo_frame = (of_Z 31 / of_Z 2)%float.
Proof.
  apply (avg_customers_exact_total demo_frame).
  - repeat constructor; simpl; lia.
  - vm_compute. reflexivity.
Defined.

Example demo_avg_customers : avg_customers demo_frame = 15.5%float.
Proof. reflexivity. Qed.

(** The generator that always hands out 0, and a selection that keeps the
    whole sample. *)
Definition demo_generator : RandomState := fun _ => 0.

Lemma demo_sample_view :
  filtered_df (fst (create_sample_data demo_generator)) demo_one_date <> [].
Proof.
  change (fst (create_sample_data demo_generator) <> []).
  intros E. pose proof (sample_length demo_generator) as L.
  rewrite E in L. discriminate L.
Qed.

Lemma sample_avg_customers_witness :
  let f := filtered_df (fst (create_sample_data demo_generator))
                       demo_one_date in
  (16 <=? avg_customers f)%float = true
  /\ (avg_customers f <=? 499)%float = true.
Proof.
  exact (sample_avg_customers_range demo_generator demo_one_date
           demo_sample_view).
Defined.

Lemma sample_total_profit_witness :
  let f := filtered_df (fst (create_sample_data demo_generator))
                       demo_one_date in
  (of_Z (250 * Z.of_nat (length f)) <=? total_profit f)%float = true
  /\ (total_profit f <=? of_Z (7000 * Z.of_nat (length f)))%float = true
  /\ (0 <? total_profit f)%float = true.
Proof.
  exact (sample_total_profit_range demo_generator demo_one_date
           demo_sample_view).
Defined.

Example demo_daily_sales :
  daily_sales demo_frame
  = [(to_datetime 19727, 1200); (to_datetime 19728, 800)].
Proof. reflexivity. Qed.
